(** * FollowChat: message tree store, upstream chat client, reply orchestrator

    A shallow embedding of [backend/database/crud.py], [backend/llm/client.py]
    and the reply pipeline of [backend/app/main.py], with the properties of
    the design document proved (or refuted) on it.

    Conventions.
    - A Python [str] is the list of its Unicode code points ([list N]): this is
      what iteration, slicing, [strip] and [in] work on.
    - A raised exception is a value of [exn]; a function that can raise
      returns [res].
    - A table of the SQLite database is a finite map from the primary key to
      the remaining columns. *)

From Stdlib Require Import ZArith NArith Lia DecimalString.
From Stdlib Require Import Floats.SpecFloat.
From stdpp Require Import base option list strings gmap relations sorting.

Local Open Scope Z_scope.
Set Warnings "-register-all".

(** ** Python strings *)

Abbreviation str := (list N).

Module Utf8.
(** Source text is written as UTF-8 string literals; [decode] turns the
    bytes of a literal into code points. [need] counts the continuation
    bytes still expected, [acc] holds the bits read so far. *)
Fixpoint go (bs : list N) (need : nat) (acc : N) : list N :=
  match bs with
  | [] => []
  | b :: rest =>
      match need with
      | S n =>
          let acc' := (acc * 64 + b mod 64)%N in
          match n with
          | O => acc' :: go rest 0%nat 0%N
          | S _ => go rest n acc'
          end
      | O =>
          if (b <? 128)%N then b :: go rest 0%nat 0%N
          else if (b <? 224)%N then go rest 1%nat (b mod 32)%N
          else if (b <? 240)%N then go rest 2%nat (b mod 16)%N
          else go rest 3%nat (b mod 8)%N
      end
  end.

Definition bytes (s : String.string) : list N :=
  map Ascii.N_of_ascii (String.list_ascii_of_string s).

Definition decode (s : String.string) : str := go (bytes s) 0%nat 0%N.
End Utf8.

Abbreviation py s := (Utf8.decode s%string) (only parsing).

(* Literals stay as written under [simpl] and [cbn]. *)
Arguments Utf8.decode : simpl never.

(** [str(n)] for an integer. *)
Definition str_of_Z (z : Z) : str :=
  Utf8.decode (NilZero.string_of_int (Z.to_int z)).
Arguments str_of_Z : simpl never.

(** [str.isspace] for one code point: the characters [str.strip()] removes. *)
Definition isspace (c : N) : bool :=
  ((9 <=? c) && (c <=? 13) || (28 <=? c) && (c <=? 32)
   || (c =? 133) || (c =? 160) || (c =? 5760)
   || (8192 <=? c) && (c <=? 8202)
   || (c =? 8232) || (c =? 8233) || (c =? 8239) || (c =? 8287)
   || (c =? 12288))%N.

Fixpoint lstrip (s : str) : str :=
  match s with
  | c :: s' => if isspace c then lstrip s' else s
  | [] => []
  end.

Definition rstrip (s : str) : str := reverse (lstrip (reverse s)).

(** [s.strip()] *)
Definition strip (s : str) : str := rstrip (lstrip s).

(** [s.rstrip(chars)] for a one-character [chars]. *)
Fixpoint lstrip_char (ch : N) (s : str) : str :=
  match s with
  | c :: s' => if (c =? ch)%N then lstrip_char ch s' else s
  | [] => []
  end.

Definition rstrip_char (ch : N) (s : str) : str :=
  reverse (lstrip_char ch (reverse s)).

(** [s.startswith(prefix)] *)
Fixpoint startswith (s prefix : str) : bool :=
  match prefix, s with
  | [], _ => true
  | p :: prefix', c :: s' => (p =? c)%N && startswith s' prefix'
  | _ :: _, [] => false
  end.

(** [sub in s] *)
Fixpoint contains (sub s : str) : bool :=
  startswith s sub ||
  match s with
  | [] => false
  | _ :: s' => contains sub s'
  end.

(** Truthiness of a string, [bool(s)]. *)
Definition nonempty (s : str) : bool :=
  match s with [] => false | _ :: _ => true end.

(** ** Exceptions *)

(** The HTTP response object of httpx as far as the client looks at it.
    [body_read] tells whether the body was loaded: [client.post] loads it,
    [client.stream] leaves it unread until the caller iterates or calls
    [read()]. *)
Record Response := mkResponse {
  status_code : Z;
  body : str;
  body_read : bool
}.

Inductive exn :=
| ValueError (msg : str)
| JSONDecodeError                       (* a subclass of ValueError *)
| IntegrityError (msg : str)            (* sqlite3.IntegrityError *)
| LLMClientError (msg : str)            (* backend.llm.client, a RuntimeError *)
| HTTPStatusError (msg : str) (response : Response)   (* httpx *)
| HTTPError (msg : str)                 (* any other httpx.HTTPError *)
| ResponseNotRead                       (* httpx.StreamError, a RuntimeError *)
| AttributeError
| TypeError
| KeyError
| IndexError.

(** [isinstance(e, ValueError)] *)
Definition is_ValueError (e : exn) : bool :=
  match e with
  | ValueError _ | JSONDecodeError => true
  | _ => false
  end.

Inductive res (A : Type) :=
| Ok (a : A)
| Raise (e : exn).
Arguments Ok {A} a.
Arguments Raise {A} e.

#[global] Instance res_ret : MRet res := fun _ a => Ok a.
#[global] Instance res_bind : MBind res := fun _ _ f m =>
  match m with
  | Ok a => f a
  | Raise e => Raise e
  end.


(** ** The SQLite database ([backend/database/crud.py]) *)

Module Conversation.
(** The [Conversation] dataclass. *)
Record t := mk { id : Z; title : str; created_at : str }.
End Conversation.

Module Message.
(** The [Message] dataclass. *)
Record t := mk {
  id : Z;
  conversation_id : Z;
  role : str;
  content : str;
  order_index : Z;
  summary : option str;
  parent_id : option Z;
  assistant_reply : option str;
  created_at : str
}.
End Message.

Module Config.
(** The [Config] dataclass; [temperature] is a Python float. *)
Record t := mk {
  id : Z;
  api_key : option str;
  base_url : option str;
  model_name : str;
  temperature : spec_float;
  updated_at : str
}.
End Config.

Module ConversationRow.
(** Columns of [conversations] other than the primary key. *)
Record t := mk { title : str; created_at : str }.
End ConversationRow.

Module Row.
(** Columns of [messages] other than the primary key. *)
Record t := mk {
  conversation_id : Z;
  role : str;
  content : str;
  order_index : Z;
  summary : option str;
  parent_id : option Z;
  assistant_reply : option str;
  created_at : str
}.
End Row.

Module ConfigRow.
(** Columns of the single row ([id = 1]) of [configs]. *)
Record t := mk {
  api_key : option str;
  base_url : option str;
  model_name : str;
  temperature : spec_float;
  updated_at : str
}.
End ConfigRow.

(** The database file as [init_db] lays it out. The [_seq] fields are the
    [sqlite_sequence] entries that AUTOINCREMENT keeps: the largest row id
    ever given out. [CURRENT_TIMESTAMP] is the clock the column defaults
    read. *)
Record DB := mkDB {
  conversations : gmap Z ConversationRow.t;
  conversations_seq : Z;
  messages : gmap Z Row.t;
  messages_seq : Z;
  configs : option ConfigRow.t;
  CURRENT_TIMESTAMP : str
}.

(** *** What a statement can bind

    The [sqlite3] module hands the arguments of [execute] to SQLite as
    INTEGER, 64 bits and signed, and as TEXT in UTF-8. A Python [int]
    outside that range raises [OverflowError] and a [str] with a code
    point that UTF-8 does not encode (a lone surrogate) raises
    [UnicodeEncodeError], before the statement runs. The functions of
    [crud.py] are modelled below for arguments that can be bound; the
    statements about arguments a caller chooses say so. *)
Definition int64 (z : Z) : Prop := - 2 ^ 63 ≤ z < 2 ^ 63.

Definition encodable (s : str) : bool :=
  forallb (fun c => ((c <? 55296) || (57343 <? c)) && (c <=? 1114111))%N s.

(** [MAX(...)] over the selected values: NULL on no rows. *)
Definition sql_max (l : list Z) : option Z :=
  match l with
  | [] => None
  | x :: l' => Some (foldr Z.max x l')
  end.

(** [COALESCE(x, d)] *)
Definition COALESCE (x : option Z) (d : Z) : Z := default d x.

Definition rowids {A} (table : gmap Z A) : list Z := (map_to_list table).*1.

(** The row id an [INTEGER PRIMARY KEY AUTOINCREMENT] column gets: one more
    than the largest row id ever present. *)
Definition autoincrement {A} (table : gmap Z A) (seq : Z) : Z :=
  Z.max seq (COALESCE (sql_max (rowids table)) 0) + 1.

Definition _row_to_conversation (id : Z) (row : ConversationRow.t) : Conversation.t :=
  Conversation.mk id (ConversationRow.title row) (ConversationRow.created_at row).

Definition _row_to_message (id : Z) (row : Row.t) : Message.t :=
  Message.mk id (Row.conversation_id row) (Row.role row) (Row.content row)
    (Row.order_index row) (Row.summary row) (Row.parent_id row)
    (Row.assistant_reply row) (Row.created_at row).

Definition _row_to_config (row : ConfigRow.t) : Config.t :=
  Config.mk 1 (ConfigRow.api_key row) (ConfigRow.base_url row)
    (ConfigRow.model_name row) (ConfigRow.temperature row)
    (ConfigRow.updated_at row).

Definition not_found (what : str) (id : Z) : exn :=
  ValueError (what ++ py " " ++ str_of_Z id ++ py " not found").

(** [SELECT ... FROM conversations WHERE id = ?], for an id within
    [int64]. *)
Definition get_conversation (db : DB) (conversation_id : Z) : res Conversation.t :=
  match conversations db !! conversation_id with
  | None => Raise (not_found (py "Conversation") conversation_id)
  | Some row => Ok (_row_to_conversation conversation_id row)
  end.

(** [INSERT INTO conversations (title) VALUES (?)], then the row is read
    back. *)
Definition create_conversation (db : DB) (title : str)
  : res (Conversation.t * DB) :=
  let convo_id := autoincrement (conversations db) (conversations_seq db) in
  let db' :=
    mkDB (<[convo_id := ConversationRow.mk title (CURRENT_TIMESTAMP db)]>
            (conversations db))
         convo_id (messages db) (messages_seq db) (configs db)
         (CURRENT_TIMESTAMP db) in
  conversation ← get_conversation db' convo_id;
  Ok (conversation, db').

(** [UPDATE conversations SET title = ? WHERE id = ?]: no row, no change.
    The id is within [int64] and the title is [encodable]. *)
Definition update_conversation (db : DB) (conversation_id : Z)
    (title : option str) : res (Conversation.t * DB) :=
  match title with
  | None =>
      Raise (ValueError
               (py "At least one field must be provided to update_conversation"))
  | Some title =>
      let db' :=
        mkDB (alter (fun row =>
                       ConversationRow.mk title (ConversationRow.created_at row))
                    conversation_id (conversations db))
             (conversations_seq db) (messages db) (messages_seq db)
             (configs db) (CURRENT_TIMESTAMP db) in
      conversation ← get_conversation db' conversation_id;
      Ok (conversation, db')
  end.

(** The rows of [messages] with the given [conversation_id]. *)
Definition messages_of (db : DB) (conversation_id : Z) : list (Z * Row.t) :=
  filter (fun kv => Row.conversation_id kv.2 = conversation_id)
         (map_to_list (messages db)).

(** [SELECT COALESCE(MAX(order_index), -1) ... WHERE conversation_id = ?],
    plus one. *)
Definition _next_order_index (db : DB) (conversation_id : Z) : Z :=
  COALESCE (sql_max ((fun kv => Row.order_index kv.2) <$> messages_of db conversation_id))
           (-1) + 1.

(** [SELECT ... FROM messages WHERE id = ?], for an id within [int64]. *)
Definition get_message (db : DB) (message_id : Z) : res Message.t :=
  match messages db !! message_id with
  | None => Raise (not_found (py "Message") message_id)
  | Some row => Ok (_row_to_message message_id row)
  end.

(** *** Constraints of the [messages] table *)

(** [CHECK (role IN ('user', 'assistant', 'system'))] *)
Definition role_ok (role : str) : bool :=
  bool_decide (role ∈ [py "user"; py "assistant"; py "system"]).

(** The unique index [idx_messages_conversation_order]: is there a row
    other than [self] with this [(conversation_id, order_index)]? *)
Definition order_taken (db : DB) (self : Z) (conversation_id order_index : Z) : bool :=
  bool_decide
    (Exists (fun kv => kv.1 ≠ self ∧ Row.conversation_id kv.2 = conversation_id
                       ∧ Row.order_index kv.2 = order_index)
            (map_to_list (messages db))).

(** [FOREIGN KEY (parent_id) REFERENCES messages(id)], checked when the
    statement ends: NULL passes, and so does a row that names itself. *)
Definition parent_ok (table : gmap Z Row.t) (parent_id : option Z) : bool :=
  match parent_id with
  | None => true
  | Some p => bool_decide (is_Some (table !! p))
  end.

(** [INSERT INTO messages (...) VALUES (...)] with every constraint of the
    table checked; [cursor.lastrowid] comes back with the new database. A
    violation raises and the [with get_connection()] block rolls back, which
    leaves the database as it was. The values of the row are ones that can
    be bound ([order_index] and the ids within [int64], the texts
    [encodable]) and the row id given out is within [int64]; past the
    largest integer the [INSERT] fails instead. *)
Definition insert_message (db : DB) (row : Row.t) : res (Z * DB) :=
  let id := autoincrement (messages db) (messages_seq db) in
  if negb (role_ok (Row.role row)) then
    Raise (IntegrityError (py "CHECK constraint failed"))
  else if order_taken db id (Row.conversation_id row) (Row.order_index row) then
    Raise (IntegrityError
             (py "UNIQUE constraint failed: messages.conversation_id, messages.order_index"))
  else
    let table := <[id := row]> (messages db) in
    if bool_decide (is_Some (conversations db !! Row.conversation_id row))
       && parent_ok table (Row.parent_id row)
    then Ok (id, mkDB (conversations db) (conversations_seq db) table id
                      (configs db) (CURRENT_TIMESTAMP db))
    else Raise (IntegrityError (py "FOREIGN KEY constraint failed")).

Definition create_message (db : DB) (conversation_id : Z) (content : str)
    (order_index : option Z) (summary : option str) (parent_id : option Z)
    (assistant_reply : option str) : res (Message.t * DB) :=
  let role := py "user" in
  let order_index :=
    match order_index with
    | None => _next_order_index db conversation_id
    | Some order_index => order_index
    end in
  '(message_id, db') ← insert_message db
      (Row.mk conversation_id role content order_index summary parent_id
              assistant_reply (CURRENT_TIMESTAMP db));
  message ← get_message db' message_id;
  Ok (message, db').

(** [ORDER BY order_index] *)
Definition by_order_index (a b : Z * Row.t) : Prop :=
  Row.order_index a.2 ≤ Row.order_index b.2.

#[global] Instance by_order_index_dec a b : Decision (by_order_index a b).
Proof. unfold by_order_index. apply _. Defined.

Definition get_messages_for_conversation (db : DB) (conversation_id : Z)
  : list Message.t :=
  (fun kv => _row_to_message kv.1 kv.2)
    <$> merge_sort by_order_index (messages_of db conversation_id).

(** The [while] loop of [get_message_path_to_root]. [fuel] bounds the number
    of iterations; [None] says the bound was reached with the loop still
    running. *)
Fixpoint path_loop (fuel : nat) (db : DB) (current_id : option Z)
    (path : list Message.t) : option (list Message.t) :=
  match current_id with
  | None => Some path
  | Some id =>
      match fuel with
      | O => None
      | S fuel' =>
          match get_message db id with
          | Ok message =>
              path_loop fuel' db (Message.parent_id message) (path ++ [message])
          | Raise e =>
              (* [get_message] raises nothing but ValueError: [break] *)
              Some path
          end
      end
  end.

(** [get_message_path_to_root]. A loop that ends does so within one
    iteration per stored message (see [path_loop_None_forever]), so [None]
    is the loop that never ends, which a cycle of [parent_id]s causes. *)
Definition get_message_path_to_root (db : DB) (message_id : Z)
  : option (list Message.t) :=
  reverse <$> path_loop (S (size (messages db))) db (Some message_id) [].

(** The [SET] clauses of [update_message]: the fields given replace the
    stored ones. *)
Definition set_fields (row : Row.t) (content : option str)
    (order_index : option Z) (summary : option str) (parent_id : option Z)
    (assistant_reply : option str) : Row.t :=
  Row.mk (Row.conversation_id row) (Row.role row)
    (default (Row.content row) content)
    (default (Row.order_index row) order_index)
    (match summary with Some _ => summary | None => Row.summary row end)
    (match parent_id with Some _ => parent_id | None => Row.parent_id row end)
    (match assistant_reply with
     | Some _ => assistant_reply
     | None => Row.assistant_reply row
     end)
    (Row.created_at row).

(** [UPDATE messages SET ... WHERE id = ?]: without such a row nothing
    happens; the unique index and the foreign key are checked for the
    columns that are set. The id and the values set are ones that can be
    bound. *)
Definition update_message_row (db : DB) (message_id : Z) (content : option str)
    (order_index : option Z) (summary : option str) (parent_id : option Z)
    (assistant_reply : option str) : res DB :=
  match messages db !! message_id with
  | None => Ok db
  | Some row =>
      let row' := set_fields row content order_index summary parent_id
                    assistant_reply in
      if bool_decide (is_Some order_index)
         && order_taken db message_id (Row.conversation_id row')
              (Row.order_index row')
      then Raise (IntegrityError
                    (py "UNIQUE constraint failed: messages.conversation_id, messages.order_index"))
      else if parent_ok (messages db) parent_id
      then Ok (mkDB (conversations db) (conversations_seq db)
                    (<[message_id := row']> (messages db)) (messages_seq db)
                    (configs db) (CURRENT_TIMESTAMP db))
      else Raise (IntegrityError (py "FOREIGN KEY constraint failed"))
  end.

Definition update_message (db : DB) (message_id : Z) (content : option str)
    (order_index : option Z) (summary : option str) (parent_id : option Z)
    (assistant_reply : option str) : res (Message.t * DB) :=
  match content, order_index, summary, parent_id, assistant_reply with
  | None, None, None, None, None =>
      Raise (ValueError
               (py "At least one field must be provided to update_message"))
  | _, _, _, _, _ =>
      db' ← update_message_row db message_id content order_index summary
              parent_id assistant_reply;
      message ← get_message db' message_id;
      Ok (message, db')
  end.

Definition get_config (db : DB) : option Config.t :=
  _row_to_config <$> configs db.

(** The database [init_db] creates. *)
Definition empty_db (now : str) : DB := mkDB ∅ 0 ∅ 0 None now.

(** [ORDER BY order_index] compares any two rows. *)
#[global] Instance by_order_index_total : Total by_order_index.
Proof. intros a b. unfold by_order_index. lia. Qed.

#[global] Instance by_order_index_trans : Transitive by_order_index.
Proof. intros a b c. unfold by_order_index. lia. Qed.

(** *** [ON DELETE CASCADE]

    SQLite runs the action of a foreign key as a trigger program, once for
    every row it deletes from the parent table, and refuses to nest more
    than [SQLITE_MAX_TRIGGER_DEPTH] programs ("too many levels of trigger
    recursion"); the error leaves [get_connection] through its [except],
    which rolls everything back. *)
Definition SQLITE_MAX_TRIGGER_DEPTH : nat := 1000.

(** [DELETE]s visit the rows they select in the order of the row id. *)
Definition by_rowid (ids : list Z) : list Z := merge_sort Z.le ids.

(** The rows [DELETE FROM messages WHERE parent_id = id] selects: the
    action of [FOREIGN KEY (parent_id) REFERENCES messages(id)]. *)
Definition children (table : gmap Z Row.t) (id : Z) : list Z :=
  by_rowid (filter (fun kv : Z * Row.t => Row.parent_id kv.2 = Some id)
                   (map_to_list table)).*1.

(** A [DELETE] of the rows [ids] of [messages], run where [left] more
    programs may be nested. A row that an earlier cascade of the same
    statement has removed is passed over; for every row removed the action
    on its children runs one level deeper. [None] is the error. *)
Fixpoint delete_rows (left : nat) : list Z -> gmap Z Row.t -> option (gmap Z Row.t) :=
  fix go (ids : list Z) (table : gmap Z Row.t) : option (gmap Z Row.t) :=
    match ids with
    | [] => Some table
    | id :: ids' =>
        match table !! id with
        | None => go ids' table
        | Some _ =>
            match left with
            | O => None
            | S left' =>
                match delete_rows left' (children (delete id table) id)
                        (delete id table) with
                | None => None
                | Some table' => go ids' table'
                end
            end
        end
    end.

(** What a [delete_...] function ends in. *)
Inductive Deletion :=
| Deleted (db : DB)      (* committed *)
| TooManyLevels.         (* sqlite3.OperationalError, rolled back *)

(** [DELETE FROM messages WHERE id = ?], for an id within [int64]. *)
Definition delete_message (db : DB) (message_id : Z) : Deletion :=
  match delete_rows SQLITE_MAX_TRIGGER_DEPTH [message_id] (messages db) with
  | Some table =>
      Deleted (mkDB (conversations db) (conversations_seq db) table
                    (messages_seq db) (configs db) (CURRENT_TIMESTAMP db))
  | None => TooManyLevels
  end.

(** [DELETE FROM conversations WHERE id = ?], for an id within [int64]:
    the action of
    [FOREIGN KEY (conversation_id) REFERENCES conversations(id)] deletes the
    messages of the conversation, one level down. *)
Definition delete_conversation (db : DB) (conversation_id : Z) : Deletion :=
  match conversations db !! conversation_id with
  | None => Deleted db
  | Some _ =>
      match delete_rows (SQLITE_MAX_TRIGGER_DEPTH - 1)
              (by_rowid (messages_of db conversation_id).*1) (messages db) with
      | Some table =>
          Deleted (mkDB (delete conversation_id (conversations db))
                        (conversations_seq db) table (messages_seq db)
                        (configs db) (CURRENT_TIMESTAMP db))
      | None => TooManyLevels
      end
  end.

(** ** The upstream chat client ([backend/llm/client.py]) *)

(** What [json.loads] returns. An object lists the entries of the resulting
    [dict], each key once. *)
Inductive json :=
| JNull
| JBool (b : bool)
| JInt (z : Z)
| JFloat (f : spec_float)
| JStr (s : str)
| JArr (l : list json)
| JObj (entries : list (str * json)).

(** [bool(v)] *)
Definition truthy (v : json) : bool :=
  match v with
  | JNull => false
  | JBool b => b
  | JInt z => negb (z =? 0)
  | JFloat (S754_zero _) => false
  | JFloat _ => true
  | JStr s => nonempty s
  | JArr l => match l with [] => false | _ :: _ => true end
  | JObj entries => match entries with [] => false | _ :: _ => true end
  end.

(** [v or d] *)
Definition py_or (v d : json) : json := if truthy v then v else d.

Fixpoint dict_get (entries : list (str * json)) (key : str) : option json :=
  match entries with
  | [] => None
  | (k, v) :: entries' =>
      if bool_decide (k = key) then Some v else dict_get entries' key
  end.

(** [v.get(key, d)]: only a [dict] has the method. *)
Definition py_get (v : json) (key : str) (d : json) : res json :=
  match v with
  | JObj entries => Ok (default d (dict_get entries key))
  | _ => Raise AttributeError
  end.

(** [v[0]] *)
Definition py_first (v : json) : res json :=
  match v with
  | JArr (x :: _) => Ok x
  | JArr [] => Raise IndexError
  | JStr (c :: _) => Ok (JStr [c])
  | JStr [] => Raise IndexError
  | JObj _ => Raise KeyError          (* the keys of a JSON object are strings *)
  | _ => Raise TypeError
  end.

Module ChatMessage.
(** A [{"role": ..., "content": ...}] entry of the prompt. *)
Record t := mk { role : str; content : str }.
End ChatMessage.

(** The request body [_build_payload] makes; no caller in this repository
    passes [max_tokens] or [extra_params]. *)
Record ChatPayload := mkPayload {
  payload_model : str;
  payload_messages : list ChatMessage.t;
  payload_temperature : spec_float;
  payload_stream : bool
}.

Record OpenAICompatibleLLM := mkLLM {
  api_key : option str;
  model_name : str;
  api_base : str;
  timeout : option spec_float
}.

Definition DEFAULT_API_BASE : str := py "https://api.openai.com/v1".

(** [OpenAICompatibleLLM.__init__] *)
Definition new_OpenAICompatibleLLM (api_key : option str) (model_name : str)
    (api_base : option str) (timeout : option spec_float)
  : res OpenAICompatibleLLM :=
  if negb (nonempty model_name) then
    Raise (ValueError (py "model_name is required"))
  else
    let base :=
      match api_base with
      | Some b => if nonempty b then b else DEFAULT_API_BASE
      | None => DEFAULT_API_BASE
      end in
    Ok (mkLLM api_key model_name (rstrip_char 47%N base) timeout).

(** A generator that has been run to its end: what it yields, in order, and
    how it finishes ([None]: it returns; [Some e]: advancing it once more
    raises [e]). Calling a generator function runs none of its body, so the
    call itself cannot raise. *)
Record Generator (A : Type) := mkGen {
  items : list A;
  finish : option exn
}.
Arguments mkGen {A} items finish.
Arguments items {A} g.
Arguments finish {A} g.

Inductive Step (A : Type) :=
| Yielded (a : A) (rest : Generator A)
| StopIteration
| Raised (e : exn).
Arguments Yielded {A} a rest.
Arguments StopIteration {A}.
Arguments Raised {A} e.

(** [next(g)] *)
Definition next {A} (g : Generator A) : Step A :=
  match items g with
  | a :: rest => Yielded a (mkGen rest (finish g))
  | [] => match finish g with None => StopIteration | Some e => Raised e end
  end.

(** What the network does with a streaming request. *)
Record StreamExchange := mkStreamExchange {
  stream_open_error : option str;   (* an httpx.HTTPError before any response *)
  stream_status : Z;
  stream_lines : list str;          (* what [response.iter_lines()] gives *)
  stream_read_error : option str    (* an httpx.HTTPError after these lines *)
}.

(** What the network does with a buffered request. *)
Record PostExchange := mkPostExchange {
  post_error : option str;
  post_status : Z;
  post_body : str
}.

Record Network := mkNetwork {
  http_stream : OpenAICompatibleLLM -> ChatPayload -> StreamExchange;
  http_post : OpenAICompatibleLLM -> ChatPayload -> PostExchange
}.

(** [response.text]: httpx raises [ResponseNotRead] when the body of a
    streamed response was not read. *)
Definition text (response : Response) : res str :=
  if body_read response then Ok (body response) else Raise ResponseNotRead.

(** [response.raise_for_status()] *)
Definition raise_for_status (response : Response) : res unit :=
  if (200 <=? status_code response) && (status_code response <=? 299)
  then Ok tt
  else Raise (HTTPStatusError (py "error status") response).

Definition _normalize_messages (messages : list ChatMessage.t)
  : res (list ChatMessage.t) :=
  foldl (fun normalized message =>
           normalized ← normalized;
           let role := ChatMessage.role message in
           let content := ChatMessage.content message in
           if negb (nonempty role) || negb (nonempty content) then
             Raise (ValueError (py "Each message must contain 'role' and 'content'"))
           else Ok (normalized ++ [ChatMessage.mk role content]))
        (Ok []) messages.

Definition _build_payload (self : OpenAICompatibleLLM)
    (messages : list ChatMessage.t) (temperature : spec_float) (stream : bool)
  : res ChatPayload :=
  normalized_messages ← _normalize_messages messages;
  Ok (mkPayload (model_name self) normalized_messages temperature stream).

(** The two [except] clauses shared by [_post] and [_post_stream]. *)
Definition provider_error (exc : exn) : exn :=
  match exc with
  | HTTPStatusError _ response =>
      match text response with
      | Ok body =>
          LLMClientError (py "LLM provider returned "
                            ++ str_of_Z (status_code response) ++ py ": " ++ body)
      | Raise e => e                   (* raised while the message is built *)
      end
  | HTTPError msg => LLMClientError (py "LLM provider request failed: " ++ msg)
  | e => e
  end.

(** What one line of the event stream makes [_iter_sse] do. *)
Inductive LineAction :=
| Skip                 (* [continue] *)
| Stop                 (* [return] *)
| Emit (piece : json)  (* [yield content_piece] *)
| Fail (e : exn).

Module ChatCompletionChoice.
Record t := mk { content : json; finish_reason : json; index : json }.
End ChatCompletionChoice.

Module ChatCompletionResult.
Record t := mk { choice : ChatCompletionChoice.t; usage : json; raw : json }.
End ChatCompletionResult.

Section Client.
(** [json.loads] on a [str]: [None] is [json.JSONDecodeError]. *)
Variable json_loads : str -> option json.

Variable network : Network.

(** The body of the [for] loop of [_iter_sse] for one line. *)
Definition sse_line (line : str) : LineAction :=
  if negb (nonempty line) || negb (startswith line (py "data:")) then Skip
  else
    let data := strip (drop 5 line) in
    if bool_decide (data = py "[DONE]") then Stop
    else
      match json_loads data with
      | None => Skip
      | Some parsed =>
          match py_get parsed (py "choices") JNull with
          | Raise e => Fail e
          | Ok choices =>
              let choices := py_or choices (JArr []) in
              if negb (truthy choices) then Skip
              else
                match first_choice ← py_first choices;
                      py_get first_choice (py "delta") JNull with
                | Raise e => Fail e
                | Ok delta =>
                    let delta := py_or delta (JObj []) in
                    match py_get delta (py "content") JNull with
                    | Raise e => Fail e
                    | Ok content_piece =>
                        if truthy content_piece then Emit content_piece
                        else Skip
                    end
                end
          end
      end.

(** [_iter_sse] over the lines [response.iter_lines()] gives; [read_error]
    is the transport failure, if any, that iterating raises after them. *)
Fixpoint _iter_sse (lines : list str) (read_error : option str)
  : Generator json :=
  match lines with
  | [] => mkGen [] (HTTPError <$> read_error)
  | line :: lines' =>
      match sse_line line with
      | Skip => _iter_sse lines' read_error
      | Stop => mkGen [] None
      | Emit piece =>
          let rest := _iter_sse lines' read_error in
          mkGen (piece :: items rest) (finish rest)
      | Fail e => mkGen [] (Some e)
      end
  end.

Definition _post_stream (self : OpenAICompatibleLLM) (payload : ChatPayload)
  : Generator json :=
  let exchange := http_stream network self payload in
  let tried :=
    match stream_open_error exchange with
    | Some msg => mkGen [] (Some (HTTPError msg))
    | None =>
        let response := mkResponse (stream_status exchange) [] false in
        match raise_for_status response with
        | Raise e => mkGen [] (Some e)
        | Ok _ =>
            (* [if chunk is not None: yield chunk]: no piece is None *)
            _iter_sse (stream_lines exchange) (stream_read_error exchange)
        end
    end in
  mkGen (items tried) (provider_error <$> finish tried).

(** [stream]: the payload is built when the generator is first advanced. *)
Definition stream (self : OpenAICompatibleLLM) (messages : list ChatMessage.t)
    (temperature : spec_float) : Generator json :=
  match _build_payload self messages temperature true with
  | Raise e => mkGen [] (Some e)
  | Ok payload => _post_stream self payload
  end.

Definition _post (self : OpenAICompatibleLLM) (payload : ChatPayload)
  : res json :=
  let exchange := http_post network self payload in
  let tried :=
    match post_error exchange with
    | Some msg => Raise (HTTPError msg)
    | None =>
        let response :=
          mkResponse (post_status exchange) (post_body exchange) true in
        _ ← raise_for_status response;
        Ok response
    end in
  match tried with
  | Raise e => Raise (provider_error e)
  | Ok response =>
      (* [response.json()] *)
      match json_loads (body response) with
      | None => Raise JSONDecodeError
      | Some v => Ok v
      end
  end.

Definition _parse_completion (response_json : json)
  : res ChatCompletionResult.t :=
  choices ← py_get response_json (py "choices") JNull;
  let choices := py_or choices (JArr []) in
  if negb (truthy choices) then
    Raise (LLMClientError (py "LLM provider returned no choices"))
  else
    first_choice ← py_first choices;
    message ← py_get first_choice (py "message") JNull;
    let message := py_or message (JObj []) in
    content ← py_get message (py "content") (JStr []);
    finish_reason ← py_get first_choice (py "finish_reason") JNull;
    index ← py_get first_choice (py "index") (JInt 0);
    usage ← py_get response_json (py "usage") JNull;
    Ok (ChatCompletionResult.mk
          (ChatCompletionChoice.mk content finish_reason index)
          usage response_json).

Definition complete (self : OpenAICompatibleLLM)
    (messages : list ChatMessage.t) (temperature : spec_float)
  : res ChatCompletionResult.t :=
  payload ← _build_payload self messages temperature false;
  response_json ← _post self payload;
  _parse_completion response_json.
End Client.

(** ** The application ([backend/app/main.py]) *)

Module MessageOut.
Record t := mk {
  id : Z;
  conversation_id : Z;
  content : str;
  order_index : Z;
  summary : option str;
  parent_id : option Z;
  assistant_reply : option str;
  created_at : str
}.

(** [asdict(message)] without ["role"]. *)
Definition from_model (message : Message.t) : t :=
  mk (Message.id message) (Message.conversation_id message)
     (Message.content message) (Message.order_index message)
     (Message.summary message) (Message.parent_id message)
     (Message.assistant_reply message) (Message.created_at message).
End MessageOut.

Module MessageCreate.
Record t := mk { content : str }.
End MessageCreate.

Module LLMReplyRequest.
Record t := mk { content : str; parent_id : option Z }.
End LLMReplyRequest.

Definition ASSISTANT_SYSTEM_PROMPT : str :=
  py "你是 FollowChat 助手，需要根据当前会话历史回答用户最新的问题。"
  ++ py "保持专业且简洁，如信息不足请主动说明。".

Definition MODEL_IDENTITY_RESPONSE : str :=
  py "我是FollowChat 助手，为你提供分支对话管理。".

Definition SUMMARY_SYSTEM_PROMPT : str :=
  py "请用5-10个字概括用户刚刚输入的内容，仅返回概括文本。".

(** *** The regular expressions of [is_model_related_question]

    The patterns use literal characters, [.*], [\?*] and a final [$]. *)
Inductive atom :=
| Chr (c : N)        (* a literal character *)
| AnyStar            (* [.*]: any characters but a newline *)
| ChrStar (c : N)    (* [c*] *)
| Eos.               (* [$]: the end, or just before a final newline *)

Definition lit (s : str) : list atom := Chr <$> s.

(** [k] on [s] after any number of leading characters that satisfy [p]. *)
Fixpoint star (p : N -> bool) (k : str -> bool) (s : str) : bool :=
  k s ||
  match s with
  | [] => false
  | c :: s' => p c && star p k s'
  end.

(** Does the pattern match a prefix of [s]? *)
Fixpoint match_here (pattern : list atom) (s : str) : bool :=
  match pattern with
  | [] => true
  | Chr c :: pattern' =>
      match s with
      | x :: s' => (x =? c)%N && match_here pattern' s'
      | [] => false
      end
  | AnyStar :: pattern' => star (fun x => negb (x =? 10)%N) (match_here pattern') s
  | ChrStar c :: pattern' => star (fun x => (x =? c)%N) (match_here pattern') s
  | Eos :: pattern' =>
      (bool_decide (s = []) || bool_decide (s = [10%N])) && match_here pattern' s
  end.

(** [re.search(pattern, s)] as a truth value. *)
Fixpoint re_search (pattern : list atom) (s : str) : bool :=
  match_here pattern s ||
  match s with
  | [] => false
  | _ :: s' => re_search pattern s'
  end.

Definition model_keywords : list str :=
  [ py "你是什么"; py "你是谁"; py "你是什么模型"; py "你是什么ai"; py "你是什么助手";
    py "什么模型"; py "哪个模型"; py "用的什么"; py "基于什么"; py "什么技术";
    py "what are you"; py "who are you"; py "what model"; py "which model";
    py "你叫什么"; py "你的名字"; py "你的身份" ].

Definition judgment_patterns : list (list atom) :=
  [ lit (py "你是") ++ [AnyStar] ++ lit (py "吗") ++ [ChrStar 63%N; Eos];
    lit (py "你是") ++ [AnyStar] ++ lit (py "吗？");
    lit (py "你是") ++ [AnyStar] ++ lit (py "？");
    lit (py "你是") ++ [AnyStar] ++ lit (py "?");
    lit (py "是不是") ++ [AnyStar];
    lit (py "是否") ++ [AnyStar];
    lit (py "能否") ++ [AnyStar];
    lit (py "会不会") ++ [AnyStar] ].

(** The frames of the reply stream; each is written as one line,
    [json.dumps({...}, ensure_ascii=False) + "\n"]. *)
Inductive Frame :=
| FrameMessageId (message_id : Z)   (* {"type": "message_id", "message_id": _} *)
| FrameDelta (content : str)        (* {"type": "delta", "content": _} *)
| FrameDone                         (* {"type": "done"} *)
| FrameError (content : str).       (* {"type": "error", "content": _} *)

(** What a run of the reply generator does, in the order it does it. *)
Inductive Event :=
| Yield (frame : Frame)
| CallStream (messages : list ChatMessage.t) (temperature : spec_float)
| CallComplete (messages : list ChatMessage.t) (temperature : spec_float)
| CallUpdateMessage (message_id : Z) (content : option str)
    (order_index : option Z) (summary : option str) (parent_id : option Z)
    (assistant_reply : option str)
| CallUpdateConversation (conversation_id : Z) (title : option str).

Definition frames (events : list Event) : list Frame :=
  omap (fun ev => match ev with Yield f => Some f | _ => None end) events.

Definition is_client_call (ev : Event) : bool :=
  match ev with
  | CallStream _ _ | CallComplete _ _ => true
  | _ => false
  end.

Inductive Outcome (A : Type) :=
| Done (a : A)          (* ran to its end *)
| Crashed (e : exn)     (* an exception left the function *)
| Diverged.             (* a loop that never ends *)
Arguments Done {A} a.
Arguments Crashed {A} e.
Arguments Diverged {A}.

(** Code that reads and writes the database and leaves a trace. *)
Definition M (A : Type) : Type := DB -> list Event * DB * Outcome A.

#[global] Instance M_ret : MRet M := fun _ a db => ([], db, Done a).
#[global] Instance M_bind : MBind M := fun _ _ f m db =>
  match m db with
  | (events, db', Done a) =>
      let '(events', db'', r) := f a db' in (events ++ events', db'', r)
  | (events, db', Crashed e) => (events, db', Crashed e)
  | (events, db', Diverged) => (events, db', Diverged)
  end.

Definition trace (ev : Event) : M unit := fun db => ([ev], db, Done tt).

(** [yield frame] *)
Definition yield (frame : Frame) : M unit := trace (Yield frame).

Definition raise {A} (e : exn) : M A := fun db => ([], db, Crashed e).

(** A call into [crud.py]: it commits, or raises with nothing changed. *)
Definition crud {A} (op : DB -> res (A * DB)) : M A := fun db =>
  match op db with
  | Ok (a, db') => ([], db', Done a)
  | Raise e => ([], db, Crashed e)
  end.

Definition pure_res {A} (r : res A) : M A := fun db =>
  match r with
  | Ok a => ([], db, Done a)
  | Raise e => ([], db, Crashed e)
  end.

(** [try: body  except: handler]; [handler] gets every exception and
    re-raises those its clauses do not name. *)
Definition try_except {A} (body : M A) (handler : exn -> M A) : M A := fun db =>
  match body db with
  | (events, db', Crashed e) =>
      let '(events', db'', r) := handler e db' in (events ++ events', db'', r)
  | r => r
  end.

(** [for x in l: body x] *)
Fixpoint for_each {A} (l : list A) (body : A -> M unit) : M unit :=
  match l with
  | [] => mret tt
  | x :: l' => body x;; for_each l' body
  end.

(** The Python float [0.2], the temperature of the summary request. *)
Definition summary_temperature : spec_float :=
  S754_finite false 7205759403792794 (-55).

(** The Python float [30.0], the client's timeout. *)
Definition client_timeout : spec_float := S754_finite false 15 1.

(** What an endpoint function ends in. *)
Inductive ApiResult (A : Type) :=
| Returned (a : A)
| HTTPException (status : Z) (detail : str)
| Unhandled (e : exn).          (* answered with status 500 *)
Arguments Returned {A} a.
Arguments HTTPException {A} status detail.
Arguments Unhandled {A} e.

(** [str(exc)] *)
Definition exn_str (e : exn) : str :=
  match e with
  | ValueError msg | IntegrityError msg | LLMClientError msg
  | HTTPStatusError msg _ | HTTPError msg => msg
  | _ => []
  end.

Definition call_update_message (message_id : Z) (content : option str)
    (order_index : option Z) (summary : option str) (parent_id : option Z)
    (assistant_reply : option str) : M Message.t :=
  trace (CallUpdateMessage message_id content order_index summary parent_id
           assistant_reply);;
  crud (fun db => update_message db message_id content order_index summary
                    parent_id assistant_reply).

Definition call_update_conversation (conversation_id : Z) (title : option str)
  : M Conversation.t :=
  trace (CallUpdateConversation conversation_id title);;
  crud (fun db => update_conversation db conversation_id title).

Definition call_get_message_path_to_root (message_id : Z)
  : M (list Message.t) := fun db =>
  match get_message_path_to_root db message_id with
  | Some path => ([], db, Done path)
  | None => ([], db, Diverged)
  end.

(** The prompt entries one stored message contributes. *)
Definition history_turns (msg : Message.t) : list ChatMessage.t :=
  if bool_decide (Message.role msg = py "user") then
    ChatMessage.mk (py "user") (Message.content msg)
    :: match Message.assistant_reply msg with
       | Some reply =>
           if nonempty reply then [ChatMessage.mk (py "assistant") reply] else []
       | None => []
       end
  else if bool_decide (Message.role msg = py "assistant") then
    [ChatMessage.mk (py "assistant") (Message.content msg)]
  else [].

(** The body of [for delta in llm_client.stream(...)], over the fragments
    the generator yields. *)
Fixpoint relay (deltas : list json) (assistant_content : str) : M str :=
  match deltas with
  | [] => mret assistant_content
  | delta :: deltas' =>
      match delta with
      | JStr d =>
          (* [assistant_content += delta], then the frame *)
          yield (FrameDelta d);;
          relay deltas' (assistant_content ++ d)
      | _ => raise TypeError
      end
  end.

Section App.
(** [str.lower], which follows the Unicode case tables. *)
Variable lower : str -> str.

Variable json_loads : str -> option json.

Variable network : Network.

Definition is_model_related_question (content : str) : bool :=
  let content_lower := strip (lower content) in
  existsb (fun keyword => contains keyword content_lower) model_keywords
  || existsb (fun pattern => re_search pattern content_lower) judgment_patterns.

(** The prompt of [_stream_llm_reply]: the system instruction, then the
    turns of the ancestors, root first. *)
Definition build_llm_messages (history : list Message.t) : list ChatMessage.t :=
  ChatMessage.mk (py "system") ASSISTANT_SYSTEM_PROMPT
  :: concat (history_turns <$> history).

Definition summary_prompt (payload : LLMReplyRequest.t) : list ChatMessage.t :=
  [ ChatMessage.mk (py "system") SUMMARY_SYSTEM_PROMPT;
    ChatMessage.mk (py "user") (LLMReplyRequest.content payload) ].

(** Lines 369-377 of [main.py]: the [try] around the relay loop. [None]
    is the [return] of the [except] clause. *)
Definition relay_stream (config : Config.t) (llm_client : OpenAICompatibleLLM)
    (llm_messages : list ChatMessage.t) : M (option str) :=
  try_except
    (trace (CallStream llm_messages (Config.temperature config));;
     let generator :=
       stream json_loads network llm_client llm_messages
         (Config.temperature config) in
     assistant_content ← relay (items generator) [];
     match finish generator with
     | None => mret (Some assistant_content)
     | Some exc => raise exc
     end)
    (fun exc =>
       match exc with
       | LLMClientError msg =>
           yield (FrameError (py "LLM 请求失败: " ++ msg));;
           mret None
       | _ => raise exc
       end).

(** Lines 386-401: the summary request and its storing. The result is
    [summary_text] and [user_message] as the rest of the function sees
    them. *)
Definition derive_summary (payload : LLMReplyRequest.t)
    (llm_client : OpenAICompatibleLLM) (user_message : Message.t)
  : M (option str * Message.t) :=
  summary_text ← try_except
    (trace (CallComplete (summary_prompt payload) summary_temperature);;
     summary_completion ←
       pure_res (complete json_loads network llm_client
                   (summary_prompt payload) summary_temperature);
     match ChatCompletionChoice.content
             (ChatCompletionResult.choice summary_completion) with
     | JStr s => mret (Some (strip s))
     | _ => raise AttributeError           (* it has no [strip] *)
     end)
    (fun exc =>
       match exc with
       | LLMClientError _ => mret None
       | _ => raise exc
       end);
  match summary_text with
  | Some s =>
      if nonempty s then
        let trimmed_summary := take 255 s in
        user_message ← call_update_message (Message.id user_message)
                         None None (Some trimmed_summary) None None;
        mret (Some trimmed_summary, user_message)
      else mret (summary_text, user_message)
  | None => mret (summary_text, user_message)
  end.

(** [summary_text or payload.content.strip()] *)
Definition title_candidate (summary_text : option str)
    (payload : LLMReplyRequest.t) : str :=
  match summary_text with
  | Some s => if nonempty s then s else strip (LLMReplyRequest.content payload)
  | None => strip (LLMReplyRequest.content payload)
  end.

(** Lines 403-408: the title of the conversation. *)
Definition derive_title (conversation_id : Z) (payload : LLMReplyRequest.t)
    (conversation : Conversation.t) (summary_text : option str)
    (user_message : Message.t) : M unit :=
  let should_update_title :=
    bool_decide (Conversation.title conversation ∈ [py "新对话"; []]) in
  if should_update_title
     && bool_decide (Message.order_index user_message = 0)
  then
    if nonempty (title_candidate summary_text payload) then
      _ ← call_update_conversation conversation_id
            (Some (take 255 (title_candidate summary_text payload)));
      mret tt
    else mret tt
  else mret tt.

Definition _stream_llm_reply (conversation_id : Z)
    (payload : LLMReplyRequest.t) (conversation : Conversation.t)
    (config : Config.t) (llm_client : OpenAICompatibleLLM)
    (user_message : Message.t) : M unit :=
  yield (FrameMessageId (Message.id user_message));;
  if is_model_related_question (LLMReplyRequest.content payload) then
    let response_text := MODEL_IDENTITY_RESPONSE in
    for_each response_text (fun char => yield (FrameDelta [char]));;
    yield FrameDone;;
    user_message ← call_update_message (Message.id user_message)
                     None None None None (Some response_text);
    mret tt
  else
    history ← call_get_message_path_to_root (Message.id user_message);
    let llm_messages := build_llm_messages history in
    streamed ← relay_stream config llm_client llm_messages;
    match streamed with
    | None => mret tt
    | Some assistant_content =>
        yield FrameDone;;
        let assistant_content := strip assistant_content in
        user_message ← call_update_message (Message.id user_message)
                         None None None None (Some assistant_content);
        '(summary_text, user_message) ←
          derive_summary payload llm_client user_message;
        derive_title conversation_id payload conversation summary_text
          user_message
    end.

(** [api_conversation_llm_reply]; the streaming response is the run of
    the generator on the database the handler leaves. *)
Definition api_conversation_llm_reply (db : DB) (conversation_id : Z)
    (payload : LLMReplyRequest.t)
  : ApiResult (list Event * DB * Outcome unit) :=
  match get_conversation db conversation_id with
  | Raise exc =>
      if is_ValueError exc then HTTPException 404 (exn_str exc)
      else Unhandled exc
  | Ok conversation =>
      match get_config db with
      | None => HTTPException 400 (py "LLM 配置尚未初始化")
      | Some config =>
          match new_OpenAICompatibleLLM (Config.api_key config)
                  (Config.model_name config) (Config.base_url config)
                  (Some client_timeout) with
          | Raise exc => Unhandled exc
          | Ok llm_client =>
              let parent_message_id :=
                match LLMReplyRequest.parent_id payload with
                | Some p => Some p
                | None =>
                    Message.id
                      <$> last (get_messages_for_conversation db conversation_id)
                end in
              match create_message db conversation_id
                      (LLMReplyRequest.content payload) None None
                      parent_message_id None with
              | Raise exc => Unhandled exc
              | Ok (user_message, db') =>
                  Returned
                    (_stream_llm_reply conversation_id payload conversation
                       config llm_client user_message db')
              end
          end
      end
  end.
End App.

(** [api_create_message] *)
Definition api_create_message (db : DB) (conversation_id : Z)
    (payload : MessageCreate.t) : ApiResult MessageOut.t * DB :=
  match create_message db conversation_id (MessageCreate.content payload)
          None None None None with
  | Ok (message, db') => (Returned (MessageOut.from_model message), db')
  | Raise exc =>
      if is_ValueError exc then (HTTPException 400 (exn_str exc), db)
      else (Unhandled exc, db)
  end.

(** [api_get_message_path_to_root]; [None] when the walk never ends. *)
Definition api_get_message_path_to_root (db : DB) (message_id : Z)
  : option (ApiResult (list MessageOut.t)) :=
  match get_message_path_to_root db message_id with
  | Some path => Some (Returned (MessageOut.from_model <$> path))
  | None => None
  end.

Module ConversationOut.
Record t := mk { id : Z; title : str; created_at : str }.

(** The fields of [asdict(conversation)]. *)
Definition from_model (conversation : Conversation.t) : t :=
  mk (Conversation.id conversation) (Conversation.title conversation)
     (Conversation.created_at conversation).
End ConversationOut.

Module ConversationUpdate.
(** [title: Optional[str] = Field(default=None, max_length=255)] *)
Record t := mk { title : option str }.
End ConversationUpdate.

Module MessageUpdate.
(** [order_index: Optional[int] = Field(default=None, ge=0)] *)
Record t := mk {
  content : option str;
  order_index : option Z;
  summary : option str
}.
End MessageUpdate.

(** [except ValueError as exc: raise HTTPException(status_code, str(exc))];
    any other exception leaves the endpoint. *)
Definition http_error {A} (status : Z) (exc : exn) : ApiResult A :=
  if is_ValueError exc then HTTPException status (exn_str exc)
  else Unhandled exc.

(** [api_update_conversation] *)
Definition api_update_conversation (db : DB) (conversation_id : Z)
    (payload : ConversationUpdate.t) : ApiResult ConversationOut.t * DB :=
  match ConversationUpdate.title payload with
  | None =>
      (HTTPException 400 (py "At least one field must be provided"), db)
  | Some _ =>
      match update_conversation db conversation_id
              (ConversationUpdate.title payload) with
      | Ok (conversation, db') =>
          (Returned (ConversationOut.from_model conversation), db')
      | Raise exc => (http_error 404 exc, db)
      end
  end.

(** [api_get_messages]; [get_messages_for_conversation] raises nothing
    that the second [try] could turn into a 500. *)
Definition api_get_messages (db : DB) (conversation_id : Z)
  : ApiResult (list MessageOut.t) :=
  match get_conversation db conversation_id with
  | Raise exc => http_error 404 exc
  | Ok _ =>
      let messages := get_messages_for_conversation db conversation_id in
      Returned (MessageOut.from_model <$> messages)
  end.

(** [api_update_message] *)
Definition api_update_message (db : DB) (message_id : Z)
    (payload : MessageUpdate.t) : ApiResult MessageOut.t * DB :=
  match MessageUpdate.content payload, MessageUpdate.order_index payload,
        MessageUpdate.summary payload with
  | None, None, None =>
      (HTTPException 400 (py "At least one field must be provided"), db)
  | _, _, _ =>
      match update_message db message_id (MessageUpdate.content payload)
              (MessageUpdate.order_index payload)
              (MessageUpdate.summary payload) None None with
      | Ok (message, db') => (Returned (MessageOut.from_model message), db')
      | Raise exc => (http_error 404 exc, db)
      end
  end.

(** * Sample data

    A small database, a network and the library functions on which the
    statements below are tried. *)

Module Sample.
(** [str.lower] on text without cased letters outside ASCII. *)
Definition lower (s : str) : str :=
  (fun c => if ((65 <=? c) && (c <=? 90))%N then (c + 32)%N else c) <$> s.

Definition now : str := py "2024-05-01 10:00:00".

(** [s] between double quotes. *)
Definition quoted (s : str) : str := [34%N] ++ s ++ [34%N].

(** The JSON text of a streamed chunk whose delta has the content [s]
    (of letters only), and what [json.loads] makes of it. *)
Definition chunk_text (s : str) : str :=
  py "{" ++ quoted (py "choices") ++ py ": [{" ++ quoted (py "delta")
  ++ py ": {" ++ quoted (py "content") ++ py ": " ++ quoted s ++ py "}}]}".

Definition chunk_value (s : str) : json :=
  JObj [(py "choices",
         JArr [JObj [(py "delta", JObj [(py "content", JStr s)])]])].

Definition chunk_line (s : str) : str := py "data: " ++ chunk_text s.

(** The JSON text of a completion with the content [s]. *)
Definition completion_text (s : str) : str :=
  py "{" ++ quoted (py "choices") ++ py ": [{" ++ quoted (py "message")
  ++ py ": {" ++ quoted (py "content") ++ py ": " ++ quoted s ++ py "}}]}".

Definition completion_value (s : str) : json :=
  JObj [(py "choices",
         JArr [JObj [(py "message", JObj [(py "content", JStr s)])]])].

Definition A : str := py "A".
Definition B : str := py "B".
Definition C : str := py "C".
Definition gist : str := py "短标题".

(** [json.loads] on the documents used here; any other text of the
    samples is not JSON. *)
Definition json_loads (data : str) : option json :=
  dict_get [ (chunk_text A, chunk_value A);
             (chunk_text B, chunk_value B);
             (chunk_text C, chunk_value C);
             (completion_text gist, completion_value gist) ] data.

Definition stream_lines_ABC : list str :=
  [ chunk_line A; []; py ": keep-alive"; chunk_line B; py "data: {broken";
    chunk_line C; py "data: [DONE]"; chunk_line A ].

(** The provider streams A, B, C and answers the summary request with
    [gist]. *)
Definition network : Network :=
  mkNetwork (fun _ _ => mkStreamExchange None 200 stream_lines_ABC None)
            (fun _ _ => mkPostExchange None 200 (completion_text gist)).

(** The connection breaks after the first chunk. *)
Definition network_breaking : Network :=
  mkNetwork (fun _ _ => mkStreamExchange None 200 [chunk_line A]
                          (Some (py "peer closed connection")))
            (fun _ _ => mkPostExchange None 200 (completion_text gist)).

(** The connection cannot be made. *)
Definition network_down : Network :=
  mkNetwork (fun _ _ => mkStreamExchange (Some (py "connection refused")) 0
                          [] None)
            (fun _ _ => mkPostExchange (Some (py "connection refused")) 0 []).

(** The provider answers the streaming request with status 500. *)
Definition network_500 : Network :=
  mkNetwork (fun _ _ => mkStreamExchange None 500 [] None)
            (fun _ _ => mkPostExchange None 500 (py "overloaded")).

(** The stream is fine, the summary request is answered with status 503. *)
Definition network_no_summary : Network :=
  mkNetwork (fun _ _ => mkStreamExchange None 200 stream_lines_ABC None)
            (fun _ _ => mkPostExchange None 503 (py "overloaded")).

(** The stream is fine, the summary request is answered with status 200
    and a body that is not JSON. *)
Definition network_garbled_summary : Network :=
  mkNetwork (fun _ _ => mkStreamExchange None 200 stream_lines_ABC None)
            (fun _ _ => mkPostExchange None 200 (py "<html>busy</html>")).

Definition one : spec_float := S754_finite false 1 0.

Definition config : Config.t :=
  Config.mk 1 None None (py "gpt-3.5-turbo") one now.

Definition llm_client : OpenAICompatibleLLM :=
  mkLLM None (py "gpt-3.5-turbo") DEFAULT_API_BASE (Some client_timeout).

(** A fresh database, then with one conversation, then with a first
    message in it and then a second message under the first. *)
Definition db0 : DB := empty_db now.

Definition conversation : Conversation.t := Conversation.mk 1 (py "新对话") now.

Definition db1 : DB :=
  mkDB {[ 1 := ConversationRow.mk (py "新对话") now ]} 1 ∅ 0 None now.

Definition row1 : Row.t :=
  Row.mk 1 (py "user") (py "hello") 0 None None None now.
Definition m1 : Message.t := _row_to_message 1 row1.

Definition db2 : DB :=
  mkDB (conversations db1) 1 {[ 1 := row1 ]} 1 None now.

Definition row2 : Row.t :=
  Row.mk 1 (py "user") (py "and then?") 1 None (Some 1) None now.
Definition m2 : Message.t := _row_to_message 2 row2.

Definition db3 : DB :=
  mkDB (conversations db1) 1 (<[ 2 := row2 ]> {[ 1 := row1 ]}) 2 None now.

(** A table whose only message refers to a parent that is not stored, as
    a database made before the foreign key on [parent_id] can hold. *)
Definition row_orphan : Row.t :=
  Row.mk 1 (py "user") (py "left over") 4 None (Some 3) None now.
Definition db_orphan : DB :=
  mkDB (conversations db1) 1 {[ 5 := row_orphan ]} 5 None now.

(** A message that is its own parent. *)
Definition row_loop : Row.t :=
  Row.mk 1 (py "user") (py "hello") 0 None (Some 1) None now.
Definition db_loop : DB :=
  mkDB (conversations db1) 1 {[ 1 := row_loop ]} 1 None now.

Definition hello : LLMReplyRequest.t := LLMReplyRequest.mk (py "hello") None.
Definition who : LLMReplyRequest.t := LLMReplyRequest.mk (py "Who are YOU?") None.
End Sample.

(** * More sample data *)

Module Cases.
Import Sample.

(** The second database of the samples with a configuration. *)
Definition config_row : ConfigRow.t :=
  ConfigRow.mk None None (py "gpt-3.5-turbo") one now.

Definition db_ready : DB :=
  mkDB (conversations db3) 1 (messages db3) 2 (Some config_row) now.

(** The third database of the samples after [delete_message] of its
    first message, and of its second. *)
Definition db3_emptied : DB := mkDB (conversations db1) 1 ∅ 2 None now.

Definition db3_cut : DB :=
  mkDB (conversations db1) 1 {[ 1 := row1 ]} 2 None now.

(** Two conversations; the second holds a reply to the message of the
    first and a message of its own. *)
Definition row_across : Row.t :=
  Row.mk 2 (py "user") (py "elsewhere") 0 None (Some 1) None now.
Definition row_apart : Row.t :=
  Row.mk 2 (py "user") (py "apart") 1 None None None now.

Definition db_two : DB :=
  mkDB (<[ 2 := ConversationRow.mk (py "other") now ]> (conversations db1)) 2
       (<[ 3 := row_apart ]> (<[ 2 := row_across ]> {[ 1 := row1 ]})) 3
       None now.

Definition db_two_left : DB :=
  mkDB {[ 2 := ConversationRow.mk (py "other") now ]} 2 {[ 3 := row_apart ]} 3
       None now.

(** A message without content, as [POST /conversations/1/messages] with
    [{"content": ""}] stores it, and a message under it. *)
Definition row_blank : Row.t := Row.mk 1 (py "user") [] 0 None None None now.
Definition row_under_blank : Row.t :=
  Row.mk 1 (py "user") (py "hello") 1 None (Some 1) None now.

Definition db_blank : DB :=
  mkDB (conversations db1) 1 (<[ 2 := row_under_blank ]> {[ 1 := row_blank ]}) 2
       None now.

(** A thread of [n] messages in conversation 1: message 1 is the root and
    message [i + 1] is the reply to message [i]. *)
Definition thread_row (i : nat) : Z * Row.t :=
  (Z.of_nat i,
   Row.mk 1 (py "user") (py "more") (Z.of_nat i - 1) None
     (if decide (i = 1%nat) then None else Some (Z.of_nat i - 1)) None now).

Definition thread (n : nat) : DB :=
  mkDB (conversations db1) 1 (list_to_map (thread_row <$> seq 1 n))
       (Z.of_nat n) None now.

(** The ids of the messages below the root of a thread. *)
Definition replies (n : nat) : list Z := Z.of_nat <$> seq 2 (n - 1).

(** A provider that sends, between two chunks of text, a chunk whose
    content is a number. *)
Definition number_text : str :=
  py "{" ++ quoted (py "choices") ++ py ": [{" ++ quoted (py "delta")
  ++ py ": {" ++ quoted (py "content") ++ py ": 5}}]}".

Definition number_value : json :=
  JObj [(py "choices",
         JArr [JObj [(py "delta", JObj [(py "content", JInt 5)])]])].

Definition json_loads_number (data : str) : option json :=
  dict_get [ (chunk_text A, chunk_value A); (number_text, number_value);
             (chunk_text B, chunk_value B) ] data.

Definition network_number : Network :=
  mkNetwork (fun _ _ => mkStreamExchange None 200
                          [ chunk_line A; py "data: " ++ number_text;
                            chunk_line B ] None)
            (fun _ _ => mkPostExchange None 200 (completion_text gist)).

(** The sample thread after its second message is deleted and a message
    is made in its place. *)
Definition row_again : Row.t :=
  Row.mk 1 (py "user") (py "again") 1 None (Some 1) None now.

Definition db3_again : DB :=
  mkDB (conversations db1) 1 (<[ 3 := row_again ]> {[ 1 := row1 ]}) 3 None now.

(** The sample thread with the content of its second message changed. *)
Definition row2_changed : Row.t :=
  Row.mk 1 (py "user") (py "changed") 1 None (Some 1) None now.

Definition db3_changed : DB :=
  mkDB (conversations db1) 1 (<[ 2 := row2_changed ]> {[ 1 := row1 ]}) 2 None
       now.

(** A reply is asked for in the database with a configuration. *)
Definition row3 : Row.t :=
  Row.mk 1 (py "user") (py "hello") 2 None (Some 2) None now.

Definition db_asked : DB :=
  mkDB (conversations db3) 1 (<[ 3 := row3 ]> (messages db3)) 3
       (Some config_row) now.

(** A reply is asked for under the id the new message is about to get. *)
Definition under_itself : LLMReplyRequest.t :=
  LLMReplyRequest.mk (py "hello") (Some 3).

Definition row_itself : Row.t :=
  Row.mk 1 (py "user") (py "hello") 2 None (Some 3) None now.

Definition db_itself : DB :=
  mkDB (conversations db3) 1 (<[ 3 := row_itself ]> (messages db3)) 3
       (Some config_row) now.

(** The sample database with the title of its conversation changed. *)
Definition db3_titled : DB :=
  mkDB {[ 1 := ConversationRow.mk (py "renamed") now ]} 1 (messages db3) 2
       None now.

(** The request body of the summary of ["hello"] as [complete] sends it. *)
Definition summary_payload : ChatPayload :=
  mkPayload (py "gpt-3.5-turbo")
    [ ChatMessage.mk (py "system") SUMMARY_SYSTEM_PROMPT;
      ChatMessage.mk (py "user") (py "hello") ]
    summary_temperature false.
End Cases.

(** * The vocabulary of the statements *)

(** A batch of [createMessage(conversationId, content, parentId?)] requests,
    served one after the other; the messages created come back in the order
    of creation. A request that raises creates nothing. *)
Fixpoint create_messages (db : DB) (requests : list (Z * str * option Z))
  : list Message.t * DB :=
  match requests with
  | [] => ([], db)
  | (conversation_id, content, parent_id) :: requests' =>
      match create_message db conversation_id content None None parent_id None with
      | Ok (message, db') =>
          let '(created, db'') := create_messages db' requests' in
          (message :: created, db'')
      | Raise _ => create_messages db requests'
      end
  end.

(** The [order_index] values a batch gives out in one conversation. *)
Definition assigned (c : Z) (created : list Message.t) : list Z :=
  Message.order_index
    <$> filter (fun m => Message.conversation_id m = c) created.

(** [mx] is the largest [order_index] among the messages of conversation
    [c]. *)
Definition max_order_index (db : DB) (c mx : Z) : Prop :=
  (∃ id row, messages db !! id = Some row ∧ Row.conversation_id row = c
             ∧ Row.order_index row = mx)
  ∧ ∀ id row, messages db !! id = Some row → Row.conversation_id row = c →
              Row.order_index row ≤ mx.

(** Conversation [c] has no message. *)
Definition no_messages (db : DB) (c : Z) : Prop :=
  ∀ id row, messages db !! id = Some row → Row.conversation_id row ≠ c.

(** There is room for [n] more messages in conversation [c]: the row ids
    and the [order_index] values they get are integers SQLite stores (an
    [INSERT] past the largest row id fails with "database or disk is
    full", an [order_index] past the largest integer cannot be bound). *)
Definition room (db : DB) (c : Z) (n : nat) : Prop :=
  autoincrement (messages db) (messages_seq db) + Z.of_nat n ≤ 2 ^ 63
  ∧ _next_order_index db c + Z.of_nat n ≤ 2 ^ 63.

(** A request of a batch that [create_message] serves in conversation
    [c]: it is addressed to [c], its text can be stored, and it names no
    parent or one that is stored. *)
Definition served (db : DB) (c : Z) (request : Z * str * option Z) : Prop :=
  request.1.1 = c
  ∧ encodable request.1.2 = true
  ∧ ∀ p, request.2 = Some p → is_Some (messages db !! p).

(** A request of a batch whose values can be bound. *)
Definition bindable (request : Z * str * option Z) : Prop :=
  int64 request.1.1
  ∧ encodable request.1.2 = true
  ∧ ∀ p, request.2 = Some p → int64 p.

(** A text that is absent or can be stored. *)
Definition encodable_opt (s : option str) : bool :=
  from_option encodable true s.

(** The unique index on [(conversation_id, order_index)]. *)
Definition unique_order_index (db : DB) : Prop :=
  ∀ i j r1 r2, messages db !! i = Some r1 → messages db !! j = Some r2 →
    Row.conversation_id r1 = Row.conversation_id r2 →
    Row.order_index r1 = Row.order_index r2 → i = j.

(** The foreign key on [parent_id]. *)
Definition parents_stored (db : DB) : Prop :=
  ∀ i r p, messages db !! i = Some r → Row.parent_id r = Some p →
    is_Some (messages db !! p).

(** The foreign key on [conversation_id]. *)
Definition conversations_stored (db : DB) : Prop :=
  ∀ i r, messages db !! i = Some r →
    is_Some (conversations db !! Row.conversation_id r).

Record db_wf (db : DB) : Prop := mk_db_wf {
  wf_unique : unique_order_index db;
  wf_parents : parents_stored db;
  wf_conversations : conversations_stored db
}.

(** No field is given. *)
Definition no_field (content : option str) (order_index : option Z)
    (summary : option str) (parent_id : option Z) (assistant_reply : option str)
  : bool :=
  bool_decide (content = None ∧ order_index = None ∧ summary = None
               ∧ parent_id = None ∧ assistant_reply = None).

(** Every field given is the one stored in [row]. *)
Definition current (row : Row.t) (content : option str) (order_index : option Z)
    (summary : option str) (parent_id : option Z) (assistant_reply : option str)
  : Prop :=
  (∀ v, content = Some v → Row.content row = v)
  ∧ (∀ v, order_index = Some v → Row.order_index row = v)
  ∧ (∀ v, summary = Some v → Row.summary row = Some v)
  ∧ (∀ v, parent_id = Some v → Row.parent_id row = Some v)
  ∧ (∀ v, assistant_reply = Some v → Row.assistant_reply row = Some v).

(** [b] is the stored parent reference of the stored message [a]. *)
Definition parent_of (db : DB) (a b : Z) : Prop :=
  ∃ row, messages db !! a = Some row ∧ Row.parent_id row = Some b.

(** The invariant of the data model: no message is its own ancestor. *)
Definition acyclic (db : DB) : Prop := ∀ a, ¬ tc (parent_of db) a a.

(** The parent references followed from the message [id] come back to a
    message they have passed. *)
Definition loops (db : DB) (id : Z) : Prop :=
  ∃ a, rtc (parent_of db) id a ∧ tc (parent_of db) a a.

(** The messages met when the [parent_id] links are followed from
    [current_id], nearest first, up to a root or to a reference that names
    no stored message. *)
Fixpoint up_chain (db : DB) (current_id : option Z) (l : list Message.t) : Prop :=
  match l with
  | [] =>
      match current_id with
      | None => True
      | Some id => messages db !! id = None
      end
  | m :: l' =>
      ∃ id, current_id = Some id ∧ get_message db id = Ok m
            ∧ up_chain db (Message.parent_id m) l'
  end.

(** Every stored parent reference points to a smaller id: so it is in a
    store filled by [create_message] with parents that exist. *)
Definition parents_below (db : DB) : bool :=
  forallb (fun kv : Z * Row.t =>
             match Row.parent_id kv.2 with
             | Some p => p <? kv.1
             | None => true
             end)
          (map_to_list (messages db)).

(** A line carries data when it starts with [data:]. *)
Definition data_line (line : str) : bool := startswith line (py "data:").

(** The lines before the sentinel, or all of them without one, when none
    makes [_iter_sse] fail. *)
Definition readable (json_loads : str -> option json) (line : str) : Prop :=
  match sse_line json_loads line with
  | Skip | Emit _ => True
  | Stop | Fail _ => False
  end.

Definition piece_of (json_loads : str -> option json) (line : str)
  : option json :=
  match sse_line json_loads line with
  | Emit piece => Some piece
  | _ => None
  end.

Definition events_of {A} (r : list Event * DB * Outcome A) : list Event := r.1.1.

Definition db_of {A} (r : list Event * DB * Outcome A) : DB := r.1.2.

Definition outcome_of {A} (r : list Event * DB * Outcome A) : Outcome A := r.2.

(** The database with one row of [messages] replaced. *)
Definition with_message (db : DB) (id : Z) (row : Row.t) : DB :=
  mkDB (conversations db) (conversations_seq db) (<[id := row]> (messages db))
       (messages_seq db) (configs db) (CURRENT_TIMESTAMP db).

Definition set_reply (row : Row.t) (reply : str) : Row.t :=
  set_fields row None None None None (Some reply).

Definition set_summary (row : Row.t) (summary : str) : Row.t :=
  set_fields row None None (Some summary) None None.

Definition with_title (db : DB) (id : Z) (title : str) : DB :=
  mkDB (alter (fun row => ConversationRow.mk title (ConversationRow.created_at row))
              id (conversations db))
       (conversations_seq db) (messages db) (messages_seq db) (configs db)
       (CURRENT_TIMESTAMP db).

Definition placeholder_title (conversation : Conversation.t) : bool :=
  bool_decide (Conversation.title conversation ∈ [py "新对话"; []]).

(** The run of the steps after the reply is stored, for the message with
    key [id] and columns [row]. *)
Definition after_reply (json_loads : str -> option json) (network : Network)
    (conversation_id : Z) (payload : LLMReplyRequest.t)
    (conversation : Conversation.t) (llm_client : OpenAICompatibleLLM)
    (id : Z) (row : Row.t) (db : DB) : list Event * DB * Outcome unit :=
  ('(summary_text, user_message) ←
     derive_summary json_loads network payload llm_client
       (_row_to_message id row);
   derive_title conversation_id payload conversation summary_text
     user_message) db.

(** The events of the upstream branch up to the storing of the reply. *)
Definition reply_events (config : Config.t) (user_message : Message.t)
    (history : list Message.t) (fragments : list str) : list Event :=
  [ Yield (FrameMessageId (Message.id user_message));
    CallStream (build_llm_messages history) (Config.temperature config) ]
  ++ ((fun d => Yield (FrameDelta d)) <$> fragments)
  ++ [ Yield FrameDone;
       CallUpdateMessage (Message.id user_message) None None None None
         (Some (strip (concat fragments))) ].

(** The title is set from [candidate], cut to 255 characters, when the
    title is still a placeholder, the message is the first of the
    conversation and [candidate] is not empty; otherwise it is left. *)
Definition updates_title (conversation : Conversation.t)
    (user_message : Message.t) (candidate : str) : bool :=
  placeholder_title conversation
  && bool_decide (Message.order_index user_message = 0)
  && nonempty candidate.

Definition title_events (conversation_id : Z) (conversation : Conversation.t)
    (user_message : Message.t) (candidate : str) : list Event :=
  if updates_title conversation user_message candidate
  then [CallUpdateConversation conversation_id (Some (take 255 candidate))]
  else [].

Definition retitled (db : DB) (conversation_id : Z)
    (conversation : Conversation.t) (user_message : Message.t)
    (candidate : str) : DB :=
  if updates_title conversation user_message candidate
  then with_title db conversation_id (take 255 candidate)
  else db.

Definition title_row (conversation : Conversation.t)
    (user_message : Message.t) (candidate : str) (row : ConversationRow.t)
  : ConversationRow.t :=
  if updates_title conversation user_message candidate
  then ConversationRow.mk (take 255 candidate) (ConversationRow.created_at row)
  else row.

(** Three requests for a first message of conversation 1. *)
Definition root_requests : list (Z * str * option Z) :=
  [ (1, py "first", None); (1, py "second", None); (1, py "third", None) ].

Definition sample_requests : list (Z * str * option Z) :=
  [ (1, py "first", None); (2, py "no such conversation", None);
    (1, py "second", Some 1); (1, py "bad parent", Some 9);
    (1, py "third", None) ].

(** [p] is the stored parent reference of the row [x] of the table. *)
Definition parent_in (table : gmap Z Row.t) (x p : Z) : Prop :=
  ∃ row, table !! x = Some row ∧ Row.parent_id row = Some p.

(** [x] is [id] or one of the messages below it in the tree. *)
Definition under (db : DB) (x id : Z) : Prop := rtc (parent_of db) x id.

(** [x] is a message of the conversation or below one. *)
Definition under_conversation (db : DB) (x conversation_id : Z) : Prop :=
  ∃ y row, messages db !! y = Some row
           ∧ Row.conversation_id row = conversation_id ∧ under db x y.

(** [chain] lists messages of which the first has the parent [p] and each
    of the others the one before it. *)
Fixpoint descends (table : gmap Z Row.t) (p : Z) (chain : list Z) : Prop :=
  match chain with
  | [] => True
  | c :: chain' => parent_in table c p ∧ descends table c chain'
  end.

(** Every row id in use was given out by the sequence. *)
Definition ids_issued (db : DB) : Prop :=
  ∀ x, is_Some (messages db !! x) → x ≤ messages_seq db.

(** The words of the four patterns of [is_model_related_question] that
    are a word followed by [.*]. *)
Definition judgment_words : list str :=
  [ py "是不是"; py "是否"; py "能否"; py "会不会" ].

(** Two rows of [messages] that differ at most in the reply and the
    summary. *)
Definition same_message (row' row : Row.t) : Prop :=
  Row.conversation_id row' = Row.conversation_id row
  ∧ Row.role row' = Row.role row
  ∧ Row.content row' = Row.content row
  ∧ Row.order_index row' = Row.order_index row
  ∧ Row.parent_id row' = Row.parent_id row
  ∧ Row.created_at row' = Row.created_at row.

(** [db'] is [db] but for the reply and the summary of the message [id]
    and the title of the conversation [c]. *)
Record reply_frame (id c : Z) (db db' : DB) : Prop := mk_reply_frame {
  frame_conversations_seq : conversations_seq db' = conversations_seq db;
  frame_messages_seq : messages_seq db' = messages_seq db;
  frame_configs : configs db' = configs db;
  frame_clock : CURRENT_TIMESTAMP db' = CURRENT_TIMESTAMP db;
  frame_messages : ∀ x, x ≠ id → messages db' !! x = messages db !! x;
  frame_message :
    option_Forall2 same_message (messages db' !! id) (messages db !! id);
  frame_conversations :
    ∀ x, x ≠ c → conversations db' !! x = conversations db !! x;
  frame_conversation :
    option_Forall2
      (fun row' row => ConversationRow.created_at row' = ConversationRow.created_at row)
      (conversations db' !! c) (conversations db !! c)
}.

(** A step of the reply generator that stays within [reply_frame] and
    whose result, when it has one, satisfies [Q]. *)
Definition confined (id c : Z) {A} (m : M A) (Q : A → Prop) : Prop :=
  ∀ db, reply_frame id c db (db_of (m db))
        ∧ ∀ a, outcome_of (m db) = Done a → Q a.

(** [descends] as a test. *)
Fixpoint descendsb (table : gmap Z Row.t) (p : Z) (chain : list Z) : bool :=
  match chain with
  | [] => true
  | c :: chain' =>
      match table !! c with
      | Some row =>
          bool_decide (Row.parent_id row = Some p) && descendsb table c chain'
      | None => false
      end
  end.

(** * Properties of the message tree store *)

(** ** [MAX] and AUTOINCREMENT *)

Lemma foldr_max_spec (x : Z) (l : list Z) :
  foldr Z.max x l ∈ x :: l ∧ ∀ y, y ∈ x :: l → y ≤ foldr Z.max x l.
Proof.
  induction l as [|a l [Hin Hle]]; simpl.
  - split; [left|]. intros y ->%list_elem_of_singleton. lia.
  - split.
    + destruct (Z.max_spec a (foldr Z.max x l)) as [[_ ->]|[_ ->]].
      * apply elem_of_cons in Hin as [->|Hin]; [left|do 2 right; done].
      * right; left.
    + intros y Hy. apply elem_of_cons in Hy as [->|Hy].
      * pose proof (Hle x (list_elem_of_here _ _)). lia.
      * apply elem_of_cons in Hy as [->|Hy]; [lia|].
        pose proof (Hle y (list_elem_of_further _ _ _ Hy)). lia.
Qed.

Lemma sql_max_Some (l : list Z) (m : Z) :
  sql_max l = Some m ↔ m ∈ l ∧ ∀ y, y ∈ l → y ≤ m.
Proof.
  destruct l as [|x l]; simpl.
  - split; [done|]. intros [H%elem_of_nil _]. done.
  - destruct (foldr_max_spec x l) as [Hin Hle]. split.
    + intros [= <-]. done.
    + intros [Hm Hub]. f_equal.
      pose proof (Hub _ Hin). pose proof (Hle _ Hm). lia.
Qed.

Lemma sql_max_None (l : list Z) : sql_max l = None ↔ l = [].
Proof. destruct l; simpl; split; congruence. Qed.

Lemma sql_max_Permutation (l l' : list Z) : l ≡ₚ l' → sql_max l = sql_max l'.
Proof.
  intros Hp. destruct (sql_max l) as [m|] eqn:Hl.
  - symmetry. apply sql_max_Some. apply sql_max_Some in Hl as [Hin Hle].
    split; [by rewrite <- Hp|]. intros y Hy. apply Hle. by rewrite Hp.
  - apply sql_max_None in Hl. subst. apply Permutation_nil_l in Hp. by subst.
Qed.

Lemma sql_max_cons (x : Z) (l : list Z) :
  sql_max (x :: l) = Some (match sql_max l with Some m => Z.max x m | None => x end).
Proof.
  apply sql_max_Some. destruct (sql_max l) as [m|] eqn:Hl.
  - apply sql_max_Some in Hl as [Hin Hle]. split.
    + destruct (Z.max_spec x m) as [[_ ->]|[_ ->]]; [by right|left].
    + intros y [->|Hy]%elem_of_cons; [lia|]. specialize (Hle _ Hy). lia.
  - apply sql_max_None in Hl. subst. split; [left|].
    intros y ->%list_elem_of_singleton. lia.
Qed.

Lemma autoincrement_above {A} (table : gmap Z A) (seq id : Z) :
  is_Some (table !! id) → id < autoincrement table seq.
Proof.
  intros [row Hrow]. unfold autoincrement, COALESCE.
  assert (id ∈ rowids table) as Hin.
  { unfold rowids. apply list_elem_of_fmap. exists (id, row). split; [done|].
    by apply elem_of_map_to_list. }
  destruct (sql_max (rowids table)) as [m|] eqn:Hm; simpl.
  - apply sql_max_Some in Hm as [_ Hle]. specialize (Hle _ Hin). lia.
  - apply sql_max_None in Hm. rewrite Hm in Hin. by apply elem_of_nil in Hin.
Qed.

Lemma autoincrement_fresh {A} (table : gmap Z A) (seq : Z) :
  table !! autoincrement table seq = None.
Proof.
  destruct (table !! autoincrement table seq) eqn:H; [|done].
  pose proof (autoincrement_above table seq _ (mk_is_Some _ _ H)). lia.
Qed.

(** ** [create_message] *)

Lemma elem_of_messages_of (db : DB) (c id : Z) (row : Row.t) :
  (id, row) ∈ messages_of db c ↔
  messages db !! id = Some row ∧ Row.conversation_id row = c.
Proof.
  unfold messages_of. rewrite list_elem_of_filter, elem_of_map_to_list.
  simpl. tauto.
Qed.

Lemma next_order_index_above (db : DB) (c id : Z) (row : Row.t) :
  messages db !! id = Some row → Row.conversation_id row = c →
  Row.order_index row < _next_order_index db c.
Proof.
  intros Hrow Hc. unfold _next_order_index, COALESCE.
  assert (Row.order_index row ∈
            (fun kv : Z * Row.t => Row.order_index kv.2) <$> messages_of db c) as Hin.
  { apply list_elem_of_fmap. exists (id, row). split; [done|].
    by apply elem_of_messages_of. }
  destruct (sql_max _) as [m|] eqn:Hm; simpl.
  - apply sql_max_Some in Hm as [_ Hle]. specialize (Hle _ Hin). lia.
  - apply sql_max_None in Hm. rewrite Hm in Hin. by apply elem_of_nil in Hin.
Qed.

Lemma order_taken_false (db : DB) (self c o : Z) :
  order_taken db self c o = false ↔
  ∀ id row, messages db !! id = Some row → id ≠ self →
            Row.conversation_id row = c → Row.order_index row ≠ o.
Proof.
  unfold order_taken. rewrite bool_decide_eq_false, Exists_exists. split.
  - intros Hno id row Hrow Hid Hc Ho. apply Hno. exists (id, row).
    rewrite elem_of_map_to_list. done.
  - intros Hall ([id row] & Hin%elem_of_map_to_list & Hid & Hc & Ho).
    by eapply Hall.
Qed.

Lemma next_order_index_free (db : DB) (self c : Z) :
  order_taken db self c (_next_order_index db c) = false.
Proof.
  apply order_taken_false. intros id row Hrow _ Hc.
  pose proof (next_order_index_above db c id row Hrow Hc). lia.
Qed.

(** What a successful [create_message] has done. *)
Lemma create_message_Ok (db db' : DB) (c : Z) (content : str)
    (order_index : option Z) (summary : option str) (parent : option Z)
    (reply : option str) (m : Message.t) :
  create_message db c content order_index summary parent reply = Ok (m, db') →
  let id := autoincrement (messages db) (messages_seq db) in
  let o := default (_next_order_index db c) order_index in
  let row := Row.mk c (py "user") content o summary parent reply
               (CURRENT_TIMESTAMP db) in
  m = _row_to_message id row
  ∧ db' = mkDB (conversations db) (conversations_seq db)
               (<[id := row]> (messages db)) id (configs db)
               (CURRENT_TIMESTAMP db)
  ∧ is_Some (conversations db !! c)
  ∧ order_taken db id c o = false
  ∧ parent_ok (<[id := row]> (messages db)) parent = true.
Proof.
  unfold create_message, insert_message. intros H.
  replace (match order_index with
           | Some o => o
           | None => _next_order_index db c
           end) with (default (_next_order_index db c) order_index) in H
    by (by destruct order_index).
  cbn [Row.role Row.conversation_id Row.order_index Row.parent_id] in H.
  replace (role_ok (py "user")) with true in H by (by vm_compute).
  cbn [negb] in H.
  destruct (order_taken db _ c _) eqn:Htaken; [done|].
  destruct (bool_decide (is_Some (conversations db !! c))) eqn:Hconv; [|done].
  destruct (parent_ok _ parent) eqn:Hparent; [|done].
  cbn in H. unfold get_message in H. cbn [messages] in H.
  rewrite lookup_insert_eq in H. injection H as Hm Hdb. subst m db'.
  apply bool_decide_eq_true in Hconv. done.
Qed.

(** When [create_message] succeeds with the index left to the store. *)
Lemma create_message_succeeds (db : DB) (c : Z) (content : str)
    (summary : option str) (parent : option Z) (reply : option str) :
  is_Some (conversations db !! c) →
  (∀ p, parent = Some p →
        is_Some (messages db !! p)
        ∨ p = autoincrement (messages db) (messages_seq db)) →
  ∃ m db', create_message db c content None summary parent reply = Ok (m, db').
Proof.
  intros Hconv Hparent. unfold create_message, insert_message.
  cbn [Row.role Row.conversation_id Row.order_index Row.parent_id].
  replace (role_ok (py "user")) with true by (by vm_compute). cbn [negb].
  rewrite next_order_index_free.
  rewrite (bool_decide_eq_true_2 _ Hconv). cbn [andb].
  assert (parent_ok
            (<[autoincrement (messages db) (messages_seq db) :=
                 Row.mk c (py "user") content (_next_order_index db c) summary
                   parent reply (CURRENT_TIMESTAMP db)]> (messages db))
            parent = true) as ->.
  { destruct parent as [p|]; [|done]. simpl. apply bool_decide_eq_true.
    destruct (Hparent p eq_refl) as [[r Hr]| ->].
    - rewrite lookup_insert. case_decide; eauto.
    - rewrite lookup_insert_eq. eauto. }
  cbn. unfold get_message. cbn [messages]. rewrite lookup_insert_eq. eauto.
Qed.

Lemma messages_of_insert (db db' : DB) (c id : Z) (row : Row.t) :
  messages db !! id = None →
  messages db' = <[id := row]> (messages db) →
  messages_of db' c ≡ₚ
    (if decide (Row.conversation_id row = c) then [(id, row)] else [])
    ++ messages_of db c.
Proof.
  intros Hfresh Hdb'. unfold messages_of. rewrite Hdb'.
  rewrite (map_to_list_insert _ _ _ Hfresh), filter_cons. simpl.
  destruct (decide (Row.conversation_id row = c)); done.
Qed.

Lemma create_message_next_same (db db' : DB) (c : Z) (content : str)
    (summary : option str) (parent : option Z) (reply : option str)
    (m : Message.t) :
  create_message db c content None summary parent reply = Ok (m, db') →
  Message.conversation_id m = c
  ∧ Message.order_index m = _next_order_index db c
  ∧ _next_order_index db' c = _next_order_index db c + 1.
Proof.
  intros (-> & Hdb' & _)%create_message_Ok. split; [done|]. split; [done|].
  unfold _next_order_index at 1.
  rewrite (sql_max_Permutation _ _
             (fmap_Permutation _ _ _
                (messages_of_insert db db' c _ _ (autoincrement_fresh _ _)
                   ltac:(by rewrite Hdb')))).
  cbn [Row.conversation_id]. rewrite decide_True by done.
  cbn [app fmap list_fmap snd Row.order_index default].
  rewrite sql_max_cons. unfold _next_order_index, COALESCE.
  destruct (sql_max _); simpl; lia.
Qed.

Lemma create_message_next_other (db db' : DB) (c c' : Z) (content : str)
    (order_index : option Z) (summary : option str) (parent : option Z)
    (reply : option str) (m : Message.t) :
  create_message db c' content order_index summary parent reply = Ok (m, db') →
  c' ≠ c →
  _next_order_index db' c = _next_order_index db c.
Proof.
  intros (-> & Hdb' & _)%create_message_Ok Hne.
  unfold _next_order_index.
  rewrite (sql_max_Permutation _ _
             (fmap_Permutation _ _ _
                (messages_of_insert db db' c _ _ (autoincrement_fresh _ _)
                   ltac:(by rewrite Hdb')))).
  cbn [Row.conversation_id]. rewrite decide_False by done. done.
Qed.

Lemma create_messages_assigned (c : Z) (requests : list (Z * str * option Z))
    (db : DB) :
  assigned c (create_messages db requests).1 =
  (fun i => _next_order_index db c + Z.of_nat i)
    <$> seq 0 (length (assigned c (create_messages db requests).1)).
Proof.
  revert db. induction requests as [|[[c' content] parent] requests IH];
    intros db; [done|].
  cbn [create_messages].
  destruct (create_message db c' content None None parent None)
    as [[m db']|e] eqn:Hcreate; [|apply IH].
  specialize (IH db').
  destruct (create_messages db' requests) as [created db''] eqn:Hrest.
  cbn [fst] in *. unfold assigned in *. rewrite filter_cons.
  destruct (decide (c' = c)) as [->|Hne].
  - apply create_message_next_same in Hcreate as (Hc & Ho & Hnext).
    rewrite decide_True by done. cbn [fmap list_fmap length seq].
    rewrite Ho, Z.add_0_r. f_equal.
    rewrite IH at 1. rewrite <- fmap_S_seq, <- list_fmap_compose.
    apply list_fmap_ext. intros _ i _. simpl. rewrite Hnext. lia.
  - pose proof Hcreate as (-> & _)%create_message_Ok.
    rewrite decide_False by done.
    rewrite IH at 1.
    by rewrite (create_message_next_other _ _ _ _ _ _ _ _ _ _ Hcreate Hne).
Qed.

Lemma next_order_index_max (db : DB) (c mx : Z) :
  max_order_index db c mx → _next_order_index db c = mx + 1.
Proof.
  intros [(id & row & Hrow & Hc & Ho) Hle]. unfold _next_order_index.
  assert (sql_max ((fun kv : Z * Row.t => Row.order_index kv.2)
                     <$> messages_of db c) = Some mx) as ->; [|done].
  apply sql_max_Some. split.
  - apply list_elem_of_fmap. exists (id, row). split; [done|].
    by apply elem_of_messages_of.
  - intros y ([id' row'] & -> & [Hrow' Hc']%elem_of_messages_of)%list_elem_of_fmap.
    simpl. by eapply Hle.
Qed.

Lemma next_order_index_empty (db : DB) (c : Z) :
  no_messages db c → _next_order_index db c = 0.
Proof.
  intros Hno. unfold _next_order_index.
  assert (messages_of db c = []) as ->; [|done].
  apply elem_of_nil_inv. intros [id row] [Hrow Hc]%elem_of_messages_of.
  by eapply Hno.
Qed.

(** A batch of requests served in an existing conversation creates one
    message for each. *)
Lemma create_messages_served (c : Z) (requests : list (Z * str * option Z))
    (db : DB) :
  is_Some (conversations db !! c) →
  Forall (served db c) requests →
  length (create_messages db requests).1 = length requests
  ∧ length (assigned c (create_messages db requests).1) = length requests.
Proof.
  revert db. induction requests as [|[[c' content] parent] requests IH];
    intros db Hconv Hserved; [done|].
  apply Forall_cons in Hserved as [(Hc & _ & Hparent) Hserved].
  cbn [fst snd] in Hc, Hparent. subst c'.
  cbn [create_messages].
  destruct (create_message_succeeds db c content None parent None Hconv)
    as (m & db' & Hcreate); [intros p Hp; left; by apply Hparent|].
  rewrite Hcreate.
  pose proof Hcreate as (Hm & Hdb' & _)%create_message_Ok.
  destruct (IH db') as [Hall Hc].
  { by rewrite Hdb'. }
  { eapply Forall_impl; [exact Hserved|].
    intros request (? & ? & Hp). split; [done|]. split; [done|].
    intros p [row Hrow]%Hp. rewrite Hdb'. cbn [messages].
    rewrite lookup_insert. case_decide; eauto. }
  destruct (create_messages db' requests) as [created db''].
  cbn [fst] in *. unfold assigned in *. rewrite filter_cons.
  rewrite decide_True by (by rewrite Hm).
  cbn [length fmap list_fmap]. by rewrite Hall, Hc.
Qed.

(** C5. [create_message] gives the new message the [order_index] one above
    the largest of its conversation, and 0 in a conversation without
    messages, and it does so whenever the conversation exists, the parent
    named is stored and there is room for one more message. So the
    indexes given out, in order of creation, to a conversation filled by
    [create_message] alone are 0, 1, 2, ...: those of any batch of
    requests are 0, 1, ... without a gap, and when every request of the
    batch is one [create_message] serves, each gets its index. *)
Theorem create_message_order_index (db : DB) (c : Z) (content : str)
    (summary : option str) (parent : option Z) (reply : option str)
    (requests : list (Z * str * option Z)) :
  is_Some (conversations db !! c) →
  (∀ m db',
     create_message db c content None summary parent reply = Ok (m, db') →
     (∀ mx, max_order_index db c mx → Message.order_index m = mx + 1)
     ∧ (no_messages db c → Message.order_index m = 0))
  ∧ ((∀ p, parent = Some p → is_Some (messages db !! p)) →
     encodable content && encodable_opt summary && encodable_opt reply = true →
     room db c 1 →
     ∃ m db', create_message db c content None summary parent reply = Ok (m, db'))
  ∧ (no_messages db c → Forall bindable requests →
     (∀ c', room db c' (length requests)) →
     assigned c (create_messages db requests).1
     = Z.of_nat <$> seq 0 (length (assigned c (create_messages db requests).1)))
  ∧ (no_messages db c → Forall (served db c) requests →
     room db c (length requests) →
     length (create_messages db requests).1 = length requests
     ∧ assigned c (create_messages db requests).1
       = Z.of_nat <$> seq 0 (length requests)).
Proof.
  intros Hconv.
  assert (no_messages db c →
          assigned c (create_messages db requests).1
          = Z.of_nat
              <$> seq 0 (length (assigned c (create_messages db requests).1)))
    as Hbatch.
  { intros Hno. rewrite create_messages_assigned at 1.
    apply list_fmap_ext. intros _ i _.
    rewrite next_order_index_empty by done. lia. }
  split_and!.
  - intros m db' (_ & Ho & _)%create_message_next_same. split.
    + intros mx Hmx. by rewrite Ho, (next_order_index_max _ _ _ Hmx).
    + intros Hno. by rewrite Ho, next_order_index_empty.
  - intros Hparent _ _. apply create_message_succeeds; [done|].
    intros p Hp. left. by apply Hparent.
  - intros Hno _ _. by apply Hbatch.
  - intros Hno Hserved _.
    destruct (create_messages_served c requests db Hconv Hserved) as [Hall Hc].
    split; [done|]. rewrite (Hbatch Hno). by rewrite Hc.
Qed.

(** ** A conversation that does not exist *)

Lemma create_message_no_conversation (db : DB) (c : Z) (content : str)
    (order_index : option Z) (summary : option str) (parent : option Z)
    (reply : option str) :
  conversations db !! c = None →
  ∃ msg, create_message db c content order_index summary parent reply
         = Raise (IntegrityError msg).
Proof.
  intros Hnone. unfold create_message, insert_message.
  cbn [Row.role Row.conversation_id Row.order_index Row.parent_id].
  replace (role_ok (py "user")) with true by (by vm_compute). cbn [negb].
  destruct (order_taken db _ c _); [by eexists|].
  rewrite Hnone, bool_decide_eq_false_2 by (by intros [? ?]).
  by eexists.
Qed.

(** C8. For a conversation id that names no conversation [create_message]
    raises [sqlite3.IntegrityError], which is not a [ValueError]: the
    [except ValueError] of [api_create_message] does not apply, and the
    request ends in an unhandled exception. No message is created. *)
Theorem create_message_missing_conversation (db : DB) (c : Z) (content : str) :
  conversations db !! c = None →
  ∃ msg,
    create_message db c content None None None None = Raise (IntegrityError msg)
    ∧ is_ValueError (IntegrityError msg) = false
    ∧ api_create_message db c (MessageCreate.mk content)
      = (Unhandled (IntegrityError msg), db).
Proof.
  intros Hnone.
  destruct (create_message_no_conversation db c content None None None None Hnone)
    as [msg Hmsg].
  exists msg. split; [done|]. split; [done|].
  unfold api_create_message. cbn [MessageCreate.content]. by rewrite Hmsg.
Qed.

(** ** What the schema keeps true of the [messages] table *)

Lemma empty_db_wf (now : str) : db_wf (empty_db now).
Proof. split; intros i; intros; simpl in *; by rewrite lookup_empty in *. Qed.

Lemma create_conversation_wf (db db' : DB) (title : str) (c : Conversation.t) :
  db_wf db → create_conversation db title = Ok (c, db') → db_wf db'.
Proof.
  intros [Hu Hp Hc]. unfold create_conversation, get_conversation. simpl.
  rewrite lookup_insert_eq. simpl. intros [= _ <-].
  split; [exact Hu|exact Hp|].
  intros i r Hr. simpl in *. rewrite lookup_insert. case_decide; eauto.
Qed.

Lemma update_conversation_wf (db db' : DB) (id : Z) (title : option str)
    (c : Conversation.t) :
  db_wf db → update_conversation db id title = Ok (c, db') → db_wf db'.
Proof.
  intros [Hu Hp Hc]. unfold update_conversation. destruct title; [|done].
  destruct (get_conversation _ id); [|done]. simpl. intros [= _ <-].
  split; [exact Hu|exact Hp|].
  intros i r Hr. simpl in *. rewrite lookup_alter.
  destruct (Hc i r Hr) as [x Hx]. case_decide; subst; rewrite Hx; simpl; eauto.
Qed.

Lemma create_message_wf (db db' : DB) (c : Z) (content : str)
    (order_index : option Z) (summary : option str) (parent : option Z)
    (reply : option str) (m : Message.t) :
  db_wf db →
  create_message db c content order_index summary parent reply = Ok (m, db') →
  db_wf db'.
Proof.
  intros [Hu Hp Hc] (_ & -> & Hconv & Htaken & Hparent)%create_message_Ok.
  pose proof (autoincrement_fresh (messages db) (messages_seq db)) as Hfresh.
  set (id := autoincrement (messages db) (messages_seq db)) in *.
  rewrite order_taken_false in Htaken.
  split.
  - intros i j r1 r2. cbn [messages]. rewrite !lookup_insert.
    destruct (decide (id = i)) as [<-|Hi], (decide (id = j)) as [<-|Hj].
    + done.
    + intros [= <-] Hr2 E1 E2. exfalso. by eapply (Htaken j r2).
    + intros Hr1 [= <-] E1 E2. exfalso. by eapply (Htaken i r1).
    + apply Hu.
  - intros i r p. cbn [messages]. rewrite lookup_insert. case_decide.
    + intros [= <-]. cbn [Row.parent_id]. intros ->.
      simpl in Hparent. by apply bool_decide_eq_true in Hparent.
    + intros Hr Hpar. destruct (Hp i r p Hr Hpar) as [x Hx].
      rewrite lookup_insert. case_decide; eauto.
  - intros i r. cbn [messages conversations]. rewrite lookup_insert.
    case_decide; [intros [= <-]; done|]. apply Hc.
Qed.

(** ** [update_message] *)

Lemma update_message_eq (db : DB) (id : Z) (content : option str)
    (order_index : option Z) (summary : option str) (parent_id : option Z)
    (assistant_reply : option str) :
  update_message db id content order_index summary parent_id assistant_reply =
  if no_field content order_index summary parent_id assistant_reply then
    Raise (ValueError
             (py "At least one field must be provided to update_message"))
  else
    db' ← update_message_row db id content order_index summary parent_id
            assistant_reply;
    message ← get_message db' id;
    Ok (message, db').
Proof.
  by destruct content, order_index, summary, parent_id, assistant_reply.
Qed.

Lemma set_fields_current (row : Row.t) content order_index summary parent_id
    assistant_reply :
  current row content order_index summary parent_id assistant_reply →
  set_fields row content order_index summary parent_id assistant_reply = row.
Proof.
  intros (Hc & Ho & Hs & Hp & Ha). destruct row. unfold set_fields. simpl in *.
  f_equal.
  - destruct content; simpl; [by rewrite (Hc _ eq_refl)|done].
  - destruct order_index; simpl; [by rewrite (Ho _ eq_refl)|done].
  - destruct summary; [by rewrite (Hs _ eq_refl)|done].
  - destruct parent_id; [by rewrite (Hp _ eq_refl)|done].
  - destruct assistant_reply; [by rewrite (Ha _ eq_refl)|done].
Qed.

Lemma set_fields_twice (row : Row.t) content order_index summary parent_id
    assistant_reply :
  current (set_fields row content order_index summary parent_id assistant_reply)
    content order_index summary parent_id assistant_reply.
Proof.
  unfold current, set_fields. simpl.
  repeat split; intros v ->; done.
Qed.

Lemma db_eta (db : DB) :
  mkDB (conversations db) (conversations_seq db) (messages db)
       (messages_seq db) (configs db) (CURRENT_TIMESTAMP db) = db.
Proof. by destruct db. Qed.

(** What a successful [update_message] has done. *)
Lemma update_message_Ok (db db' : DB) (id : Z) content order_index summary
    parent_id assistant_reply (m : Message.t) :
  update_message db id content order_index summary parent_id assistant_reply
  = Ok (m, db') →
  ∃ row,
    let row' := set_fields row content order_index summary parent_id
                  assistant_reply in
    messages db !! id = Some row
    ∧ m = _row_to_message id row'
    ∧ db' = mkDB (conversations db) (conversations_seq db)
                 (<[id := row']> (messages db)) (messages_seq db) (configs db)
                 (CURRENT_TIMESTAMP db)
    ∧ (is_Some order_index →
       order_taken db id (Row.conversation_id row') (Row.order_index row') = false)
    ∧ parent_ok (messages db) parent_id = true.
Proof.
  rewrite update_message_eq.
  destruct (no_field _ _ _ _ _); [done|].
  unfold update_message_row, get_message.
  destruct (messages db !! id) as [row|] eqn:Hrow.
  - destruct (bool_decide (is_Some order_index) && _) eqn:Htaken; [done|].
    destruct (parent_ok _ parent_id) eqn:Hparent; [|done].
    cbn. rewrite lookup_insert_eq. intros [= <- <-].
    exists row. repeat split.
    intros Hsome. apply andb_false_iff in Htaken as [Hn|Ht]; [|done].
    by apply bool_decide_eq_false in Hn.
  - cbn. by rewrite Hrow.
Qed.

(** A message that is stored can always take its reply, a summary or new
    content: these columns carry no constraint. *)
Lemma update_message_unconstrained (db : DB) (id : Z) (row : Row.t)
    (content summary assistant_reply : option str) :
  messages db !! id = Some row →
  no_field content None summary None assistant_reply = false →
  let row' := set_fields row content None summary None assistant_reply in
  update_message db id content None summary None assistant_reply
  = Ok (_row_to_message id row',
        mkDB (conversations db) (conversations_seq db)
             (<[id := row']> (messages db)) (messages_seq db) (configs db)
             (CURRENT_TIMESTAMP db)).
Proof.
  intros Hrow Hgiven. rewrite update_message_eq, Hgiven.
  unfold update_message_row, get_message. rewrite Hrow. cbn.
  by rewrite lookup_insert_eq.
Qed.

Lemma update_message_wf (db db' : DB) (id : Z) content order_index summary
    parent_id assistant_reply (m : Message.t) :
  db_wf db →
  update_message db id content order_index summary parent_id assistant_reply
  = Ok (m, db') →
  db_wf db'.
Proof.
  intros [Hu Hp Hc] (row & Hrow & _ & -> & Htaken & Hparent)%update_message_Ok.
  set (row' := set_fields row content order_index summary parent_id
                 assistant_reply) in *.
  assert (Row.conversation_id row' = Row.conversation_id row) as Hconv by done.
  assert (∀ j r, messages db !! j = Some r → j ≠ id →
                 Row.conversation_id r = Row.conversation_id row' →
                 Row.order_index r ≠ Row.order_index row') as Hfree.
  { destruct order_index as [o|] eqn:Ho.
    - by apply order_taken_false, Htaken.
    - intros j r Hr Hj E1 E2. apply Hj. eapply Hu; eauto. }
  split.
  - intros i j r1 r2. cbn [messages]. rewrite !lookup_insert.
    destruct (decide (id = i)) as [<-|Hi], (decide (id = j)) as [<-|Hj].
    + done.
    + intros [= <-] Hr2 E1 E2. exfalso. by eapply (Hfree j r2).
    + intros Hr1 [= <-] E1 E2. exfalso. by eapply (Hfree i r1).
    + apply Hu.
  - assert (∀ p, is_Some (messages db !! p) →
                 is_Some (<[id := row']> (messages db) !! p)) as Hkeep.
    { intros p [x Hx]. rewrite lookup_insert. case_decide; eauto. }
    intros i r p. cbn [messages]. rewrite lookup_insert. case_decide.
    + intros [= <-] Hpar. apply Hkeep.
      destruct parent_id as [q|].
      * simpl in Hpar. injection Hpar as ->.
        by apply bool_decide_eq_true in Hparent.
      * by eapply Hp.
    + intros Hr Hpar. apply Hkeep. by eapply Hp.
  - intros i r. cbn [messages conversations]. rewrite lookup_insert.
    case_decide; [intros [= <-]; rewrite Hconv; by eapply Hc|]. apply Hc.
Qed.

Lemma update_message_current (db : DB) (id : Z) (row : Row.t) content
    order_index summary parent_id assistant_reply :
  messages db !! id = Some row →
  no_field content order_index summary parent_id assistant_reply = false →
  current row content order_index summary parent_id assistant_reply →
  (is_Some order_index →
   order_taken db id (Row.conversation_id row) (Row.order_index row) = false) →
  parent_ok (messages db) parent_id = true →
  update_message db id content order_index summary parent_id assistant_reply
  = Ok (_row_to_message id row, db).
Proof.
  intros Hrow Hgiven Hcur Htaken Hparent.
  rewrite update_message_eq, Hgiven. unfold update_message_row.
  rewrite Hrow, (set_fields_current _ _ _ _ _ _ Hcur), Hparent.
  assert (bool_decide (is_Some order_index)
          && order_taken db id (Row.conversation_id row) (Row.order_index row)
          = false) as ->.
  { destruct order_index; [|done]. simpl. apply Htaken. eauto. }
  cbn. rewrite (insert_id _ _ _ Hrow), db_eta.
  unfold get_message. by rewrite Hrow.
Qed.

(** C9. An [update_message] that sets fields to the values already stored
    succeeds and leaves the database as it is; more generally a successful
    update, applied once more, returns the same message and changes
    nothing; and with no field given it raises [ValueError] before the
    database is touched. *)
Theorem update_message_idempotent (db : DB) (id : Z) (row : Row.t) content
    order_index summary parent_id assistant_reply :
  db_wf db →
  messages db !! id = Some row →
  (no_field content order_index summary parent_id assistant_reply = false →
   current row content order_index summary parent_id assistant_reply →
   update_message db id content order_index summary parent_id assistant_reply
   = Ok (_row_to_message id row, db))
  ∧ (∀ m db',
       update_message db id content order_index summary parent_id
         assistant_reply = Ok (m, db') →
       update_message db' id content order_index summary parent_id
         assistant_reply = Ok (m, db'))
  ∧ update_message db id None None None None None
    = Raise (ValueError
               (py "At least one field must be provided to update_message")).
Proof.
  intros [Hu Hp Hc] Hrow. split; [|split; [|done]].
  - intros Hgiven Hcur. apply (update_message_current _ _ row); try done.
    + intros _. apply order_taken_false. intros j r Hr Hj E1 E2.
      apply Hj. by eapply Hu.
    + destruct parent_id as [p|]; [|done]. simpl. apply bool_decide_eq_true.
      destruct Hcur as (_ & _ & _ & Hpar & _).
      eapply Hp; [exact Hrow|by apply Hpar].
  - intros m db' Hupd.
    assert (no_field content order_index summary parent_id assistant_reply
            = false) as Hgiven.
    { rewrite update_message_eq in Hupd. by destruct (no_field _ _ _ _ _). }
    apply update_message_Ok in Hupd
      as (row0 & Hrow0 & -> & -> & Htaken & Hparent).
    apply update_message_current; try done.
    + cbn [messages]. by rewrite lookup_insert_eq.
    + apply set_fields_twice.
    + intros Hsome. specialize (Htaken Hsome).
      rewrite order_taken_false in Htaken. apply order_taken_false.
      intros j r. cbn [messages]. rewrite lookup_insert.
      case_decide; [done|]. intros Hr Hj. by apply (Htaken j r).
    + cbn [messages]. destruct parent_id as [p|]; [|done]. simpl in *.
      apply bool_decide_eq_true. apply bool_decide_eq_true in Hparent as [x Hx].
      rewrite lookup_insert. case_decide; eauto.
Qed.

(** ** [get_message_path_to_root] *)

Lemma get_message_Ok (db : DB) (id : Z) (m : Message.t) :
  get_message db id = Ok m ↔
  ∃ row, messages db !! id = Some row ∧ m = _row_to_message id row.
Proof.
  unfold get_message. destruct (messages db !! id) as [row|].
  - split; [intros [= <-]; eauto|]. by intros (? & [= <-] & ->).
  - split; [done|]. by intros (? & ? & _).
Qed.

Lemma path_loop_sound (fuel : nat) (db : DB) (current_id : option Z)
    (path result : list Message.t) :
  path_loop fuel db current_id path = Some result →
  ∃ l, result = path ++ l ∧ up_chain db current_id l.
Proof.
  revert current_id path.
  induction fuel as [|fuel IH]; intros [id|] path; simpl; try done.
  - intros [= <-]. exists []. by rewrite app_nil_r.
  - destruct (get_message db id) as [m|e] eqn:Hm.
    + intros (l & -> & Hl)%IH. exists (m :: l).
      split; [by rewrite <- app_assoc|]. simpl. eauto.
    + intros [= <-]. exists []. split; [by rewrite app_nil_r|]. simpl.
      unfold get_message in Hm. by destruct (messages db !! id).
  - intros [= <-]. exists []. by rewrite app_nil_r.
Qed.

Lemma path_loop_complete (db : DB) (l : list Message.t) :
  ∀ current_id fuel path,
    up_chain db current_id l → (length l < fuel)%nat →
    path_loop fuel db current_id path = Some (path ++ l).
Proof.
  induction l as [|m l IH]; intros current_id fuel path Hchain Hfuel.
  - rewrite app_nil_r. destruct current_id as [id|]; [|by destruct fuel].
    destruct fuel as [|fuel]; [simpl in Hfuel; lia|]. simpl in *.
    unfold get_message. by rewrite Hchain.
  - destruct Hchain as (id & -> & Hm & Hchain).
    destruct fuel as [|fuel]; [simpl in Hfuel; lia|]. simpl in *.
    rewrite Hm, (IH _ fuel) by (done || lia). by rewrite <- app_assoc.
Qed.

Lemma up_chain_deterministic (db : DB) (l1 l2 : list Message.t)
    (current_id : option Z) :
  up_chain db current_id l1 → up_chain db current_id l2 → l1 = l2.
Proof.
  revert l2 current_id.
  induction l1 as [|m1 l1 IH]; intros [|m2 l2] current_id; simpl.
  - done.
  - intros H (id & -> & (row & Hrow & _)%get_message_Ok & _). congruence.
  - intros (id & -> & (row & Hrow & _)%get_message_Ok & _) H. congruence.
  - intros (id & -> & Hm1 & H1) (id' & [= <-] & Hm2 & H2).
    assert (m1 = m2) as -> by congruence. f_equal. by eapply IH.
Qed.

Lemma up_chain_suffix (db : DB) (l1 l2 : list Message.t) (m : Message.t)
    (current_id : option Z) :
  up_chain db current_id (l1 ++ m :: l2) →
  up_chain db (Some (Message.id m)) (m :: l2).
Proof.
  revert current_id. induction l1 as [|m1 l1 IH]; intros current_id; simpl.
  - intros (id & -> & Hm & H). exists id. split; [|done].
    apply get_message_Ok in Hm as (row & _ & ->). done.
  - intros (id & -> & _ & H). by eapply IH.
Qed.

Lemma up_chain_NoDup (db : DB) (l : list Message.t) (current_id : option Z) :
  up_chain db current_id l → NoDup (Message.id <$> l).
Proof.
  revert current_id. induction l as [|m l IH]; intros current_id;
    [constructor|].
  intros Hchain. pose proof Hchain as (id & -> & Hm & Hrest).
  rewrite fmap_cons. constructor; [|by eapply IH].
  intros (m' & Hid & (l1 & l2 & ->)%list_elem_of_split)%list_elem_of_fmap.
  apply up_chain_suffix in Hrest. rewrite <- Hid in Hrest.
  assert (Message.id m = id) as Hidm.
  { apply get_message_Ok in Hm as (row & _ & ->). done. }
  rewrite Hidm in Hrest.
  pose proof (up_chain_deterministic _ _ _ _ Hchain Hrest) as Heq.
  apply (f_equal length) in Heq. simpl in Heq. rewrite length_app in Heq.
  simpl in Heq. lia.
Qed.

Lemma stored_ids_length {A} (table : gmap Z A) (ids : list Z) :
  NoDup ids → (∀ id, id ∈ ids → is_Some (table !! id)) →
  (length ids ≤ size table)%nat.
Proof.
  intros Hnd Hin. rewrite <- length_map_to_list, <- (length_fmap fst).
  apply submseteq_length, NoDup_submseteq; [done|].
  intros id [x Hx]%Hin. apply list_elem_of_fmap. exists (id, x).
  split; [done|]. by apply elem_of_map_to_list.
Qed.

Lemma up_chain_stored (db : DB) (l : list Message.t) (current_id : option Z)
    (m : Message.t) :
  up_chain db current_id l → m ∈ l → get_message db (Message.id m) = Ok m.
Proof.
  revert current_id. induction l as [|m' l IH]; intros current_id; simpl.
  - by intros _ ?%elem_of_nil.
  - intros (id & -> & Hm & H) [->|Hin]%elem_of_cons; [|by eapply IH].
    pose proof Hm as (row & _ & ->)%get_message_Ok. done.
Qed.

Lemma up_chain_length (db : DB) (l : list Message.t) (current_id : option Z) :
  up_chain db current_id l → (length l ≤ size (messages db))%nat.
Proof.
  intros Hchain. rewrite <- (length_fmap Message.id).
  apply stored_ids_length; [by eapply up_chain_NoDup|].
  intros id (m & -> & Hm)%list_elem_of_fmap.
  pose proof (up_chain_stored _ _ _ _ Hchain Hm) as (row & Hrow & _)%get_message_Ok.
  eauto.
Qed.

(** The bound on the iterations loses nothing: a walk still running after
    one iteration per stored message, and one more, runs for ever. *)
Lemma path_loop_None_forever (db : DB) (current_id : option Z)
    (path : list Message.t) :
  path_loop (S (size (messages db))) db current_id path = None →
  ∀ fuel path', path_loop fuel db current_id path' = None.
Proof.
  intros Hnone fuel path'.
  destruct (path_loop fuel db current_id path') as [result|] eqn:Hres; [|done].
  apply path_loop_sound in Hres as (l & _ & Hl).
  pose proof (up_chain_length _ _ _ Hl).
  rewrite (path_loop_complete db l) in Hnone by (done || lia). done.
Qed.

Lemma path_loop_terminates (db : DB) :
  acyclic db →
  ∀ fuel current_id path (visited : list Z),
    NoDup visited →
    (∀ v, v ∈ visited → is_Some (messages db !! v)) →
    (∀ v c, v ∈ visited → current_id = Some c → tc (parent_of db) v c) →
    (size (messages db) < fuel + length visited)%nat →
    is_Some (path_loop fuel db current_id path).
Proof.
  intros Hacyclic.
  induction fuel as [|fuel IH]; intros [c|] path visited Hnd Hstored Hreach Hsize;
    simpl; eauto.
  - pose proof (stored_ids_length _ _ Hnd Hstored). lia.
  - unfold get_message. destruct (messages db !! c) as [row|] eqn:Hrow; eauto.
    apply (IH _ _ (c :: visited)).
    + constructor; [|done]. intros Hin. by apply (Hacyclic c), Hreach.
    + intros v [->|Hv]%elem_of_cons; eauto.
    + intros v c' Hv Hc'. simpl in Hc'.
      assert (parent_of db c c') as Hstep by (by exists row).
      apply elem_of_cons in Hv as [->|Hv]; [by apply tc_once|].
      eapply tc_r; [|done]. by apply Hreach.
    + simpl. lia.
Qed.

(** In a store without cycles the walk ends. *)
Lemma get_message_path_to_root_terminates (db : DB) (message_id : Z) :
  acyclic db → is_Some (get_message_path_to_root db message_id).
Proof.
  intros Hacyclic. unfold get_message_path_to_root.
  destruct (path_loop_terminates db Hacyclic (S (size (messages db)))
              (Some message_id) [] []) as [l ->]; simpl;
    [constructor| by intros ? ?%elem_of_nil | by intros ? ? ?%elem_of_nil
    | lia | eauto].
Qed.

Lemma parents_below_acyclic (db : DB) : parents_below db = true → acyclic db.
Proof.
  intros Hbelow.
  assert (∀ a b, parent_of db a b → b < a) as Hstep.
  { intros a b (row & Hrow & Hparent).
    unfold parents_below in Hbelow. rewrite forallb_forall in Hbelow.
    specialize (Hbelow (a, row)). simpl in Hbelow. rewrite Hparent in Hbelow.
    apply Z.ltb_lt, Hbelow, list_elem_of_In. by apply elem_of_map_to_list. }
  assert (∀ a b, tc (parent_of db) a b → b < a) as Htc.
  { induction 1 as [a b H|a b c H _ IH]; [by apply Hstep|].
    apply Hstep in H. lia. }
  intros a Hcycle. apply Htc in Hcycle. lia.
Qed.

Lemma acyclic_no_loops (db : DB) (id : Z) : acyclic db → ¬ loops db id.
Proof. intros Hacyclic (a & _ & Hcycle). by apply (Hacyclic a). Qed.

(** A walk whose references do not loop ends: a message met twice would
    be its own ancestor. *)
Lemma path_loop_ends (db : DB) (start : Z) :
  ¬ loops db start →
  ∀ fuel current_id path (visited : list Z),
    NoDup visited →
    (∀ v, v ∈ visited → is_Some (messages db !! v)) →
    (∀ c, current_id = Some c → rtc (parent_of db) start c) →
    (∀ v c, v ∈ visited → current_id = Some c → tc (parent_of db) v c) →
    (size (messages db) < fuel + length visited)%nat →
    is_Some (path_loop fuel db current_id path).
Proof.
  intros Hloops.
  induction fuel as [|fuel IH];
    intros [c|] path visited Hnd Hstored Hfrom Hreach Hsize; simpl; eauto.
  - pose proof (stored_ids_length _ _ Hnd Hstored). lia.
  - unfold get_message. destruct (messages db !! c) as [row|] eqn:Hrow; eauto.
    assert (∀ c', Row.parent_id row = Some c' → parent_of db c c') as Hstep
      by (intros c' Hc'; by exists row).
    apply (IH _ _ (c :: visited)).
    + constructor; [|done]. intros Hin. apply Hloops. exists c.
      split; [by apply Hfrom|by apply Hreach].
    + intros v [->|Hv]%elem_of_cons; eauto.
    + intros c' Hc'. simpl in Hc'. eapply rtc_r; [by apply Hfrom|].
      by apply Hstep.
    + intros v c' Hv Hc'. simpl in Hc'.
      apply elem_of_cons in Hv as [->|Hv]; [by apply tc_once, Hstep|].
      eapply tc_r; [|by apply Hstep]. by apply Hreach.
    + simpl. lia.
Qed.

Lemma get_message_path_to_root_ends (db : DB) (message_id : Z) :
  ¬ loops db message_id → is_Some (get_message_path_to_root db message_id).
Proof.
  intros Hloops. unfold get_message_path_to_root.
  destruct (path_loop_ends db message_id Hloops (S (size (messages db)))
              (Some message_id) [] []) as [l ->]; simpl;
    [constructor| by intros ? ?%elem_of_nil | by intros ? [= <-]
    | by intros ? ? ?%elem_of_nil | lia | eauto].
Qed.

Lemma up_chain_parent (db : DB) (a b : Z) (l : list Message.t) :
  up_chain db (Some a) l → parent_of db a b →
  ∃ l', up_chain db (Some b) l' ∧ (length l' < length l)%nat.
Proof.
  intros Hchain (row & Hrow & Hparent). destruct l as [|m l]; simpl in Hchain.
  - congruence.
  - destruct Hchain as (id & [= <-] & (row' & Hrow' & ->)%get_message_Ok & Hrest).
    assert (row' = row) as -> by congruence. simpl in Hrest.
    rewrite Hparent in Hrest. exists l. split; [done|simpl; lia].
Qed.

Lemma up_chain_rtc (db : DB) (a b : Z) (l : list Message.t) :
  rtc (parent_of db) a b → up_chain db (Some a) l →
  ∃ l', up_chain db (Some b) l'.
Proof.
  intros Hrtc. revert l. induction Hrtc as [a|a c b Hstep _ IH]; intros l Hchain.
  - by exists l.
  - destruct (up_chain_parent _ _ _ _ Hchain Hstep) as (l' & Hl' & _).
    by eapply IH.
Qed.

Lemma up_chain_tc (db : DB) (a b : Z) (l : list Message.t) :
  tc (parent_of db) a b → up_chain db (Some a) l →
  ∃ l', up_chain db (Some b) l' ∧ (length l' < length l)%nat.
Proof.
  intros Htc. revert l. induction Htc as [a b Hstep|a c b Hstep _ IH];
    intros l Hchain.
  - by eapply up_chain_parent.
  - destruct (up_chain_parent _ _ _ _ Hchain Hstep) as (l' & Hl' & Hlen).
    destruct (IH _ Hl') as (l'' & Hl'' & Hlen'). exists l''. split; [done|lia].
Qed.

(** A walk whose references loop never ends, whatever the number of
    iterations allowed. *)
Lemma loops_never_ends (db : DB) (id : Z) :
  loops db id →
  get_message_path_to_root db id = None
  ∧ ∀ fuel path, path_loop fuel db (Some id) path = None.
Proof.
  intros (a & Hrtc & Htc).
  assert (∀ fuel path, path_loop fuel db (Some id) path = None) as Hnone.
  { intros fuel path.
    destruct (path_loop fuel db (Some id) path) as [result|] eqn:Hres; [|done].
    exfalso. apply path_loop_sound in Hres as (l & _ & Hl).
    destruct (up_chain_rtc _ _ _ _ Hrtc Hl) as (l1 & Hl1).
    destruct (up_chain_tc _ _ _ _ Htc Hl1) as (l2 & Hl2 & Hlen).
    rewrite (up_chain_deterministic _ _ _ _ Hl1 Hl2) in Hlen. lia. }
  split; [|done]. unfold get_message_path_to_root. by rewrite Hnone.
Qed.

Lemma up_chain_links (db : DB) (l : list Message.t) (current_id : option Z)
    (i : nat) (a b : Message.t) :
  up_chain db current_id l → l !! i = Some a → l !! S i = Some b →
  Message.parent_id a = Some (Message.id b).
Proof.
  revert current_id i. induction l as [|m l IH]; intros current_id i; [done|].
  intros (id & -> & Hm & Hrest). destruct i as [|i]; simpl.
  - intros [= ->] Hb. destruct l as [|m' l]; [done|]. simpl in Hb.
    injection Hb as ->. destruct Hrest as (id' & -> & Hm' & _).
    apply get_message_Ok in Hm' as (row & _ & ->). done.
  - by eapply IH.
Qed.

Lemma up_chain_end (db : DB) (l : list Message.t) (current_id : option Z)
    (r : Message.t) :
  up_chain db current_id l → last l = Some r →
  Message.parent_id r = None
  ∨ ∃ p, Message.parent_id r = Some p ∧ messages db !! p = None.
Proof.
  revert current_id. induction l as [|m l IH]; intros current_id; [done|].
  intros (id & -> & Hm & Hrest). destruct l as [|m' l].
  - intros [= ->]. simpl in Hrest.
    destruct (Message.parent_id r) as [p|]; eauto.
  - intros Hlast. by eapply IH.
Qed.

(** C2. For a stored message [m] whose parent references do not loop,
    [get_message_path_to_root] returns a list that ends in [m], in which
    every message is a stored one and is the parent of the next; its first
    message is a root or refers to a parent that is not stored (the walk
    then stops there without error); and it is [[m]] alone when [m] is a
    root. The loop of the function has no guard against references that
    come back: with such references it never ends
    ([loops_never_ends]). *)
Theorem get_message_path_to_root_spec (db : DB) (message_id : Z)
    (m : Message.t) :
  ¬ loops db message_id →
  get_message db message_id = Ok m →
  ∃ path,
    get_message_path_to_root db message_id = Some path
    ∧ last path = Some m
    ∧ (∀ i a b, path !! i = Some a → path !! S i = Some b →
                Message.parent_id b = Some (Message.id a))
    ∧ (∀ a, a ∈ path → get_message db (Message.id a) = Ok a)
    ∧ (∀ r, head path = Some r →
            Message.parent_id r = None
            ∨ ∃ p, Message.parent_id r = Some p ∧ messages db !! p = None)
    ∧ (Message.parent_id m = None → path = [m]).
Proof.
  intros Hloops Hm.
  destruct (get_message_path_to_root_ends db message_id Hloops)
    as [path Hpath].
  exists path. split; [done|].
  unfold get_message_path_to_root in Hpath.
  destruct (path_loop _ db (Some message_id) []) as [l0|] eqn:Hloop; [|done].
  injection Hpath as <-.
  apply path_loop_sound in Hloop as (l & -> & Hchain). simpl in *.
  destruct l as [|m0 l]; simpl in Hchain.
  { apply get_message_Ok in Hm as (row & Hrow & _). congruence. }
  pose proof Hchain as (id & [= <-] & Hm0 & Hrest).
  assert (m0 = m) as -> by congruence.
  change (up_chain db (Some message_id) (m :: l)) in Hchain.
  repeat split.
  - by rewrite last_reverse.
  - intros i a b [Ha Hi]%reverse_lookup_Some [Hb Hi']%reverse_lookup_Some.
    eapply (up_chain_links db (m :: l)); [done|exact Hb|].
    rewrite <- Ha. f_equal. lia.
  - intros a Ha. rewrite elem_of_reverse in Ha.
    eapply up_chain_stored; [exact Hchain|done].
  - intros r Hr. rewrite head_reverse in Hr.
    eapply up_chain_end; [exact Hchain|done].
  - intros Hroot. rewrite Hroot in Hrest. destruct l as [|m' l]; [done|].
    by destruct Hrest as (? & ? & _).
Qed.

(** C10. For an id that names no stored message the walk ends at once:
    [get_message_path_to_root] returns the empty list and raises nothing,
    so that the endpoint answers as it does on success, with no message.
    The id is one that can be bound to the [SELECT] of [get_message]. *)
Theorem get_message_path_to_root_missing (db : DB) (message_id : Z) :
  int64 message_id →
  messages db !! message_id = None →
  get_message_path_to_root db message_id = Some []
  ∧ api_get_message_path_to_root db message_id = Some (Returned []).
Proof.
  intros _ Hnone.
  assert (get_message_path_to_root db message_id = Some []) as Hpath.
  { unfold get_message_path_to_root. simpl. unfold get_message.
    by rewrite Hnone. }
  split; [done|]. unfold api_get_message_path_to_root. by rewrite Hpath.
Qed.

(** * Properties of the upstream chat client *)

Section ClientProperties.
Variable json_loads : str -> option json.
Variable network : Network.

Lemma sse_line_ignored (line : str) :
  line = [] ∨ data_line line = false → sse_line json_loads line = Skip.
Proof.
  unfold sse_line, data_line. intros [-> | ->]; [done|].
  by rewrite orb_true_r.
Qed.

Lemma data_line_nonempty (line : str) : data_line line = true → nonempty line = true.
Proof. by destruct line. Qed.

Lemma sse_line_sentinel (line : str) :
  data_line line = true → strip (drop 5 line) = py "[DONE]" →
  sse_line json_loads line = Stop.
Proof.
  intros Hdata Hdone. unfold sse_line. fold (data_line line).
  rewrite Hdata, (data_line_nonempty _ Hdata). simpl.
  by rewrite bool_decide_eq_true_2.
Qed.

Lemma sse_line_malformed (line : str) :
  data_line line = true → strip (drop 5 line) ≠ py "[DONE]" →
  json_loads (strip (drop 5 line)) = None →
  sse_line json_loads line = Skip.
Proof.
  intros Hdata Hdone Hbad. unfold sse_line. fold (data_line line).
  rewrite Hdata, (data_line_nonempty _ Hdata). simpl.
  by rewrite bool_decide_eq_false_2, Hbad.
Qed.

(** A payload of the shape of the wire contract: an object whose
    ["choices"] is a list that starts with an object whose ["delta"] is an
    object. The content field of that delta is yielded exactly when it is
    there and truthy, for a string when it is not empty. *)
Lemma sse_line_content (line : str) (top first delta : list (str * json))
    (more : list json) :
  data_line line = true → strip (drop 5 line) ≠ py "[DONE]" →
  json_loads (strip (drop 5 line)) = Some (JObj top) →
  dict_get top (py "choices") = Some (JArr (JObj first :: more)) →
  dict_get first (py "delta") = Some (JObj delta) →
  sse_line json_loads line =
  match dict_get delta (py "content") with
  | Some piece => if truthy piece then Emit piece else Skip
  | None => Skip
  end.
Proof.
  intros Hdata Hdone Hparsed Hchoices Hdelta. unfold sse_line.
  fold (data_line line).
  rewrite Hdata, (data_line_nonempty _ Hdata). simpl.
  rewrite bool_decide_eq_false_2, Hparsed by done. simpl.
  rewrite Hchoices. simpl. rewrite Hdelta. simpl.
  assert (py_or (JObj delta) (JObj []) = JObj delta) as ->
    by (by destruct delta).
  simpl. by destruct (dict_get delta (py "content")).
Qed.

Lemma _iter_sse_readable (lines : list str) (read_error : option str) :
  Forall (readable json_loads) lines →
  _iter_sse json_loads lines read_error
  = mkGen (omap (piece_of json_loads) lines) (HTTPError <$> read_error).
Proof.
  unfold readable, piece_of. induction 1 as [|line lines Hline _ IH]; [done|].
  simpl. rewrite IH. by destruct (sse_line json_loads line).
Qed.

Lemma _iter_sse_sentinel (lines rest : list str) (line : str)
    (read_error : option str) :
  Forall (readable json_loads) lines → sse_line json_loads line = Stop →
  _iter_sse json_loads (lines ++ line :: rest) read_error
  = mkGen (omap (piece_of json_loads) lines) None.
Proof.
  unfold readable, piece_of. intros Hlines Hstop.
  induction Hlines as [|l lines Hl _ IH]; simpl; [by rewrite Hstop|].
  rewrite IH. by destruct (sse_line json_loads l).
Qed.

(** The generator [stream] returns, for a prompt that passes
    [_normalize_messages] and an exchange without a failure before the
    body. *)
Lemma stream_body (self : OpenAICompatibleLLM) (messages : list ChatMessage.t)
    (temperature : spec_float) (payload : ChatPayload) :
  _build_payload self messages temperature true = Ok payload →
  let exchange := http_stream network self payload in
  stream_open_error exchange = None →
  200 ≤ stream_status exchange ≤ 299 →
  stream json_loads network self messages temperature
  = let body := _iter_sse json_loads (stream_lines exchange)
                  (stream_read_error exchange) in
    mkGen (items body) (provider_error <$> finish body).
Proof.
  intros Hpayload exchange Hopen Hstatus. unfold stream, _post_stream.
  rewrite Hpayload. fold exchange. rewrite Hopen.
  unfold raise_for_status. cbn [status_code].
  by rewrite (proj2 (Z.leb_le _ _) (proj1 Hstatus)),
             (proj2 (Z.leb_le _ _) (proj2 Hstatus)).
Qed.

(** A failure to connect is raised as [LLMClientError] by the first
    [next]: [stream] itself only makes the generator. *)
Lemma stream_connect_error (self : OpenAICompatibleLLM)
    (messages : list ChatMessage.t) (temperature : spec_float)
    (payload : ChatPayload) (msg : str) :
  _build_payload self messages temperature true = Ok payload →
  stream_open_error (http_stream network self payload) = Some msg →
  next (stream json_loads network self messages temperature)
  = Raised (LLMClientError (py "LLM provider request failed: " ++ msg)).
Proof.
  intros Hpayload Hopen. unfold stream, _post_stream.
  by rewrite Hpayload, Hopen.
Qed.

(** A failure while the body is read is raised as [LLMClientError] once
    the fragments before it have been yielded. *)
Lemma stream_read_failure (self : OpenAICompatibleLLM)
    (messages : list ChatMessage.t) (temperature : spec_float)
    (payload : ChatPayload) (msg : str) :
  _build_payload self messages temperature true = Ok payload →
  let exchange := http_stream network self payload in
  stream_open_error exchange = None →
  200 ≤ stream_status exchange ≤ 299 →
  Forall (readable json_loads) (stream_lines exchange) →
  stream_read_error exchange = Some msg →
  stream json_loads network self messages temperature
  = mkGen (omap (piece_of json_loads) (stream_lines exchange))
          (Some (LLMClientError (py "LLM provider request failed: " ++ msg))).
Proof.
  intros Hpayload exchange Hopen Hstatus Hlines Hread.
  rewrite (stream_body _ _ _ _ Hpayload Hopen Hstatus). fold exchange.
  by rewrite (_iter_sse_readable _ _ Hlines), Hread.
Qed.

(** C6. An answer with an error status is not turned into
    [LLMClientError]: [_post_stream] catches the [HTTPStatusError] and
    builds its message from [exc.response.text], which raises
    [ResponseNotRead] on a streamed response whose body was not read; that
    is the exception the first [next] raises. ([_post] reads the body, and
    there the same handler does raise [LLMClientError].) *)
Theorem stream_error_status (self : OpenAICompatibleLLM)
    (messages : list ChatMessage.t) (temperature : spec_float)
    (payload : ChatPayload) :
  _build_payload self messages temperature true = Ok payload →
  let exchange := http_stream network self payload in
  stream_open_error exchange = None →
  ¬ (200 ≤ stream_status exchange ≤ 299) →
  stream json_loads network self messages temperature
  = mkGen [] (Some ResponseNotRead)
  ∧ next (stream json_loads network self messages temperature)
    = Raised ResponseNotRead.
Proof.
  intros Hpayload exchange Hopen Hstatus.
  assert (stream json_loads network self messages temperature
          = mkGen [] (Some ResponseNotRead)) as ->; [|done].
  unfold stream, _post_stream. rewrite Hpayload. fold exchange.
  rewrite Hopen. unfold raise_for_status. cbn [status_code].
  destruct (200 <=? stream_status exchange) eqn:H1;
    destruct (stream_status exchange <=? 299) eqn:H2; try done.
  apply Z.leb_le in H1, H2. lia.
Qed.

(** The buffered request, for comparison: an error status there is raised
    as [LLMClientError]. *)
Lemma _post_error_status (self : OpenAICompatibleLLM) (payload : ChatPayload) :
  let exchange := http_post network self payload in
  post_error exchange = None →
  ¬ (200 ≤ post_status exchange ≤ 299) →
  _post json_loads network self payload
  = Raise (LLMClientError
             (py "LLM provider returned " ++ str_of_Z (post_status exchange)
                ++ py ": " ++ post_body exchange)).
Proof.
  intros exchange Hopen Hstatus. unfold _post. fold exchange. rewrite Hopen.
  unfold raise_for_status. cbn [status_code].
  destruct (200 <=? post_status exchange) eqn:H1;
    destruct (post_status exchange <=? 299) eqn:H2; try done.
  apply Z.leb_le in H1, H2. lia.
Qed.
End ClientProperties.

(** * Properties of the reply pipeline *)

Lemma run_eta {A} (r : list Event * DB * Outcome A) :
  r = (events_of r, db_of r, outcome_of r).
Proof. by destruct r as [[? ?] ?]. Qed.

Lemma events_of_run {A} (events : list Event) (db : DB) (r : Outcome A) :
  events_of (events, db, r) = events.
Proof. reflexivity. Qed.

Lemma db_of_run {A} (events : list Event) (db : DB) (r : Outcome A) :
  db_of (events, db, r) = db.
Proof. reflexivity. Qed.

Lemma outcome_of_run {A} (events : list Event) (db : DB) (r : Outcome A) :
  outcome_of (events, db, r) = r.
Proof. reflexivity. Qed.

Lemma bind_Done {A B} (m : M A) (f : A → M B) (db db' : DB)
    (events : list Event) (a : A) :
  m db = (events, db', Done a) →
  (m ≫= f) db
  = (events ++ events_of (f a db'), db_of (f a db'), outcome_of (f a db')).
Proof.
  intros H. unfold mbind, M_bind. rewrite H.
  by destruct (f a db') as [[? ?] ?].
Qed.

Lemma bind_Done_eq {A B} (m : M A) (f : A → M B) (db db' db'' : DB)
    (events events' : list Event) (a : A) (r : Outcome B) :
  m db = (events, db', Done a) →
  f a db' = (events', db'', r) →
  (m ≫= f) db = (events ++ events', db'', r).
Proof. intros H1 H2. unfold mbind, M_bind. by rewrite H1, H2. Qed.

Lemma bind_Done_events {A B} (m : M A) (f : A → M B) (db db' : DB)
    (events : list Event) (a : A) :
  m db = (events, db', Done a) →
  events_of ((m ≫= f) db) = events ++ events_of (f a db').
Proof.
  intros H. unfold mbind, M_bind. rewrite H.
  by destruct (f a db') as [[? ?] ?].
Qed.

Lemma bind_Crashed {A B} (m : M A) (f : A → M B) (db db' : DB)
    (events : list Event) (e : exn) :
  m db = (events, db', Crashed e) → (m ≫= f) db = (events, db', Crashed e).
Proof. intros H. unfold mbind, M_bind. by rewrite H. Qed.

Lemma bind_Diverged {A B} (m : M A) (f : A → M B) (db db' : DB)
    (events : list Event) :
  m db = (events, db', Diverged) → (m ≫= f) db = (events, db', Diverged).
Proof. intros H. unfold mbind, M_bind. by rewrite H. Qed.

Lemma bind_events {A B} (m : M A) (f : A → M B) (db : DB) :
  ∃ rest, events_of ((m ≫= f) db) = events_of (m db) ++ rest.
Proof.
  unfold mbind, M_bind. destruct (m db) as [[events db'] [a|e|]].
  - destruct (f a db') as [[events' db''] r]. by exists events'.
  - exists []. by rewrite app_nil_r.
  - exists []. by rewrite app_nil_r.
Qed.

Lemma try_except_Done {A} (body : M A) (handler : exn → M A) (db db' : DB)
    (events : list Event) (a : A) :
  body db = (events, db', Done a) →
  try_except body handler db = (events, db', Done a).
Proof. intros H. unfold try_except. by rewrite H. Qed.

Lemma try_except_Crashed {A} (body : M A) (handler : exn → M A) (db db' : DB)
    (events : list Event) (e : exn) :
  body db = (events, db', Crashed e) →
  try_except body handler db
  = (events ++ events_of (handler e db'), db_of (handler e db'),
     outcome_of (handler e db')).
Proof.
  intros H. unfold try_except. rewrite H.
  by destruct (handler e db') as [[? ?] ?].
Qed.

Lemma try_except_events {A} (body : M A) (handler : exn → M A) (db : DB) :
  ∃ rest, events_of (try_except body handler db) = events_of (body db) ++ rest.
Proof.
  unfold try_except. destruct (body db) as [[events db'] [a|e|]].
  - exists []. by rewrite app_nil_r.
  - destruct (handler e db') as [[events' db''] r]. by exists events'.
  - exists []. by rewrite app_nil_r.
Qed.

Lemma for_each_yield {A} (l : list A) (f : A → Frame) (db : DB) :
  for_each l (fun x => yield (f x)) db = ((fun x => Yield (f x)) <$> l, db, Done tt).
Proof.
  induction l as [|x l IH]; [done|]. simpl.
  by rewrite (bind_Done _ _ db db [Yield (f x)] tt), IH.
Qed.

Lemma relay_strings (fragments : list str) (assistant_content : str) (db : DB) :
  relay (JStr <$> fragments) assistant_content db
  = ((fun d => Yield (FrameDelta d)) <$> fragments, db,
     Done (assistant_content ++ concat fragments)).
Proof.
  revert assistant_content.
  induction fragments as [|d fragments IH]; intros assistant_content; simpl.
  - by rewrite app_nil_r.
  - rewrite (bind_Done _ _ db db [Yield (FrameDelta d)] tt) by done.
    rewrite IH. by rewrite <- app_assoc.
Qed.

Lemma frames_app (l1 l2 : list Event) : frames (l1 ++ l2) = frames l1 ++ frames l2.
Proof. apply omap_app. Qed.

Lemma frames_deltas (fragments : list str) :
  frames ((fun d => Yield (FrameDelta d)) <$> fragments) = FrameDelta <$> fragments.
Proof.
  induction fragments as [|d l IH]; [done|].
  rewrite !fmap_cons.
  change (frames (Yield (FrameDelta d) :: ?l)) with (FrameDelta d :: frames l).
  by rewrite IH.
Qed.

Lemma call_update_message_reply (db : DB) (id : Z) (row : Row.t) (reply : str) :
  messages db !! id = Some row →
  call_update_message id None None None None (Some reply) db
  = ([CallUpdateMessage id None None None None (Some reply)],
     with_message db id (set_reply row reply),
     Done (_row_to_message id (set_reply row reply))).
Proof.
  intros Hrow. unfold call_update_message.
  rewrite (bind_Done _ _ db db [CallUpdateMessage id None None None None (Some reply)] tt)
    by done.
  unfold crud.
  by rewrite (update_message_unconstrained db id row None None (Some reply) Hrow).
Qed.

Lemma call_update_message_summary (db : DB) (id : Z) (row : Row.t) (summary : str) :
  messages db !! id = Some row →
  call_update_message id None None (Some summary) None None db
  = ([CallUpdateMessage id None None (Some summary) None None],
     with_message db id (set_summary row summary),
     Done (_row_to_message id (set_summary row summary))).
Proof.
  intros Hrow. unfold call_update_message.
  rewrite (bind_Done _ _ db db [CallUpdateMessage id None None (Some summary) None None] tt)
    by done.
  unfold crud.
  by rewrite (update_message_unconstrained db id row None (Some summary) None Hrow).
Qed.

Lemma call_update_conversation_run (db : DB) (id : Z) (title : str) :
  call_update_conversation id (Some title) db =
  match conversations db !! id with
  | Some row =>
      ([CallUpdateConversation id (Some title)], with_title db id title,
       Done (Conversation.mk id title (ConversationRow.created_at row)))
  | None =>
      ([CallUpdateConversation id (Some title)], db,
       Crashed (not_found (py "Conversation") id))
  end.
Proof.
  unfold call_update_conversation.
  rewrite (bind_Done _ _ db db [CallUpdateConversation id (Some title)] tt) by done.
  unfold crud, update_conversation, get_conversation. cbn [conversations].
  rewrite lookup_alter, decide_True by done.
  by destruct (conversations db !! id).
Qed.

Section AppProperties.
Variable lower : str -> str.
Variable json_loads : str -> option json.
Variable network : Network.

Lemma relay_stream_completes (config : Config.t) (llm_client : OpenAICompatibleLLM)
    (llm_messages : list ChatMessage.t) (fragments : list str) (db : DB) :
  stream json_loads network llm_client llm_messages (Config.temperature config)
  = mkGen (JStr <$> fragments) None →
  relay_stream json_loads network config llm_client llm_messages db
  = (CallStream llm_messages (Config.temperature config)
       :: ((fun d => Yield (FrameDelta d)) <$> fragments),
     db, Done (Some (concat fragments))).
Proof.
  intros Hstream. unfold relay_stream. apply try_except_Done.
  rewrite (bind_Done _ _ db db
             [CallStream llm_messages (Config.temperature config)] tt) by done.
  rewrite Hstream. cbn [items finish].
  rewrite (bind_Done _ _ _ _ _ _ (relay_strings fragments [] db)).
  cbn. by rewrite app_nil_r.
Qed.

Lemma relay_stream_fails (config : Config.t) (llm_client : OpenAICompatibleLLM)
    (llm_messages : list ChatMessage.t) (fragments : list str) (msg : str)
    (db : DB) :
  stream json_loads network llm_client llm_messages (Config.temperature config)
  = mkGen (JStr <$> fragments) (Some (LLMClientError msg)) →
  relay_stream json_loads network config llm_client llm_messages db
  = (CallStream llm_messages (Config.temperature config)
       :: ((fun d => Yield (FrameDelta d)) <$> fragments)
       ++ [Yield (FrameError (py "LLM 请求失败: " ++ msg))],
     db, Done None).
Proof.
  intros Hstream. unfold relay_stream.
  erewrite try_except_Crashed.
  2:{ rewrite (bind_Done _ _ db db
                 [CallStream llm_messages (Config.temperature config)] tt)
        by done.
      rewrite Hstream. cbn [items finish].
      rewrite (bind_Done _ _ _ _ _ _ (relay_strings fragments [] db)).
      cbn. rewrite app_nil_r. reflexivity. }
  cbv beta iota.
  rewrite (bind_Done _ _ db db
             [Yield (FrameError (py "LLM 请求失败: " ++ msg))] tt) by done.
  cbn [events_of db_of outcome_of fst snd mret M_ret app].
  reflexivity.
Qed.

Lemma relay_stream_events (config : Config.t) (llm_client : OpenAICompatibleLLM)
    (llm_messages : list ChatMessage.t) (db : DB) :
  ∃ rest,
    events_of (relay_stream json_loads network config llm_client llm_messages db)
    = CallStream llm_messages (Config.temperature config) :: rest.
Proof.
  unfold relay_stream.
  match goal with
  | |- context [try_except ?body ?handler db] =>
      destruct (try_except_events body handler db) as [rest1 ->]
  end.
  match goal with
  | |- context [events_of ((?m ≫= ?f) db)] =>
      destruct (bind_events m f db) as [rest2 ->]
  end.
  exists (rest2 ++ rest1). reflexivity.
Qed.

(** What [derive_summary] does, by the outcome of the [complete] call. *)
Lemma derive_summary_run (payload : LLMReplyRequest.t)
    (llm_client : OpenAICompatibleLLM) (user_message : Message.t) (db : DB)
    (row : Row.t) :
  messages db !! Message.id user_message = Some row →
  let request := CallComplete (summary_prompt payload) summary_temperature in
  derive_summary json_loads network payload llm_client user_message db =
  match complete json_loads network llm_client (summary_prompt payload)
          summary_temperature with
  | Raise (LLMClientError _) => ([request], db, Done (None, user_message))
  | Raise e => ([request], db, Crashed e)
  | Ok completion =>
      match ChatCompletionChoice.content
              (ChatCompletionResult.choice completion) with
      | JStr s =>
          if nonempty (strip s) then
            let summary := take 255 (strip s) in
            ([request;
              CallUpdateMessage (Message.id user_message) None None
                (Some summary) None None],
             with_message db (Message.id user_message) (set_summary row summary),
             Done (Some summary,
                   _row_to_message (Message.id user_message)
                     (set_summary row summary)))
          else ([request], db, Done (Some (strip s), user_message))
      | _ => ([request], db, Crashed AttributeError)
      end
  end.
Proof.
  intros Hrow request. unfold derive_summary.
  destruct (complete json_loads network llm_client (summary_prompt payload)
              summary_temperature) as [completion|e] eqn:Hcomplete.
  - destruct (ChatCompletionChoice.content
                (ChatCompletionResult.choice completion)) as [| | | |s| |]
      eqn:Hcontent;
      try (unfold mbind at 1, M_bind, try_except, mbind, M_bind, trace, pure_res;
           rewrite Hcontent; reflexivity).
    erewrite bind_Done.
    2:{ unfold try_except, mbind, M_bind, trace, pure_res.
        rewrite Hcontent. reflexivity. }
    destruct (nonempty (strip s)) eqn:Hne; rewrite ?Hne.
    2:{ done. }
    erewrite bind_Done by (by apply call_update_message_summary).
    done.
  - destruct e;
      try (unfold mbind at 1, M_bind, try_except, mbind, M_bind, trace, pure_res;
           reflexivity).
Qed.

(** What [derive_title] does. *)
Lemma derive_title_run (conversation_id : Z) (payload : LLMReplyRequest.t)
    (conversation : Conversation.t) (summary_text : option str)
    (user_message : Message.t) (db : DB) :
  let title := take 255 (title_candidate summary_text payload) in
  derive_title conversation_id payload conversation summary_text user_message db =
  if placeholder_title conversation
     && bool_decide (Message.order_index user_message = 0)
     && nonempty (title_candidate summary_text payload)
  then
    match conversations db !! conversation_id with
    | Some row =>
        ([CallUpdateConversation conversation_id (Some title)],
         with_title db conversation_id title, Done tt)
    | None =>
        ([CallUpdateConversation conversation_id (Some title)], db,
         Crashed (not_found (py "Conversation") conversation_id))
    end
  else ([], db, Done tt).
Proof.
  intros title. unfold derive_title. fold (placeholder_title conversation).
  destruct (placeholder_title conversation
            && bool_decide (Message.order_index user_message = 0)); [|done].
  destruct (nonempty (title_candidate summary_text payload)); [|done].
  cbn [andb]. unfold mbind, M_bind. fold title.
  rewrite call_update_conversation_run.
  by destruct (conversations db !! conversation_id).
Qed.



Lemma frames_reply_events (config : Config.t) (user_message : Message.t)
    (history : list Message.t) (fragments : list str) :
  frames (reply_events config user_message history fragments)
  = FrameMessageId (Message.id user_message)
      :: (FrameDelta <$> fragments) ++ [FrameDone].
Proof.
  unfold reply_events. rewrite !frames_app, frames_deltas. done.
Qed.

(** The upstream branch, for a stream that ends well, up to the steps
    after the reply. *)
Lemma upstream_reply_run (conversation_id : Z) (payload : LLMReplyRequest.t)
    (conversation : Conversation.t) (config : Config.t)
    (llm_client : OpenAICompatibleLLM) (user_message : Message.t) (db : DB)
    (row : Row.t) (history : list Message.t) (fragments : list str) :
  is_model_related_question lower (LLMReplyRequest.content payload) = false →
  get_message_path_to_root db (Message.id user_message) = Some history →
  stream json_loads network llm_client (build_llm_messages history)
    (Config.temperature config) = mkGen (JStr <$> fragments) None →
  messages db !! Message.id user_message = Some row →
  let id := Message.id user_message in
  let row1 := set_reply row (strip (concat fragments)) in
  let after :=
    after_reply json_loads network conversation_id payload conversation llm_client id row1
      (with_message db id row1) in
  _stream_llm_reply lower json_loads network conversation_id payload
    conversation config llm_client user_message db
  = (reply_events config user_message history fragments ++ events_of after,
     db_of after, outcome_of after).
Proof.
  intros Hcanned Hhistory Hstream Hrow id row1 after.
  etransitivity.
  { unfold _stream_llm_reply. rewrite Hcanned.
    eapply bind_Done_eq; [reflexivity|].
    eapply bind_Done_eq;
      [unfold call_get_message_path_to_root; rewrite Hhistory; reflexivity|].
    eapply bind_Done_eq; [apply relay_stream_completes, Hstream|].
    eapply bind_Done_eq; [reflexivity|].
    eapply bind_Done_eq; [apply call_update_message_reply, Hrow|].
    apply run_eta. }
  subst after. unfold after_reply. subst row1 id.
  unfold reply_events. rewrite <- !app_assoc. cbn [app].
  reflexivity.
Qed.


(** The canned branch. *)
Lemma canned_run (conversation_id : Z) (payload : LLMReplyRequest.t)
    (conversation : Conversation.t) (config : Config.t)
    (llm_client : OpenAICompatibleLLM) (user_message : Message.t) (db : DB)
    (row : Row.t) :
  is_model_related_question lower (LLMReplyRequest.content payload) = true →
  messages db !! Message.id user_message = Some row →
  _stream_llm_reply lower json_loads network conversation_id payload
    conversation config llm_client user_message db
  = ([Yield (FrameMessageId (Message.id user_message))]
       ++ ((fun char => Yield (FrameDelta [char])) <$> MODEL_IDENTITY_RESPONSE)
       ++ [Yield FrameDone;
           CallUpdateMessage (Message.id user_message) None None None None
             (Some MODEL_IDENTITY_RESPONSE)],
     with_message db (Message.id user_message)
       (set_reply row MODEL_IDENTITY_RESPONSE),
     Done tt).
Proof.
  intros Hcanned Hrow. etransitivity.
  { unfold _stream_llm_reply. rewrite Hcanned.
    eapply bind_Done_eq; [reflexivity|].
    eapply bind_Done_eq;
      [apply (for_each_yield MODEL_IDENTITY_RESPONSE
                (fun char => FrameDelta [char]))|].
    eapply bind_Done_eq; [reflexivity|].
    eapply bind_Done_eq; [apply call_update_message_reply, Hrow|].
    reflexivity. }
  cbn [app]. reflexivity.
Qed.

(** Outside the canned branch, once the history is there, the first thing
    the run does after the [message_id] frame is to call [stream]. *)
Lemma upstream_calls_stream (conversation_id : Z) (payload : LLMReplyRequest.t)
    (conversation : Conversation.t) (config : Config.t)
    (llm_client : OpenAICompatibleLLM) (user_message : Message.t) (db : DB)
    (history : list Message.t) :
  is_model_related_question lower (LLMReplyRequest.content payload) = false →
  get_message_path_to_root db (Message.id user_message) = Some history →
  ∃ rest,
    events_of (_stream_llm_reply lower json_loads network conversation_id
                 payload conversation config llm_client user_message db)
    = Yield (FrameMessageId (Message.id user_message))
        :: CallStream (build_llm_messages history) (Config.temperature config)
        :: rest.
Proof.
  intros Hcanned Hhistory. unfold _stream_llm_reply. rewrite Hcanned.
  rewrite (bind_Done_events _ _ db db
             [Yield (FrameMessageId (Message.id user_message))] tt)
    by reflexivity.
  rewrite (bind_Done_events _ _ db db [] history)
    by (unfold call_get_message_path_to_root; rewrite Hhistory; reflexivity).
  match goal with
  | |- context [events_of ((?m ≫= ?f) db)] =>
      destruct (bind_events m f db) as [rest1 ->]
  end.
  destruct (relay_stream_events config llm_client (build_llm_messages history) db)
    as [rest2 ->].
  exists (rest2 ++ rest1). reflexivity.
Qed.

(** Outside the canned branch, a walk that does not end is where the run
    stays: after the [message_id] frame nothing happens. *)
Lemma upstream_never_called (conversation_id : Z) (payload : LLMReplyRequest.t)
    (conversation : Conversation.t) (config : Config.t)
    (llm_client : OpenAICompatibleLLM) (user_message : Message.t) (db : DB) :
  is_model_related_question lower (LLMReplyRequest.content payload) = false →
  get_message_path_to_root db (Message.id user_message) = None →
  _stream_llm_reply lower json_loads network conversation_id payload
    conversation config llm_client user_message db
  = ([Yield (FrameMessageId (Message.id user_message))], db, Diverged).
Proof.
  intros Hcanned Hhistory. etransitivity.
  { unfold _stream_llm_reply. rewrite Hcanned.
    eapply bind_Done_eq; [reflexivity|].
    apply bind_Diverged. unfold call_get_message_path_to_root.
    rewrite Hhistory. reflexivity. }
  reflexivity.
Qed.

(** C3. For content that the rules of [is_model_related_question] match,
    the run is: the [message_id] frame, one [delta] frame per character of
    the fixed answer, the [done] frame, and the storing of the fixed
    answer as [assistant_reply]; the client is not called, no summary is
    made and no conversation is touched. For content that no rule
    matches, the client's [stream] is called when the parent references
    of the message do not loop; when they do, the run stays in the walk
    to the root after the [message_id] frame and the client is never
    called. *)
Theorem canned_identity (conversation_id : Z) (payload : LLMReplyRequest.t)
    (conversation : Conversation.t) (config : Config.t)
    (llm_client : OpenAICompatibleLLM) (user_message : Message.t) (db : DB) :
  let r := _stream_llm_reply lower json_loads network conversation_id payload
             conversation config llm_client user_message db in
  let id := Message.id user_message in
  (is_model_related_question lower (LLMReplyRequest.content payload) = true →
   ∀ row, messages db !! id = Some row →
     r = ([Yield (FrameMessageId id)]
            ++ ((fun char => Yield (FrameDelta [char])) <$> MODEL_IDENTITY_RESPONSE)
            ++ [Yield FrameDone;
                CallUpdateMessage id None None None None
                  (Some MODEL_IDENTITY_RESPONSE)],
          with_message db id (set_reply row MODEL_IDENTITY_RESPONSE),
          Done tt)
     ∧ Forall (fun ev => is_client_call ev = false) (events_of r)
     ∧ conversations (db_of r) = conversations db
     ∧ ∃ row', messages (db_of r) !! id = Some row'
               ∧ Row.assistant_reply row' = Some MODEL_IDENTITY_RESPONSE
               ∧ Row.summary row' = Row.summary row)
  ∧ (is_model_related_question lower (LLMReplyRequest.content payload) = false →
     int64 id →
     (¬ loops db id →
      ∃ messages temperature, CallStream messages temperature ∈ events_of r)
     ∧ (loops db id →
        r = ([Yield (FrameMessageId id)], db, Diverged)
        ∧ Forall (fun ev => is_client_call ev = false) (events_of r))).
Proof.
  intros r id. subst r id. split.
  - intros Hcanned row Hrow.
    rewrite (canned_run _ _ _ _ _ _ _ _ Hcanned Hrow).
    rewrite events_of_run, !db_of_run.
    split; [reflexivity|]. split; [|split; [reflexivity|]].
    + rewrite !Forall_app, Forall_fmap. repeat split.
      * by repeat constructor.
      * by apply Forall_true.
      * by repeat constructor.
    + exists (set_reply row MODEL_IDENTITY_RESPONSE).
      split; [apply lookup_insert_eq|]. split; reflexivity.
  - intros Hcanned _. split.
    + intros Hloops.
      destruct (get_message_path_to_root_ends db (Message.id user_message)
                  Hloops) as [history Hhistory].
      destruct (upstream_calls_stream conversation_id payload conversation
                  config llm_client user_message db history Hcanned Hhistory)
        as [rest ->].
      exists (build_llm_messages history), (Config.temperature config).
      apply elem_of_cons. right. apply elem_of_cons. by left.
    + intros [Hnone _]%loops_never_ends.
      rewrite (upstream_never_called _ _ _ _ _ _ _ Hcanned Hnone).
      split; [reflexivity|]. rewrite events_of_run. by repeat constructor.
Qed.

(** C4. In the upstream branch, when the stream raises [LLMClientError]
    after some fragments, the run is: the [message_id] frame, the [delta]
    frames of those fragments, and one [error] frame; the function then
    returns. Nothing is written: the message that [create_message] made
    for the request is stored as it was made, without [assistant_reply].
    A stream that fails before its first fragment gives the frames
    [message_id], [error]. *)
Theorem upstream_failure (conversation_id : Z) (payload : LLMReplyRequest.t)
    (conversation : Conversation.t) (config : Config.t)
    (llm_client : OpenAICompatibleLLM) (user_message : Message.t)
    (db0 db : DB) (parent : option Z) (history : list Message.t)
    (fragments : list str) (msg : str) :
  create_message db0 conversation_id (LLMReplyRequest.content payload) None
    None parent None = Ok (user_message, db) →
  is_model_related_question lower (LLMReplyRequest.content payload) = false →
  get_message_path_to_root db (Message.id user_message) = Some history →
  stream json_loads network llm_client (build_llm_messages history)
    (Config.temperature config)
  = mkGen (JStr <$> fragments) (Some (LLMClientError msg)) →
  let r := _stream_llm_reply lower json_loads network conversation_id payload
             conversation config llm_client user_message db in
  let error := FrameError (py "LLM 请求失败: " ++ msg) in
  r = ([ Yield (FrameMessageId (Message.id user_message));
         CallStream (build_llm_messages history) (Config.temperature config) ]
         ++ ((fun d => Yield (FrameDelta d)) <$> fragments)
         ++ [Yield error],
       db, Done tt)
  ∧ frames (events_of r)
    = FrameMessageId (Message.id user_message)
        :: (FrameDelta <$> fragments) ++ [error]
  ∧ (fragments = [] →
     frames (events_of r) = [FrameMessageId (Message.id user_message); error])
  ∧ get_message (db_of r) (Message.id user_message) = Ok user_message
  ∧ Message.assistant_reply user_message = None
  ∧ Message.summary user_message = None.
Proof.
  intros Hcreate Hcanned Hhistory Hstream r error.
  assert (r = ([ Yield (FrameMessageId (Message.id user_message));
                 CallStream (build_llm_messages history)
                   (Config.temperature config) ]
                 ++ ((fun d => Yield (FrameDelta d)) <$> fragments)
                 ++ [Yield error],
               db, Done tt)) as ->.
  { subst r. etransitivity.
    { unfold _stream_llm_reply. rewrite Hcanned.
      eapply bind_Done_eq; [reflexivity|].
      eapply bind_Done_eq;
        [unfold call_get_message_path_to_root; rewrite Hhistory; reflexivity|].
      eapply bind_Done_eq; [apply relay_stream_fails, Hstream|].
      reflexivity. }
    cbn [app]. rewrite app_nil_r. reflexivity. }
  split; [reflexivity|]. rewrite events_of_run, db_of_run.
  assert (frames
            ([ Yield (FrameMessageId (Message.id user_message));
               CallStream (build_llm_messages history)
                 (Config.temperature config) ]
               ++ ((fun d => Yield (FrameDelta d)) <$> fragments)
               ++ [Yield error])
          = FrameMessageId (Message.id user_message)
              :: (FrameDelta <$> fragments) ++ [error]) as ->.
  { rewrite !frames_app, frames_deltas. reflexivity. }
  split; [reflexivity|]. split; [intros ->; reflexivity|].
  apply create_message_Ok in Hcreate as (-> & -> & _).
  split; [|split; reflexivity].
  unfold get_message. cbn [messages _row_to_message Message.id].
  rewrite lookup_insert_eq. reflexivity.
Qed.

Lemma updates_title_order (conversation : Conversation.t)
    (m1 m2 : Message.t) (candidate : str) :
  Message.order_index m1 = Message.order_index m2 →
  updates_title conversation m1 candidate
  = updates_title conversation m2 candidate.
Proof. unfold updates_title. by intros ->. Qed.

Lemma retitled_messages (db : DB) (conversation_id : Z)
    (conversation : Conversation.t) (user_message : Message.t)
    (candidate : str) :
  messages (retitled db conversation_id conversation user_message candidate)
  = messages db.
Proof. unfold retitled. by destruct (updates_title _ _ _). Qed.

Lemma retitled_conversation (db : DB) (conversation_id : Z)
    (conversation : Conversation.t) (user_message : Message.t)
    (candidate : str) (crow : ConversationRow.t) :
  conversations db !! conversation_id = Some crow →
  conversations (retitled db conversation_id conversation user_message candidate)
    !! conversation_id
  = Some (title_row conversation user_message candidate crow).
Proof.
  intros Hcrow. unfold retitled, title_row.
  destruct (updates_title _ _ _); [|done].
  unfold with_title. cbn [conversations].
  by rewrite lookup_alter, decide_True, Hcrow.
Qed.

Lemma frames_title_events (conversation_id : Z) (conversation : Conversation.t)
    (user_message : Message.t) (candidate : str) :
  frames (title_events conversation_id conversation user_message candidate) = [].
Proof. unfold title_events. by destruct (updates_title _ _ _). Qed.

Lemma derive_title_stored (conversation_id : Z) (payload : LLMReplyRequest.t)
    (conversation : Conversation.t) (summary_text : option str)
    (user_message : Message.t) (db : DB) (crow : ConversationRow.t) :
  conversations db !! conversation_id = Some crow →
  let candidate := title_candidate summary_text payload in
  derive_title conversation_id payload conversation summary_text user_message db
  = (title_events conversation_id conversation user_message candidate,
     retitled db conversation_id conversation user_message candidate,
     Done tt).
Proof.
  intros Hcrow candidate. rewrite derive_title_run.
  unfold title_events, retitled, updates_title. fold candidate.
  destruct (_ && _ && _); [|reflexivity]. by rewrite Hcrow.
Qed.

(** The steps after the reply when the summary request raises
    [LLMClientError]. *)
Lemma after_reply_failed (conversation_id : Z) (payload : LLMReplyRequest.t)
    (conversation : Conversation.t) (llm_client : OpenAICompatibleLLM)
    (id : Z) (row : Row.t) (db : DB) (crow : ConversationRow.t) (msg : str) :
  messages db !! id = Some row →
  conversations db !! conversation_id = Some crow →
  complete json_loads network llm_client (summary_prompt payload)
    summary_temperature = Raise (LLMClientError msg) →
  let content := strip (LLMReplyRequest.content payload) in
  let message := _row_to_message id row in
  after_reply json_loads network conversation_id payload conversation llm_client id row db
  = ([CallComplete (summary_prompt payload) summary_temperature]
       ++ title_events conversation_id conversation message content,
     retitled db conversation_id conversation message content,
     Done tt).
Proof.
  intros Hrow Hcrow Hcomplete content message. unfold after_reply.
  eapply bind_Done_eq.
  - rewrite (derive_summary_run _ _ (_row_to_message id row) _ _ Hrow).
    rewrite Hcomplete. reflexivity.
  - apply (derive_title_stored _ _ _ None _ _ _ Hcrow).
Qed.

(** The steps after the reply when the summary request returns the
    text [s]. *)
Lemma after_reply_summarized (conversation_id : Z)
    (payload : LLMReplyRequest.t) (conversation : Conversation.t)
    (llm_client : OpenAICompatibleLLM) (id : Z) (row : Row.t) (db : DB)
    (crow : ConversationRow.t) (completion : ChatCompletionResult.t)
    (s : str) :
  messages db !! id = Some row →
  conversations db !! conversation_id = Some crow →
  complete json_loads network llm_client (summary_prompt payload)
    summary_temperature = Ok completion →
  ChatCompletionChoice.content (ChatCompletionResult.choice completion)
  = JStr s →
  let content := strip (LLMReplyRequest.content payload) in
  let summary := take 255 (strip s) in
  after_reply json_loads network conversation_id payload conversation llm_client id row db
  = if nonempty (strip s) then
      let message := _row_to_message id (set_summary row summary) in
      ([CallComplete (summary_prompt payload) summary_temperature;
        CallUpdateMessage id None None (Some summary) None None]
         ++ title_events conversation_id conversation message summary,
       retitled (with_message db id (set_summary row summary)) conversation_id
         conversation message summary,
       Done tt)
    else
      let message := _row_to_message id row in
      ([CallComplete (summary_prompt payload) summary_temperature]
         ++ title_events conversation_id conversation message content,
       retitled db conversation_id conversation message content,
       Done tt).
Proof.
  intros Hrow Hcrow Hcomplete Hcontent content summary. unfold after_reply.
  destruct (nonempty (strip s)) eqn:Hnonempty.
  - eapply bind_Done_eq.
    + rewrite (derive_summary_run _ _ (_row_to_message id row) _ _ Hrow).
      rewrite Hcomplete, Hcontent, Hnonempty. reflexivity.
    + assert (title_candidate (Some summary) payload = summary) as Hcand.
      { unfold title_candidate, summary.
        destruct (strip s); [discriminate Hnonempty|reflexivity]. }
      cbv beta iota.
      rewrite (derive_title_stored _ _ _ (Some summary) _ _ crow) by exact Hcrow.
      cbv zeta. rewrite Hcand. reflexivity.
  - eapply bind_Done_eq.
    + rewrite (derive_summary_run _ _ (_row_to_message id row) _ _ Hrow).
      rewrite Hcomplete, Hcontent, Hnonempty. reflexivity.
    + assert (title_candidate (Some (strip s)) payload = content) as Hcand.
      { unfold title_candidate. rewrite Hnonempty. reflexivity. }
      cbv beta iota.
      rewrite (derive_title_stored _ _ _ (Some (strip s)) _ _ crow)
        by exact Hcrow.
      cbv zeta. rewrite Hcand. reflexivity.
Qed.

Lemma title_events_order (conversation_id : Z) (conversation : Conversation.t)
    (m1 m2 : Message.t) (candidate : str) :
  Message.order_index m1 = Message.order_index m2 →
  title_events conversation_id conversation m1 candidate
  = title_events conversation_id conversation m2 candidate.
Proof.
  intros H. unfold title_events. by rewrite (updates_title_order _ _ _ _ H).
Qed.

Lemma title_row_order (conversation : Conversation.t) (m1 m2 : Message.t)
    (candidate : str) (crow : ConversationRow.t) :
  Message.order_index m1 = Message.order_index m2 →
  title_row conversation m1 candidate crow
  = title_row conversation m2 candidate crow.
Proof.
  intros H. unfold title_row. by rewrite (updates_title_order _ _ _ _ H).
Qed.

(** C7. The run is the one [api_conversation_llm_reply] starts: for the
    conversation it has read from the database and the message it has
    stored, so that the title the run tests is the title stored, which
    nothing changes before the title step. After a stream that ended
    well: when the summary request raises [LLMClientError], the run still
    ends normally with the frames of a success, and the stored summary is
    untouched; the title candidate is then the stripped content. When the
    request returns text, the stripped text, if not empty, is cut to 255
    characters, stored as summary and taken as candidate, and otherwise
    the candidate is the stripped content. In both cases the title is set,
    to the candidate cut to 255 characters, exactly when the title stored
    is still a placeholder, the message has [order_index] 0 and the
    candidate is not empty. The texts written are ones that can be
    stored. *)
Theorem summary_and_title (conversation_id : Z) (payload : LLMReplyRequest.t)
    (conversation : Conversation.t) (config : Config.t)
    (llm_client : OpenAICompatibleLLM) (user_message : Message.t) (db : DB)
    (crow : ConversationRow.t) (history : list Message.t)
    (fragments : list str) :
  is_model_related_question lower (LLMReplyRequest.content payload) = false →
  get_message_path_to_root db (Message.id user_message) = Some history →
  stream json_loads network llm_client (build_llm_messages history)
    (Config.temperature config) = mkGen (JStr <$> fragments) None →
  get_message db (Message.id user_message) = Ok user_message →
  get_conversation db conversation_id = Ok conversation →
  conversations db !! conversation_id = Some crow →
  encodable (LLMReplyRequest.content payload) && encodable (concat fragments)
  = true →
  let r := _stream_llm_reply lower json_loads network conversation_id payload
             conversation config llm_client user_message db in
  let id := Message.id user_message in
  let request := CallComplete (summary_prompt payload) summary_temperature in
  let content := strip (LLMReplyRequest.content payload) in
  let completed :=
    complete json_loads network llm_client (summary_prompt payload)
      summary_temperature in
  Conversation.title conversation = ConversationRow.title crow
  ∧ (∀ candidate,
       updates_title conversation user_message candidate
       = bool_decide (ConversationRow.title crow ∈ [py "新对话"; []])
         && bool_decide (Message.order_index user_message = 0)
         && nonempty candidate)
  ∧ (∀ msg, completed = Raise (LLMClientError msg) →
     outcome_of r = Done tt
     ∧ frames (events_of r)
       = FrameMessageId id :: (FrameDelta <$> fragments) ++ [FrameDone]
     ∧ events_of r
       = reply_events config user_message history fragments ++ [request]
         ++ title_events conversation_id conversation user_message content
     ∧ (∃ row', messages (db_of r) !! id = Some row'
                ∧ Row.summary row' = Message.summary user_message)
     ∧ conversations (db_of r) !! conversation_id
       = Some (title_row conversation user_message content crow))
  ∧ (∀ completion s,
       completed = Ok completion →
       ChatCompletionChoice.content (ChatCompletionResult.choice completion)
       = JStr s →
       encodable s = true →
       let summary := take 255 (strip s) in
       let candidate := if nonempty (strip s) then summary else content in
       outcome_of r = Done tt
       ∧ events_of r
         = reply_events config user_message history fragments ++ [request]
           ++ (if nonempty (strip s)
               then [CallUpdateMessage id None None (Some summary) None None]
               else [])
           ++ title_events conversation_id conversation user_message candidate
       ∧ (∃ row', messages (db_of r) !! id = Some row'
                  ∧ Row.summary row'
                    = if nonempty (strip s) then Some summary
                      else Message.summary user_message)
       ∧ conversations (db_of r) !! conversation_id
         = Some (title_row conversation user_message candidate crow)).
Proof.
  intros Hcanned Hhistory Hstream Hmessage Hconversation Hcrow _
    r id request content completed.
  assert (Conversation.title conversation = ConversationRow.title crow)
    as Htitle.
  { unfold get_conversation in Hconversation. rewrite Hcrow in Hconversation.
    by injection Hconversation as <-. }
  split; [exact Htitle|]. split.
  { intros candidate. unfold updates_title, placeholder_title.
    by rewrite Htitle. }
  apply get_message_Ok in Hmessage as (row & Hrow & Hum).
  fold id in Hrow, Hum.
  subst r.
  rewrite (upstream_reply_run _ _ _ _ _ _ _ _ _ _ Hcanned Hhistory Hstream Hrow).
  fold id.
  set (row1 := set_reply row (strip (concat fragments))).
  set (db1 := with_message db id row1).
  assert (messages db1 !! id = Some row1) as Hrow1 by apply lookup_insert_eq.
  assert (conversations db1 !! conversation_id = Some crow) as Hcrow1
    by exact Hcrow.
  assert (∀ row', Row.order_index row' = Row.order_index row →
            Message.order_index (_row_to_message id row')
            = Message.order_index user_message) as Horder.
  { intros row' H. rewrite Hum. exact H. }
  assert (Message.summary user_message = Row.summary row) as Hsummary
    by (by rewrite Hum).
  split.
  - intros msg Hcomplete.
    rewrite (after_reply_failed _ _ _ _ _ _ _ _ _ Hrow1 Hcrow1 Hcomplete).
    rewrite !events_of_run, !db_of_run, outcome_of_run. fold content.
    rewrite (title_events_order _ _ _ user_message _ (Horder row1 eq_refl)).
    split; [reflexivity|]. split; [|split; [reflexivity|split]].
    + rewrite !frames_app, frames_reply_events, frames_title_events.
      cbn [frames omap app]. rewrite app_nil_r. reflexivity.
    + exists row1. rewrite retitled_messages. split; [exact Hrow1|].
      rewrite Hsummary. reflexivity.
    + rewrite (retitled_conversation _ _ _ _ _ _ Hcrow1).
      by rewrite (title_row_order _ _ user_message _ _ (Horder row1 eq_refl)).
  - intros completion s Hcomplete Hcontent _ summary candidate.
    rewrite (after_reply_summarized _ _ _ _ _ _ _ _ _ _ Hrow1 Hcrow1
               Hcomplete Hcontent).
    fold content summary. subst candidate.
    destruct (nonempty (strip s)); cbv zeta;
      rewrite !events_of_run, !db_of_run, outcome_of_run.
    + rewrite (title_events_order _ _ _ user_message _
                 (Horder (set_summary row1 summary) eq_refl)).
      split; [reflexivity|]. split; [reflexivity|split].
      * exists (set_summary row1 summary). rewrite retitled_messages.
        split; [apply lookup_insert_eq|reflexivity].
      * rewrite (retitled_conversation _ _ _ _ _ crow) by exact Hcrow.
        by rewrite (title_row_order _ _ user_message _ _
                      (Horder (set_summary row1 summary) eq_refl)).
    + rewrite (title_events_order _ _ _ user_message _ (Horder row1 eq_refl)).
      split; [reflexivity|]. split; [reflexivity|split].
      * exists row1. rewrite retitled_messages. split; [exact Hrow1|].
        rewrite Hsummary. reflexivity.
      * rewrite (retitled_conversation _ _ _ _ _ _ Hcrow1).
        by rewrite (title_row_order _ _ user_message _ _ (Horder row1 eq_refl)).
Qed.
End AppProperties.

(** * The statements on the sample data *)

Ltac evaluated := vm_compute; reflexivity.

Lemma sample_db1 :
  create_conversation Sample.db0 (py "新对话")
  = Ok (Sample.conversation, Sample.db1).
Proof. evaluated. Qed.

Lemma sample_db2 :
  create_message Sample.db1 1 (py "hello") None None None None
  = Ok (Sample.m1, Sample.db2).
Proof. evaluated. Qed.

Lemma sample_db3 :
  create_message Sample.db2 1 (py "and then?") None None (Some 1) None
  = Ok (Sample.m2, Sample.db3).
Proof. evaluated. Qed.

Lemma sample_db2_wf : db_wf Sample.db2.
Proof.
  apply (create_message_wf Sample.db1 Sample.db2 1 (py "hello") None None None
           None Sample.m1); [|exact sample_db2].
  apply (create_conversation_wf Sample.db0 Sample.db1 (py "新对话")
           Sample.conversation); [apply empty_db_wf|exact sample_db1].
Qed.

(** [create_message] accepts as parent the id the new message is about to
    get: the message stored is its own parent, and the walk from it does
    not end, whatever the number of iterations. *)
Lemma path_to_root_own_parent :
  create_message Sample.db1 1 (py "hello") None None (Some 1) None
  = Ok (_row_to_message 1 Sample.row_loop, Sample.db_loop)
  ∧ get_message Sample.db_loop 1 = Ok (_row_to_message 1 Sample.row_loop)
  ∧ loops Sample.db_loop 1
  ∧ get_message_path_to_root Sample.db_loop 1 = None
  ∧ (∀ fuel path, path_loop fuel Sample.db_loop (Some 1) path = None).
Proof.
  assert (loops Sample.db_loop 1) as Hloops.
  { exists 1. split; [done|]. apply tc_once. by exists Sample.row_loop. }
  split; [evaluated|]. split; [evaluated|]. split; [exact Hloops|].
  apply loops_never_ends, Hloops.
Qed.

(** A parent that is not stored ends the walk without an error. *)
Example path_to_root_orphan :
  get_message_path_to_root Sample.db_orphan 5
  = Some [_row_to_message 5 Sample.row_orphan].
Proof. evaluated. Qed.

(** The lines of an event stream: chunks, an empty line, a comment line, a
    chunk that is not JSON, the sentinel and a chunk after it. *)
Example iter_sse_sample :
  _iter_sse Sample.json_loads Sample.stream_lines_ABC None
  = mkGen [JStr Sample.A; JStr Sample.B; JStr Sample.C] None.
Proof. evaluated. Qed.

Example is_model_related_question_samples :
  is_model_related_question Sample.lower (py "Who are YOU?") = true
  ∧ is_model_related_question Sample.lower (py "你是谁") = true
  ∧ is_model_related_question Sample.lower (py "是不是该休息了") = true
  ∧ is_model_related_question Sample.lower (py "你是机器人吗??") = true
  ∧ is_model_related_question Sample.lower (py "hello") = false.
Proof. repeat split; evaluated. Qed.


(** The fragments A, B, C give the reply ["ABC"]. *)
Example fragments_ABC :
  strip (concat [Sample.A; Sample.B; Sample.C]) = py "ABC".
Proof. evaluated. Qed.

Lemma get_message_path_to_root_spec_witness :
  ∃ path,
    get_message_path_to_root Sample.db3 2 = Some path
    ∧ last path = Some Sample.m2
    ∧ (∀ i a b, path !! i = Some a → path !! S i = Some b →
                Message.parent_id b = Some (Message.id a))
    ∧ (∀ a, a ∈ path → get_message Sample.db3 (Message.id a) = Ok a)
    ∧ (∀ r, head path = Some r →
            Message.parent_id r = None
            ∨ ∃ p, Message.parent_id r = Some p
                   ∧ messages Sample.db3 !! p = None)
    ∧ (Message.parent_id Sample.m2 = None → path = [Sample.m2]).
Proof.
  apply (get_message_path_to_root_spec Sample.db3 2 Sample.m2).
  - apply acyclic_no_loops, parents_below_acyclic. evaluated.
  - evaluated.
Defined.

Lemma canned_identity_witness :
  let r := _stream_llm_reply Sample.lower Sample.json_loads Sample.network 1
             Sample.who Sample.conversation Sample.config Sample.llm_client
             Sample.m1 Sample.db2 in
  let r' := _stream_llm_reply Sample.lower Sample.json_loads Sample.network 1
              Sample.hello Sample.conversation Sample.config Sample.llm_client
              Sample.m1 Sample.db2 in
  (Forall (fun ev => is_client_call ev = false) (events_of r)
   ∧ conversations (db_of r) = conversations Sample.db2
   ∧ ∃ row', messages (db_of r) !! Message.id Sample.m1 = Some row'
             ∧ Row.assistant_reply row' = Some MODEL_IDENTITY_RESPONSE
             ∧ Row.summary row' = Row.summary Sample.row1)
  ∧ ∃ messages temperature, CallStream messages temperature ∈ events_of r'.
Proof.
  intros r r'. split.
  - destruct (canned_identity Sample.lower Sample.json_loads Sample.network 1
                Sample.who Sample.conversation Sample.config Sample.llm_client
                Sample.m1 Sample.db2) as [Hcanned _].
    destruct (Hcanned ltac:(evaluated) Sample.row1 ltac:(evaluated))
      as (_ & Hcalls & Hconv & Hstored).
    split; [exact Hcalls|]. split; [exact Hconv|exact Hstored].
  - destruct (canned_identity Sample.lower Sample.json_loads Sample.network 1
                Sample.hello Sample.conversation Sample.config Sample.llm_client
                Sample.m1 Sample.db2) as [_ Hupstream].
    apply Hupstream; [evaluated|unfold int64; cbn; lia|].
    apply acyclic_no_loops, parents_below_acyclic. evaluated.
Defined.

(** A reply asked for under the id the new message is about to get: the
    request is admitted, no rule of the canned answer matches its content,
    and the run writes the [message_id] frame and stays in the walk to the
    root; the client is never called. *)
Lemma reply_under_itself :
  let r := _stream_llm_reply Sample.lower Sample.json_loads Sample.network 1
             Cases.under_itself Sample.conversation
             (_row_to_config Cases.config_row) Sample.llm_client
             (_row_to_message 3 Cases.row_itself) Cases.db_itself in
  is_model_related_question Sample.lower
    (LLMReplyRequest.content Cases.under_itself) = false
  ∧ api_conversation_llm_reply Sample.lower Sample.json_loads Sample.network
      Cases.db_ready 1 Cases.under_itself
    = Returned r
  ∧ r = ([Yield (FrameMessageId 3)], Cases.db_itself, Diverged)
  ∧ Forall (fun ev => is_client_call ev = false) (events_of r)
  ∧ (∀ fuel path, path_loop fuel Cases.db_itself (Some 3) path = None).
Proof.
  intros r. split; [evaluated|]. split; [evaluated|]. split; [evaluated|].
  split; [by repeat constructor|].
  apply loops_never_ends. exists 3. split; [done|].
  apply tc_once. by exists Cases.row_itself.
Qed.

Lemma upstream_failure_witness :
  let r := _stream_llm_reply Sample.lower Sample.json_loads
             Sample.network_breaking 1 Sample.hello Sample.conversation
             Sample.config Sample.llm_client Sample.m1 Sample.db2 in
  let error :=
    FrameError (py "LLM 请求失败: "
                  ++ py "LLM provider request failed: peer closed connection") in
  frames (events_of r)
  = FrameMessageId (Message.id Sample.m1)
      :: (FrameDelta <$> [Sample.A]) ++ [error]
  ∧ get_message (db_of r) (Message.id Sample.m1) = Ok Sample.m1
  ∧ Message.assistant_reply Sample.m1 = None.
Proof.
  intros r error.
  destruct (upstream_failure Sample.lower Sample.json_loads
              Sample.network_breaking 1 Sample.hello Sample.conversation
              Sample.config Sample.llm_client Sample.m1 Sample.db1 Sample.db2
              None [Sample.m1] [Sample.A]
              (py "LLM provider request failed: peer closed connection"))
    as (_ & Hframes & _ & Hstored & Hreply & _); [evaluated..|].
  split; [exact Hframes|]. split; [exact Hstored|exact Hreply].
Defined.

(** A stream that fails before its first fragment. *)
Example failure_before_first_fragment :
  frames (events_of (_stream_llm_reply Sample.lower Sample.json_loads
                       Sample.network_down 1 Sample.hello Sample.conversation
                       Sample.config Sample.llm_client Sample.m1 Sample.db2))
  = [ FrameMessageId 1;
      FrameError (py "LLM 请求失败: "
                    ++ py "LLM provider request failed: connection refused") ].
Proof. evaluated. Qed.

(** The largest index of the sample thread is 1. *)
Lemma sample_max_order_index : max_order_index Sample.db3 1 1.
Proof.
  split.
  - exists 2, Sample.row2. repeat split; evaluated.
  - intros id row Hrow Hc.
    unfold Sample.db3 in Hrow. cbn [messages] in Hrow.
    apply lookup_insert_Some in Hrow as [[_ <-]|[_ Hrow]]; [done|].
    apply lookup_singleton_Some in Hrow as [_ <-]. done.
Qed.

Lemma sample_no_messages : no_messages Sample.db1 1.
Proof. intros id row Hrow. vm_compute in Hrow. discriminate Hrow. Qed.

Lemma sample_room (c : Z) (n : nat) : (n ≤ 5)%nat → room Sample.db1 c n.
Proof.
  intros Hn. split.
  - change (autoincrement (messages Sample.db1) (messages_seq Sample.db1))
      with 1. lia.
  - rewrite next_order_index_empty; [lia|].
    intros id row Hrow. vm_compute in Hrow. discriminate Hrow.
Qed.

Lemma sample_requests_bindable : Forall bindable sample_requests.
Proof.
  unfold sample_requests.
  repeat first [apply Forall_nil_2 | apply Forall_cons_2].
  all: split; [unfold int64; cbn [fst snd]; lia|]; split; [evaluated|].
  all: cbn [fst snd]; intros p Hp; try discriminate Hp.
  all: injection Hp as <-; unfold int64; lia.
Qed.

(** One more message in the sample thread gets the index 2, the first
    message of a conversation 0, and three requests in a fresh
    conversation get 0, 1 and 2; the indexes of a batch in which some
    requests fail have no gap either. *)
Lemma create_message_order_index_witness :
  (∃ m db',
     create_message Sample.db3 1 (py "more") None None (Some 2) None
     = Ok (m, db')
     ∧ Message.order_index m = 1 + 1)
  ∧ (Message.order_index Sample.m1 = 0)
  ∧ (assigned 1 (create_messages Sample.db1 sample_requests).1
     = Z.of_nat
         <$> seq 0 (length (assigned 1
                              (create_messages Sample.db1 sample_requests).1)))
  ∧ length (create_messages Sample.db1 root_requests).1 = 3%nat
  ∧ assigned 1 (create_messages Sample.db1 root_requests).1
    = Z.of_nat <$> seq 0 3.
Proof.
  split; [|split; [|split]].
  - destruct (create_message_order_index Sample.db3 1 (py "more") None
                (Some 2) None []) as (Hindex & Hmade & _); [by eexists|].
    destruct Hmade as (m & db' & Hcreate).
    { intros p [= <-]. by eexists. }
    { evaluated. }
    { split; vm_compute; discriminate. }
    exists m, db'. split; [exact Hcreate|].
    apply (Hindex m db' Hcreate), sample_max_order_index.
  - destruct (create_message_order_index Sample.db1 1 (py "hello") None
                None None []) as (Hindex & _); [by eexists|].
    apply (Hindex Sample.m1 Sample.db2 sample_db2), sample_no_messages.
  - destruct (create_message_order_index Sample.db1 1 (py "hello") None
                None None sample_requests) as (_ & _ & Hbatch & _);
      [by eexists|].
    apply Hbatch.
    + exact sample_no_messages.
    + exact sample_requests_bindable.
    + intros c'. apply sample_room. simpl. lia.
  - destruct (create_message_order_index Sample.db1 1 (py "hello") None
                None None root_requests) as (_ & _ & _ & Hbatch);
      [by eexists|].
    apply Hbatch.
    + exact sample_no_messages.
    + repeat constructor; intros p Hp; discriminate Hp.
    + apply sample_room. simpl. lia.
Defined.

(** The indexes given out by the sample batch. *)
Example create_messages_sample :
  assigned 1 (create_messages Sample.db1 sample_requests).1 = [0; 1; 2].
Proof. evaluated. Qed.

(** One more message in a conversation whose largest index is 1. *)
Example create_message_after_max :
  max_order_index Sample.db3 1 1
  ∧ ∃ m db',
      create_message Sample.db3 1 (py "more") None None (Some 2) None
      = Ok (m, db')
      ∧ Message.order_index m = 2.
Proof.
  split; [exact sample_max_order_index|].
  eexists _, _. split; evaluated.
Qed.

Lemma stream_error_status_witness :
  stream Sample.json_loads Sample.network_500 Sample.llm_client
    (build_llm_messages [Sample.m1]) Sample.one
  = mkGen [] (Some ResponseNotRead)
  ∧ next (stream Sample.json_loads Sample.network_500 Sample.llm_client
            (build_llm_messages [Sample.m1]) Sample.one)
    = Raised ResponseNotRead.
Proof.
  apply (stream_error_status Sample.json_loads Sample.network_500
           Sample.llm_client (build_llm_messages [Sample.m1]) Sample.one
           (mkPayload (py "gpt-3.5-turbo") (build_llm_messages [Sample.m1])
              Sample.one true)).
  - evaluated.
  - evaluated.
  - vm_compute. intros [_ H]. apply H. reflexivity.
Defined.

(** The reply pipeline on that answer: the exception is not the one the
    relay loop catches, and no [error] frame is written. *)
Example reply_on_error_status :
  _stream_llm_reply Sample.lower Sample.json_loads Sample.network_500 1
    Sample.hello Sample.conversation Sample.config Sample.llm_client
    Sample.m1 Sample.db2
  = ([ Yield (FrameMessageId 1);
       CallStream (build_llm_messages [Sample.m1]) Sample.one ],
     Sample.db2, Crashed ResponseNotRead).
Proof. evaluated. Qed.

Lemma summary_and_title_witness :
  let r := _stream_llm_reply Sample.lower Sample.json_loads
             Sample.network_no_summary 1 Sample.hello Sample.conversation
             Sample.config Sample.llm_client Sample.m1 Sample.db2 in
  outcome_of r = Done tt
  ∧ frames (events_of r)
    = FrameMessageId (Message.id Sample.m1)
        :: (FrameDelta <$> [Sample.A; Sample.B; Sample.C]) ++ [FrameDone]
  ∧ (∃ row', messages (db_of r) !! Message.id Sample.m1 = Some row'
             ∧ Row.summary row' = Message.summary Sample.m1)
  ∧ conversations (db_of r) !! 1
    = Some (title_row Sample.conversation Sample.m1
              (strip (LLMReplyRequest.content Sample.hello))
              (ConversationRow.mk (py "新对话") Sample.now)).
Proof.
  intros r.
  destruct (summary_and_title Sample.lower Sample.json_loads
              Sample.network_no_summary 1 Sample.hello Sample.conversation
              Sample.config Sample.llm_client Sample.m1 Sample.db2
              (ConversationRow.mk (py "新对话") Sample.now) [Sample.m1]
              [Sample.A; Sample.B; Sample.C])
    as (_ & _ & Hfailed & _); [evaluated..|].
  destruct (Hfailed (py "LLM provider returned 503: overloaded")
              ltac:(evaluated))
    as (Hout & Hframes & _ & Hsummary & Htitle).
  split; [exact Hout|]. split; [exact Hframes|].
  split; [exact Hsummary|exact Htitle].
Defined.

(** A title that is no placeholder is kept, also after the first message
    of the conversation. *)
Example title_kept :
  conversations
    (db_of (_stream_llm_reply Sample.lower Sample.json_loads Sample.network 1
              Sample.hello (Conversation.mk 1 (py "renamed") Sample.now)
              Sample.config Sample.llm_client Sample.m1 Cases.db3_titled)) !! 1
  = Some (ConversationRow.mk (py "renamed") Sample.now).
Proof. evaluated. Qed.

(** The title of a fresh conversation after its first message: the summary
    when the request for it succeeds, the stripped content when it fails
    with [LLMClientError]. *)
Example title_from_summary :
  conversations
    (db_of (_stream_llm_reply Sample.lower Sample.json_loads Sample.network 1
              Sample.hello Sample.conversation Sample.config Sample.llm_client
              Sample.m1 Sample.db2)) !! 1
  = Some (ConversationRow.mk Sample.gist Sample.now).
Proof. evaluated. Qed.

Example title_from_content :
  conversations
    (db_of (_stream_llm_reply Sample.lower Sample.json_loads
              Sample.network_no_summary 1 Sample.hello Sample.conversation
              Sample.config Sample.llm_client Sample.m1 Sample.db2)) !! 1
  = Some (ConversationRow.mk (py "hello") Sample.now).
Proof. evaluated. Qed.

(** A summary request that fails with another exception than
    [LLMClientError] is not swallowed: here the answer has status 200 and
    is not JSON, [complete] raises [JSONDecodeError], and the run ends with
    that exception after the [done] frame, without the title step. *)
Lemma summary_failure_not_swallowed :
  let r := _stream_llm_reply Sample.lower Sample.json_loads
             Sample.network_garbled_summary 1 Sample.hello Sample.conversation
             Sample.config Sample.llm_client Sample.m1 Sample.db2 in
  complete Sample.json_loads Sample.network_garbled_summary Sample.llm_client
    (summary_prompt Sample.hello) summary_temperature
  = Raise JSONDecodeError
  ∧ frames (events_of r)
    = [ FrameMessageId 1; FrameDelta Sample.A; FrameDelta Sample.B;
        FrameDelta Sample.C; FrameDone ]
  ∧ outcome_of r = Crashed JSONDecodeError
  ∧ outcome_of r ≠ Done tt
  ∧ conversations (db_of r) !! 1
    = Some (ConversationRow.mk (py "新对话") Sample.now).
Proof.
  intros r. repeat split; try evaluated.
  vm_compute. discriminate.
Qed.

Lemma create_message_missing_conversation_witness :
  ∃ msg,
    create_message Sample.db0 1 (py "hello") None None None None
    = Raise (IntegrityError msg)
    ∧ is_ValueError (IntegrityError msg) = false
    ∧ api_create_message Sample.db0 1 (MessageCreate.mk (py "hello"))
      = (Unhandled (IntegrityError msg), Sample.db0).
Proof.
  apply (create_message_missing_conversation Sample.db0 1 (py "hello")).
  evaluated.
Defined.

Example api_create_message_sample :
  api_create_message Sample.db0 1 (MessageCreate.mk (py "hello"))
  = (Unhandled (IntegrityError (py "FOREIGN KEY constraint failed")),
     Sample.db0).
Proof. evaluated. Qed.

Lemma update_message_idempotent_witness :
  update_message Sample.db2 1 (Some (py "hello")) (Some 0) None None None
  = Ok (_row_to_message 1 Sample.row1, Sample.db2)
  ∧ (∀ m db',
       update_message Sample.db2 1 (Some (py "hello")) (Some 0) None None None
       = Ok (m, db') →
       update_message db' 1 (Some (py "hello")) (Some 0) None None None
       = Ok (m, db'))
  ∧ update_message Sample.db2 1 None None None None None
    = Raise (ValueError
               (py "At least one field must be provided to update_message")).
Proof.
  destruct (update_message_idempotent Sample.db2 1 Sample.row1
              (Some (py "hello")) (Some 0) None None None sample_db2_wf)
    as (Hcurrent & Htwice & Hnone); [evaluated|].
  split; [|split; [exact Htwice|exact Hnone]].
  apply Hcurrent; [evaluated|].
  repeat split; intros v [= <-]; evaluated.
Defined.

(** An update that changes the row, applied twice. *)
Example update_message_twice :
  ∃ m db',
    update_message Sample.db2 1 None None (Some (py "greeting")) None
      (Some (py "hi"))
    = Ok (m, db')
    ∧ update_message db' 1 None None (Some (py "greeting")) None (Some (py "hi"))
      = Ok (m, db').
Proof. eexists _, _. split; evaluated. Qed.

Lemma get_message_path_to_root_missing_witness :
  get_message_path_to_root Sample.db2 42 = Some []
  ∧ api_get_message_path_to_root Sample.db2 42 = Some (Returned []).
Proof.
  apply (get_message_path_to_root_missing Sample.db2 42);
    [unfold int64; lia|evaluated].
Defined.

(** * Deleting *)

Lemma delete_rows_nil (left : nat) (table : gmap Z Row.t) :
  delete_rows left [] table = Some table.
Proof. by destruct left. Qed.

Lemma delete_rows_cons (left : nat) (id : Z) (ids : list Z)
    (table : gmap Z Row.t) :
  delete_rows left (id :: ids) table =
  match table !! id with
  | None => delete_rows left ids table
  | Some _ =>
      match left with
      | O => None
      | S left' =>
          table' ← delete_rows left' (children (delete id table) id)
                     (delete id table);
          delete_rows left ids table'
      end
  end.
Proof. by destruct left. Qed.

Lemma elem_of_by_rowid (ids : list Z) (x : Z) : x ∈ by_rowid ids ↔ x ∈ ids.
Proof. unfold by_rowid. by rewrite merge_sort_Permutation. Qed.

Lemma elem_of_children (table : gmap Z Row.t) (id x : Z) :
  x ∈ children table id ↔ parent_in table x id.
Proof.
  unfold children, parent_in. rewrite elem_of_by_rowid, list_elem_of_fmap. split.
  - intros ([x' row] & -> & [Hp Hrow%elem_of_map_to_list]%list_elem_of_filter).
    eauto.
  - intros (row & Hrow & Hp). exists (x, row). split; [done|].
    apply list_elem_of_filter. split; [done|]. by apply elem_of_map_to_list.
Qed.

Lemma parent_in_weaken (t t' : gmap Z Row.t) (x p : Z) :
  t' ⊆ t → parent_in t' x p → parent_in t x p.
Proof.
  intros Hsub (row & Hrow & Hp). exists row. split; [|done].
  by eapply lookup_weaken.
Qed.

Lemma under_weaken (t t' : gmap Z Row.t) (x id : Z) :
  t' ⊆ t → rtc (parent_in t') x id → rtc (parent_in t) x id.
Proof.
  intros Hsub. induction 1 as [|x y z Hxy _ IH]; [done|].
  eapply rtc_l; [|exact IH]. by eapply parent_in_weaken.
Qed.

(** What a [DELETE] that ends has removed: the rows selected; with a row
    its children; and nothing but rows below the ones selected. *)
Lemma delete_rows_Some (left : nat) (ids : list Z) (t t' : gmap Z Row.t) :
  delete_rows left ids t = Some t' →
  t' ⊆ t
  ∧ (∀ id, id ∈ ids → t' !! id = None)
  ∧ (∀ x p, is_Some (t !! p) → t' !! p = None → ¬ parent_in t' x p)
  ∧ (∀ x, is_Some (t !! x) → t' !! x = None →
          ∃ id, id ∈ ids ∧ rtc (parent_in t) x id).
Proof.
  revert ids t t'. induction left as [|left IHl];
    (induction ids as [|id ids IHi]; intros t t';
     [rewrite delete_rows_nil; intros [= <-]; split_and!;
      [done | by intros ? ?%elem_of_nil | intros x p [? ?]; congruence
      | intros x [? ?]; congruence]|]);
    rewrite delete_rows_cons; destruct (t !! id) as [row|] eqn:Hid; try done.
  - intros (Hsub & Hgone & Hclosed & Hbelow)%IHi. split_and!; try done.
    + intros i [->|Hi]%elem_of_cons; [by eapply lookup_weaken_None|by apply Hgone].
    + intros x Hx Hx'. destruct (Hbelow x Hx Hx') as (i & Hi & Hrtc).
      exists i. split; [by right|done].
  - destruct (delete_rows left _ _) as [t2|] eqn:Hdown; [|done]. cbn.
    intros (Hsub & Hgone & Hclosed & Hbelow)%IHi.
    apply IHl in Hdown as (Hsub2 & Hgone2 & Hclosed2 & Hbelow2).
    assert (t2 ⊆ t) as Hsub2'
      by (etrans; [exact Hsub2|apply delete_subseteq]).
    assert (t2 !! id = None) as Hid2
      by (eapply lookup_weaken_None; [apply lookup_delete_eq|done]).
    split_and!.
    + by etrans.
    + intros i [->|Hi]%elem_of_cons; [by eapply lookup_weaken_None|by apply Hgone].
    + intros x p Hp Hp' Hchild.
      destruct (t2 !! p) as [r2|] eqn:Hp2; [by eapply Hclosed; eauto|].
      apply (parent_in_weaken t2) in Hchild; [|done].
      destruct (decide (p = id)) as [->|Hne].
      * pose proof Hchild as (rx & Hrx & _).
        rewrite Hgone2 in Hrx; [done|].
        apply elem_of_children. by eapply parent_in_weaken.
      * eapply Hclosed2; [|exact Hp2|exact Hchild].
        by rewrite lookup_delete_ne.
    + intros x Hx Hx'.
      destruct (t2 !! x) as [r2|] eqn:Hx2.
      { destruct (Hbelow x) as (i & Hi & Hrtc); [eauto|done|].
        exists i. split; [by right|]. by eapply under_weaken. }
      destruct (decide (x = id)) as [->|Hne].
      { exists id. split; [left|done]. }
      destruct (Hbelow2 x) as (c & Hc%elem_of_children & Hrtc);
        [by rewrite lookup_delete_ne|done|].
      exists id. split; [left|].
      eapply rtc_r.
      * eapply under_weaken; [|exact Hrtc]. apply delete_subseteq.
      * eapply parent_in_weaken; [|exact Hc]. apply delete_subseteq.
  - intros (Hsub & Hgone & Hclosed & Hbelow)%IHi. split_and!; try done.
    + intros i [->|Hi]%elem_of_cons; [by eapply lookup_weaken_None|by apply Hgone].
    + intros x Hx Hx'. destruct (Hbelow x Hx Hx') as (i & Hi & Hrtc).
      exists i. split; [by right|done].
Qed.

Lemma delete_rows_under (left : nat) (ids : list Z) (t t' : gmap Z Row.t)
    (x id : Z) :
  delete_rows left ids t = Some t' → id ∈ ids → is_Some (t !! id) →
  rtc (parent_in t) x id → t' !! x = None.
Proof.
  intros (Hsub & Hgone & Hclosed & _)%delete_rows_Some Hid Hstored.
  revert x. apply (rtc_ind_l (fun x => t' !! x = None)); [by apply Hgone|].
  intros x y Hxy Hyz IH.
  destruct Hxy as (row & Hrow & Hp).
  destruct (t' !! x) as [row'|] eqn:Hx; [|done]. exfalso.
  assert (row' = row) as ->
    by (pose proof (lookup_weaken _ _ _ _ Hx Hsub); congruence).
  apply (Hclosed x y); [|done|by exists row].
  apply rtc_inv in Hyz as [->|(w & (rw & Hrw & _) & _)]; eauto.
Qed.

Lemma delete_rows_others (left : nat) (ids : list Z) (t t' : gmap Z Row.t)
    (x : Z) :
  delete_rows left ids t = Some t' →
  (∀ id, id ∈ ids → ¬ rtc (parent_in t) x id) → t' !! x = t !! x.
Proof.
  intros (Hsub & _ & _ & Hbelow)%delete_rows_Some Hnot.
  destruct (t !! x) as [row|] eqn:Hx; [|by eapply lookup_weaken_None].
  destruct (t' !! x) as [row'|] eqn:Hx'.
  - pose proof (lookup_weaken _ _ _ _ Hx' Hsub). congruence.
  - destruct (Hbelow x) as (id & Hid & Hrtc); [eauto|done|].
    by destruct (Hnot id Hid).
Qed.

(** The foreign key on [parent_id] and the unique index outlive a
    [DELETE]. *)
Lemma delete_rows_keeps (left : nat) (ids : list Z) (db : DB)
    (t' : gmap Z Row.t) (convs : gmap Z ConversationRow.t) :
  delete_rows left ids (messages db) = Some t' →
  let db' := mkDB convs (conversations_seq db) t' (messages_seq db)
                  (configs db) (CURRENT_TIMESTAMP db) in
  unique_order_index db → parents_stored db →
  unique_order_index db' ∧ parents_stored db'.
Proof.
  intros (Hsub & _ & Hclosed & _)%delete_rows_Some db' Hu Hp. split.
  - intros i j r1 r2 H1 H2. apply Hu; by eapply lookup_weaken.
  - intros i r p Hr Hpar. cbn [messages db'] in *.
    destruct (t' !! p) as [rp|] eqn:Hrp; [eauto|]. exfalso.
    apply (Hclosed i p); [|done|by exists r].
    eapply Hp; [|done]. by eapply lookup_weaken.
Qed.

Lemma delete_rows_enough (left : nat) (ids : list Z) (t : gmap Z Row.t) :
  (size t ≤ left)%nat → is_Some (delete_rows left ids t).
Proof.
  revert ids t. induction left as [|left IHl];
    (induction ids as [|id ids IHi]; intros t Hsize;
     [rewrite delete_rows_nil; eauto|]);
    rewrite delete_rows_cons; destruct (t !! id) as [row|] eqn:Hid; eauto.
  - apply Nat.le_0_r, map_size_empty_iff in Hsize. subst.
    by rewrite lookup_empty in Hid.
  - destruct (IHl (children (delete id t) id) (delete id t)) as [t2 Ht2].
    { rewrite map_size_delete_Some by eauto. lia. }
    rewrite Ht2. cbn. apply IHi.
    apply delete_rows_Some in Ht2 as (Hsub & _).
    etrans; [apply map_subseteq_size; exact Hsub|].
    etrans; [apply map_subseteq_size, delete_subseteq|done].
Qed.

(** ** Walks that two stores agree on *)

Lemma path_loop_agree (db db' : DB) (P : Z → Prop) :
  (∀ x, P x → messages db' !! x = messages db !! x) →
  (∀ x row p, P x → messages db !! x = Some row → Row.parent_id row = Some p →
              P p) →
  ∀ fuel x path, P x →
    path_loop fuel db' (Some x) path = path_loop fuel db (Some x) path.
Proof.
  intros Hsame Hup. induction fuel as [|fuel IH]; intros x path Hx; [done|].
  simpl. unfold get_message. rewrite (Hsame x Hx).
  destruct (messages db !! x) as [row|] eqn:Hrow; [|done].
  cbn [_row_to_message Message.parent_id].
  destruct (Row.parent_id row) as [p|] eqn:Hp; [|by destruct fuel].
  apply IH. by eapply Hup.
Qed.

Lemma path_loop_enough (db : DB) (fuel : nat) (current_id : option Z)
    (path result : list Message.t) :
  path_loop fuel db current_id path = Some result →
  path_loop (S (size (messages db))) db current_id path = Some result.
Proof.
  intros (l & -> & Hl)%path_loop_sound.
  apply path_loop_complete; [done|]. apply up_chain_length in Hl. lia.
Qed.

Lemma get_message_path_to_root_agree (db db' : DB) (P : Z → Prop) (x : Z) :
  (∀ x, P x → messages db' !! x = messages db !! x) →
  (∀ x row p, P x → messages db !! x = Some row → Row.parent_id row = Some p →
              P p) →
  P x →
  get_message_path_to_root db' x = get_message_path_to_root db x.
Proof.
  intros Hsame Hup Hx. unfold get_message_path_to_root.
  pose proof (path_loop_agree db db' P Hsame Hup) as Hagree.
  destruct (path_loop (S (size (messages db))) db (Some x) []) as [l|] eqn:E.
  - rewrite <- Hagree in E by done. by rewrite (path_loop_enough _ _ _ _ _ E).
  - destruct (path_loop (S (size (messages db'))) db' (Some x) []) as [l|] eqn:E';
      [|done].
    rewrite Hagree in E' by done.
    rewrite (path_loop_enough _ _ _ _ _ E') in E. done.
Qed.

Lemma path_loop_acc (db : DB) (fuel : nat) (current_id : option Z)
    (path : list Message.t) :
  path_loop fuel db current_id path
  = (path ++.) <$> path_loop fuel db current_id [].
Proof.
  revert current_id path. induction fuel as [|fuel IH]; intros [id|] path; simpl;
    try done; try (by rewrite app_nil_r).
  destruct (get_message db id) as [m|e]; simpl; [|by rewrite app_nil_r].
  rewrite (IH _ (path ++ [m])), (IH _ [m]).
  destruct (path_loop fuel db (Message.parent_id m) []) as [l|]; simpl; [|done].
  by rewrite <- app_assoc.
Qed.

(** ** [delete_message] *)

Lemma delete_message_Deleted (db db' : DB) (id : Z) :
  delete_message db id = Deleted db' →
  ∃ t', delete_rows SQLITE_MAX_TRIGGER_DEPTH [id] (messages db) = Some t'
        ∧ db' = mkDB (conversations db) (conversations_seq db) t'
                     (messages_seq db) (configs db) (CURRENT_TIMESTAMP db).
Proof.
  unfold delete_message. destruct (delete_rows _ _ _) as [t'|]; [|done].
  intros [= <-]. eauto.
Qed.

(** X1. [delete_message] on a stored message removes that message and
    every message below it in the tree, and nothing else: the other
    messages, the conversations and the configuration stay as they are. *)
Theorem delete_message_subtree (db db' : DB) (id : Z) :
  is_Some (messages db !! id) →
  delete_message db id = Deleted db' →
  (∀ x, under db x id → messages db' !! x = None)
  ∧ (∀ x, ¬ under db x id → messages db' !! x = messages db !! x)
  ∧ conversations db' = conversations db
  ∧ configs db' = configs db.
Proof.
  intros Hid (t' & Hrows & ->)%delete_message_Deleted. cbn [messages].
  split_and!; [| |done..].
  - intros x Hx. eapply delete_rows_under; [exact Hrows|left|done|exact Hx].
  - intros x Hx. eapply delete_rows_others; [exact Hrows|].
    by intros i ->%list_elem_of_singleton.
Qed.

(** X2. What the schema promises of the [messages] table outlives
    [delete_message]: no message is left whose parent is gone. *)
Theorem delete_message_wf (db db' : DB) (id : Z) :
  db_wf db → delete_message db id = Deleted db' → db_wf db'.
Proof.
  intros [Hu Hp Hc] (t' & Hrows & ->)%delete_message_Deleted.
  destruct (delete_rows_keeps _ _ _ _ (conversations db) Hrows Hu Hp) as [Hu' Hp'].
  split; [done..|].
  intros i r Hr. cbn [messages conversations] in *. eapply Hc.
  apply delete_rows_Some in Hrows as (Hsub & _). by eapply lookup_weaken.
Qed.

(** X3. For an id that can be bound, [delete_message] ends without an
    error on a store of at most a thousand messages and for an id that
    names no message, whatever the size of the store; in the second case
    it changes nothing. *)
Theorem delete_message_ends (db : DB) (id : Z) :
  int64 id →
  (size (messages db) ≤ SQLITE_MAX_TRIGGER_DEPTH)%nat
  ∨ messages db !! id = None →
  ∃ db', delete_message db id = Deleted db'
         ∧ (messages db !! id = None → db' = db).
Proof.
  assert (messages db !! id = None → delete_message db id = Deleted db) as Hmissing.
  { intros Hnone. unfold delete_message.
    rewrite delete_rows_cons, Hnone, delete_rows_nil. by rewrite db_eta. }
  intros _ [Hsize|Hnone].
  - unfold delete_message.
    destruct (delete_rows_enough _ [id] _ Hsize) as [t' Ht']. rewrite Ht'.
    eexists. split; [done|]. intros Hnone.
    specialize (Hmissing Hnone). unfold delete_message in Hmissing.
    rewrite Ht' in Hmissing. by injection Hmissing.
  - exists db. split; [by apply Hmissing|done].
Qed.

(** X4. The messages [delete_message] leaves keep their path to the root. *)
Theorem delete_message_paths (db db' : DB) (id x : Z) :
  delete_message db id = Deleted db' → ¬ under db x id →
  get_message_path_to_root db' x = get_message_path_to_root db x.
Proof.
  intros (t' & Hrows & ->)%delete_message_Deleted Hx.
  apply (get_message_path_to_root_agree _ _ (fun x => ¬ under db x id));
    [| |done].
  - intros y Hy. cbn [messages]. eapply delete_rows_others; [exact Hrows|].
    by intros i ->%list_elem_of_singleton.
  - intros y row p Hy Hrow Hp Hunder. apply Hy.
    eapply rtc_l; [|exact Hunder]. by exists row.
Qed.

(** ** [delete_conversation] *)

Lemma elem_of_conversation_ids (db : DB) (c y : Z) :
  y ∈ by_rowid (messages_of db c).*1 ↔
  ∃ row, messages db !! y = Some row ∧ Row.conversation_id row = c.
Proof.
  rewrite elem_of_by_rowid, list_elem_of_fmap. split.
  - intros ([y' row] & -> & H%elem_of_messages_of). eauto.
  - intros (row & Hrow & Hc). exists (y, row). split; [done|].
    by apply elem_of_messages_of.
Qed.

(** X5. [delete_conversation] removes the conversation, its messages and
    every message below one of them, whatever conversation that one
    belongs to; the rest stays, and what the schema promises of the
    tables still holds. *)
Theorem delete_conversation_cascade (db db' : DB) (conversation_id : Z) :
  is_Some (conversations db !! conversation_id) →
  delete_conversation db conversation_id = Deleted db' →
  conversations db' = delete conversation_id (conversations db)
  ∧ (∀ x, under_conversation db x conversation_id → messages db' !! x = None)
  ∧ (∀ x, ¬ under_conversation db x conversation_id →
          messages db' !! x = messages db !! x)
  ∧ (db_wf db → db_wf db').
Proof.
  intros [crow Hconv]. unfold delete_conversation. rewrite Hconv.
  destruct (delete_rows _ _ _) as [t'|] eqn:Hrows; [|done].
  intros [= <-]. cbn [messages conversations]. split_and!; [done| | |].
  - intros x (y & row & Hrow & Hc & Hunder).
    eapply delete_rows_under; [exact Hrows| |eauto|exact Hunder].
    apply elem_of_conversation_ids. eauto.
  - intros x Hx. eapply delete_rows_others; [exact Hrows|].
    intros y (row & Hrow & Hc)%elem_of_conversation_ids Hunder.
    apply Hx. by exists y, row.
  - intros [Hu Hp Hc].
    destruct (delete_rows_keeps _ _ _ _
                (delete conversation_id (conversations db)) Hrows Hu Hp)
      as [Hu' Hp'].
    split; [done..|].
    intros i r Hr. cbn [messages conversations] in *.
    pose proof Hrows as (Hsub & Hgone & _)%delete_rows_Some.
    pose proof (lookup_weaken _ _ _ _ Hr Hsub) as Hr0.
    rewrite lookup_delete_ne; [by eapply Hc|].
    intros Heq. rewrite Hgone in Hr; [done|].
    apply elem_of_conversation_ids. eauto.
Qed.

(** ** Threads too long to delete *)

Lemma descends_stored (t : gmap Z Row.t) (p x : Z) (chain : list Z) :
  descends t p chain → x ∈ chain → is_Some (t !! x).
Proof.
  revert p. induction chain as [|c chain IH]; intros p; [by intros _ ?%elem_of_nil|].
  intros [(row & Hrow & _) Hrest] [->|Hx]%elem_of_cons; eauto.
Qed.

Lemma descends_ext (t t' : gmap Z Row.t) (p : Z) (chain : list Z) :
  (∀ x, x ∈ chain → t' !! x = t !! x) → descends t p chain → descends t' p chain.
Proof.
  revert p. induction chain as [|c chain IH]; intros p Hsame; [done|].
  intros [(row & Hrow & Hp) Hrest]. split.
  - exists row. split; [|done]. rewrite Hsame; [done|left].
  - apply IH; [|done]. intros x Hx. apply Hsame. by right.
Qed.

(** Going up from a message of the chain one meets messages of the chain,
    then [p] and what is above it. *)
Lemma descends_up (t : gmap Z Row.t) (p : Z) (chain : list Z) (x y : Z) :
  descends t p chain → x ∈ chain → rtc (parent_in t) x y →
  y ∈ chain ∨ rtc (parent_in t) p y.
Proof.
  intros Hchain Hx Hrtc. revert Hx.
  induction Hrtc as [x|x x' y Hstep Hrtc IH]; intros Hx; [by left|].
  assert (x' = p ∨ x' ∈ chain) as [->|Hx'].
  { clear IH Hrtc. revert p Hchain.
    induction chain as [|c chain IH]; intros p Hchain;
      [by apply elem_of_nil in Hx|].
    destruct Hchain as [(row & Hrow & Hp) Hrest].
    destruct Hstep as (row' & Hrow' & Hp').
    apply elem_of_cons in Hx as [->|Hx].
    - left. congruence.
    - destruct (IH Hx c Hrest) as [->|Hin]; right; [left|by right]. }
  - by right.
  - by apply IH.
Qed.

(** The parent of a message of the chain other than the first is in the
    chain. *)
Lemma descends_parent (t : gmap Z Row.t) (p c x q : Z) (chain : list Z) :
  descends t p (c :: chain) → x ∈ chain → parent_in t x q → q ∈ c :: chain.
Proof.
  intros [_ Hrest]. revert c Hrest.
  induction chain as [|c' chain IH]; intros c Hrest Hx Hq;
    [by apply elem_of_nil in Hx|].
  destruct Hrest as [(row & Hrow & Hp) Hrest].
  apply elem_of_cons in Hx as [->|Hx].
  - destruct Hq as (row' & Hrow' & Hp'). assert (q = c) as -> by congruence. left.
  - right. by eapply IH.
Qed.

Lemma delete_rows_deep (left : nat) :
  ∀ (pre post : list Z) (t : gmap Z Row.t) (c : Z) (chain : list Z),
    is_Some (t !! c) → descends t c chain → NoDup (c :: chain) →
    (left ≤ length chain)%nat →
    (∀ i x, i ∈ pre → x ∈ c :: chain → ¬ rtc (parent_in t) x i) →
    delete_rows left (pre ++ c :: post) t = None.
Proof.
  induction left as [|left IHl];
    (induction pre as [|i pre IHi]; intros post t c chain Hc Hchain Hnd Hlen Hpre;
     cbn [app]; rewrite delete_rows_cons).
  - by destruct Hc as [row ->].
  - destruct (t !! i) as [row|]; [done|]. apply (IHi _ _ _ chain); try done.
    intros j x Hj. apply Hpre. by right.
  - destruct Hc as [row ->].
    destruct chain as [|c1 chain]; [simpl in Hlen; lia|].
    destruct Hchain as [Hc1 Hchain].
    apply NoDup_cons in Hnd as [Hc_notin Hnd].
    set (t1 := delete c t).
    assert (∀ x, x ∈ c1 :: chain → t1 !! x = t !! x) as Hsame.
    { intros x Hx. unfold t1. rewrite lookup_delete_ne; [done|].
      by intros ->. }
    assert (parent_in t1 c1 c) as Hc1'.
    { destruct Hc1 as (r1 & Hr1 & Hp1). exists r1. split; [|done].
      rewrite Hsame; [done|left]. }
    assert (descends t1 c (c1 :: chain)) as Hchain1.
    { split; [done|]. eapply descends_ext; [|exact Hchain].
      intros x Hx. apply Hsame. by right. }
    pose proof Hc1' as Hsplit.
    apply elem_of_children, list_elem_of_split in Hsplit.
    destruct Hsplit as (pre' & post' & Hsplit).
    assert (NoDup (children t1 c)) as Hndc.
    { unfold children, by_rowid. rewrite merge_sort_Permutation.
      eapply NoDup_fmap_fst.
      - intros x r1 r2 [_ H1%elem_of_map_to_list]%list_elem_of_filter
          [_ H2%elem_of_map_to_list]%list_elem_of_filter. congruence.
      - apply NoDup_filter, NoDup_map_to_list. }
    rewrite Hsplit in Hndc |- *.
    rewrite (IHl pre' post' t1 c1 chain); [done|..].
    + destruct Hc1' as (r1 & -> & _). eauto.
    + by destruct Hchain1.
    + done.
    + simpl in Hlen. lia.
    + intros s x Hs Hx Hrtc.
      assert (parent_in t1 s c) as Hsc.
      { apply elem_of_children. rewrite Hsplit. apply elem_of_app. by left. }
      assert (s ≠ c1) as Hne.
      { intros ->. apply NoDup_app in Hndc as (_ & Hdisj & _).
        apply (Hdisj c1 Hs). left. }
      destruct (descends_up t1 c (c1 :: chain) x s Hchain1 Hx Hrtc)
        as [Hin|Hup].
      * apply elem_of_cons in Hin as [->|Hin]; [done|].
        pose proof (descends_parent t1 c c1 s c chain Hchain1 Hin Hsc).
        done.
      * apply rtc_inv in Hup as [->|(w & (rw & Hrw & _) & _)].
        -- destruct Hsc as (rs & Hrs & _). unfold t1 in Hrs.
           by rewrite lookup_delete_eq in Hrs.
        -- unfold t1 in Hrw. by rewrite lookup_delete_eq in Hrw.
  - assert (∀ x, x ∈ c :: chain → ¬ rtc (parent_in t) x i) as Hi.
    { intros x Hx. apply Hpre; [left|done]. }
    assert (∀ j x, j ∈ pre → x ∈ c :: chain → ¬ rtc (parent_in t) x j) as Hpre'.
    { intros j x Hj. apply Hpre. by right. }
    destruct (t !! i) as [row|] eqn:Hrow; [|by apply (IHi _ _ _ chain)].
    destruct (delete_rows left _ _) as [t2|] eqn:Hdown; [|done]. cbn.
    pose proof Hdown as (Hsub & _)%delete_rows_Some.
    assert (∀ x, x ∈ c :: chain → t2 !! x = t !! x) as Hsame.
    { intros x Hx.
      rewrite (delete_rows_others _ _ _ _ x Hdown).
      - rewrite lookup_delete_ne; [done|]. intros ->. by apply (Hi x Hx).
      - intros s Hs%elem_of_children Hrtc. apply (Hi x Hx).
        eapply rtc_r.
        + eapply under_weaken; [apply delete_subseteq|exact Hrtc].
        + eapply parent_in_weaken; [apply delete_subseteq|exact Hs]. }
    apply (IHi _ _ _ chain); try done.
    + rewrite Hsame; [done|left].
    + eapply descends_ext; [|exact Hchain]. intros x Hx. apply Hsame. by right.
    + intros j x Hj Hx Hrtc. apply (Hpre' j x Hj Hx).
      eapply under_weaken; [|exact Hrtc].
      etrans; [exact Hsub|apply delete_subseteq].
Qed.

(** X6. A message with a thread of a thousand replies below it, each the
    parent of the next, cannot be deleted: the cascade nests too deep,
    [delete_message] raises and nothing is removed. *)
Theorem delete_message_too_deep (db : DB) (id : Z) (chain : list Z) :
  is_Some (messages db !! id) →
  descends (messages db) id chain → NoDup (id :: chain) →
  (SQLITE_MAX_TRIGGER_DEPTH ≤ length chain)%nat →
  delete_message db id = TooManyLevels.
Proof.
  intros Hid Hchain Hnd Hlen. unfold delete_message.
  rewrite (delete_rows_deep _ [] [] (messages db) id chain); try done.
  by intros i x ?%elem_of_nil.
Qed.

Lemma parents_below_spec (db : DB) :
  parents_below db = true ↔ ∀ a b, parent_of db a b → b < a.
Proof.
  unfold parents_below. rewrite forallb_forall. split.
  - intros Hbelow a b (row & Hrow & Hparent).
    specialize (Hbelow (a, row)). simpl in Hbelow. rewrite Hparent in Hbelow.
    apply Z.ltb_lt, Hbelow, list_elem_of_In. by apply elem_of_map_to_list.
  - intros Hstep [a row] Hin%list_elem_of_In%elem_of_map_to_list. simpl.
    destruct (Row.parent_id row) as [p|] eqn:Hp; [|done].
    apply Z.ltb_lt, Hstep. by exists row.
Qed.

Lemma descends_above (db : DB) (p : Z) (chain : list Z) :
  parents_below db = true → descends (messages db) p chain →
  (∀ x, x ∈ chain → p < x) ∧ NoDup (p :: chain).
Proof.
  rewrite parents_below_spec. intros Hbelow. revert p.
  induction chain as [|c chain IH]; intros p.
  - intros _. split; [by intros ? ?%elem_of_nil|apply NoDup_singleton].
  - intros [Hc Hrest]. apply Hbelow in Hc.
    destruct (IH c Hrest) as [Habove Hnd].
    assert (∀ x, x ∈ c :: chain → p < x) as Hall.
    { intros x [->|Hx]%elem_of_cons; [done|]. specialize (Habove x Hx). lia. }
    split; [done|]. apply NoDup_cons. split; [|done].
    intros Hin. specialize (Hall p Hin). lia.
Qed.

(** X7. A conversation whose first message starts a thread of a thousand
    messages, each the parent of the next, cannot be deleted:
    [delete_conversation] raises and nothing is removed. *)
Theorem delete_conversation_too_deep (db : DB) (conversation_id id : Z)
    (row : Row.t) (chain : list Z) :
  parents_below db = true →
  is_Some (conversations db !! conversation_id) →
  messages db !! id = Some row →
  Row.conversation_id row = conversation_id → Row.parent_id row = None →
  descends (messages db) id chain →
  (SQLITE_MAX_TRIGGER_DEPTH - 1 ≤ length chain)%nat →
  delete_conversation db conversation_id = TooManyLevels.
Proof.
  intros Hbelow [crow Hconv] Hrow Hc Hroot Hchain Hlen.
  destruct (descends_above db id chain Hbelow Hchain) as [Habove Hnd].
  unfold delete_conversation. rewrite Hconv.
  assert (id ∈ by_rowid (messages_of db conversation_id).*1) as Hin
    by (apply elem_of_conversation_ids; eauto).
  apply list_elem_of_split in Hin as (pre & post & Hsplit).
  assert (StronglySorted Z.le (pre ++ id :: post)) as Hsorted.
  { rewrite <- Hsplit. unfold by_rowid. apply StronglySorted_merge_sort; apply _. }
  assert (NoDup (pre ++ id :: post)) as Hndi.
  { rewrite <- Hsplit. unfold by_rowid. rewrite merge_sort_Permutation.
    eapply NoDup_fmap_fst.
    - intros x r1 r2 [H1 _]%elem_of_messages_of [H2 _]%elem_of_messages_of.
      congruence.
    - apply NoDup_filter, NoDup_map_to_list. }
  rewrite Hsplit, (delete_rows_deep _ pre post (messages db) id chain);
    try done; eauto.
  intros i x Hi Hx Hrtc.
  assert (i < id) as Hlt.
  { pose proof (StronglySorted_app_1_elem_of _ _ _ i id Hsorted Hi
                  ltac:(left)) as Hle.
    apply NoDup_app in Hndi as (_ & Hdisj & _).
    assert (i ≠ id) by (intros ->; apply (Hdisj id Hi); left). lia. }
  assert (i ∈ chain ∨ rtc (parent_in (messages db)) id i) as [Hin|Hup].
  { apply elem_of_cons in Hx as [->|Hx]; [by right|].
    by eapply descends_up. }
  - specialize (Habove i Hin). lia.
  - apply rtc_inv in Hup as [->|(w & (r & Hr & Hp) & _)]; [lia|congruence].
Qed.

(** ** Row ids are not given out twice *)

Lemma create_message_issued (db db' : DB) (c : Z) (content : str)
    (order_index : option Z) (summary : option str) (parent : option Z)
    (reply : option str) (m : Message.t) :
  create_message db c content order_index summary parent reply = Ok (m, db') →
  messages_seq db < Message.id m ∧ (ids_issued db → ids_issued db').
Proof.
  intros (-> & -> & _)%create_message_Ok. cbn [Message.id _row_to_message].
  split; [unfold autoincrement; lia|].
  intros Hissued x. cbn [messages messages_seq]. rewrite lookup_insert.
  case_decide; [intros _; lia|].
  intros Hx. by apply Z.lt_le_incl, autoincrement_above.
Qed.

(** X8. An id that has named a message names no other message later: a
    message made after a [delete_message] gets an id above every id the
    table held before the deletion. *)
Theorem create_message_after_delete (db db1 db2 : DB) (id c : Z)
    (content : str) (order_index : option Z) (summary : option str)
    (parent : option Z) (reply : option str) (m : Message.t) :
  ids_issued db →
  delete_message db id = Deleted db1 →
  create_message db1 c content order_index summary parent reply = Ok (m, db2) →
  (∀ x, is_Some (messages db !! x) → x < Message.id m) ∧ ids_issued db2.
Proof.
  intros Hissued (t' & Hrows & ->)%delete_message_Deleted Hcreate.
  apply delete_rows_Some in Hrows as (Hsub & _).
  assert (ids_issued (mkDB (conversations db) (conversations_seq db) t'
                        (messages_seq db) (configs db) (CURRENT_TIMESTAMP db)))
    as Hissued1.
  { intros x [r Hr]. cbn [messages messages_seq] in *. apply Hissued.
    exists r. by eapply lookup_weaken. }
  apply create_message_issued in Hcreate as [Hseq Hkeep].
  split; [|by apply Hkeep].
  intros x Hx. specialize (Hissued x Hx). cbn [messages_seq] in Hseq. lia.
Qed.

(** * Reading and writing *)

Lemma elem_of_get_messages_for_conversation (db : DB) (c : Z) (m : Message.t) :
  m ∈ get_messages_for_conversation db c ↔
  get_message db (Message.id m) = Ok m ∧ Message.conversation_id m = c.
Proof.
  unfold get_messages_for_conversation.
  rewrite merge_sort_Permutation, list_elem_of_fmap. split.
  - intros ([id row] & -> & [Hrow Hc]%elem_of_messages_of).
    cbn [fst snd _row_to_message Message.id Message.conversation_id].
    split; [|done]. apply get_message_Ok. eauto.
  - intros [(row & Hrow & Hm)%get_message_Ok Hc].
    exists (Message.id m, row). split; [done|].
    apply elem_of_messages_of. split; [done|]. by rewrite Hm in Hc.
Qed.

Lemma get_messages_for_conversation_NoDup (db : DB) (c : Z) :
  NoDup (Message.id <$> get_messages_for_conversation db c).
Proof.
  unfold get_messages_for_conversation. rewrite <- list_fmap_compose.
  rewrite merge_sort_Permutation.
  eapply NoDup_fmap_fst.
  - intros x r1 r2 [H1 _]%elem_of_messages_of [H2 _]%elem_of_messages_of.
    congruence.
  - apply NoDup_filter, NoDup_map_to_list.
Qed.

Lemma get_messages_for_conversation_ordered (db : DB) (c : Z) :
  StronglySorted (fun a b => Message.order_index a ≤ Message.order_index b)
    (get_messages_for_conversation db c).
Proof.
  unfold get_messages_for_conversation.
  eapply StronglySorted_fmap; [|apply StronglySorted_merge_sort; apply _].
  by intros [? ?] [? ?].
Qed.

(** X9. [get_messages_for_conversation] returns the stored messages of the
    conversation and no others, each once, by ascending [order_index]; with
    the unique index in place no two of them share an [order_index]. *)
Theorem get_messages_for_conversation_sorted (db : DB) (c : Z) :
  (∀ m, m ∈ get_messages_for_conversation db c ↔
        get_message db (Message.id m) = Ok m ∧ Message.conversation_id m = c)
  ∧ NoDup (Message.id <$> get_messages_for_conversation db c)
  ∧ StronglySorted (fun a b => Message.order_index a ≤ Message.order_index b)
      (get_messages_for_conversation db c)
  ∧ (unique_order_index db →
     StronglySorted (fun a b => Message.order_index a < Message.order_index b)
       (get_messages_for_conversation db c)).
Proof.
  split; [apply elem_of_get_messages_for_conversation|].
  pose proof (get_messages_for_conversation_NoDup db c) as Hnd.
  pose proof (get_messages_for_conversation_ordered db c) as Hsorted.
  split_and!; [done..|].
  intros Hu.
  assert (∀ m, m ∈ get_messages_for_conversation db c →
               get_message db (Message.id m) = Ok m
               ∧ Message.conversation_id m = c) as Hin
    by (intros m; apply elem_of_get_messages_for_conversation).
  revert Hin Hnd Hsorted.
  induction (get_messages_for_conversation db c) as [|a l IH]; [constructor|].
  rewrite fmap_cons. intros Hin [Ha Hnd]%NoDup_cons Hsorted.
  apply StronglySorted_inv in Hsorted as [Hl Hall].
  constructor.
  - apply IH; [|done..]. intros m Hm. apply Hin. by right.
  - rewrite Forall_forall in Hall |- *. intros b Hb.
    specialize (Hall b Hb).
    destruct (decide (Message.order_index a = Message.order_index b)) as [E|];
      [|lia].
    exfalso. apply Ha. apply list_elem_of_fmap. exists b. split; [|done].
    destruct (Hin a ltac:(left)) as [(ra & Hra & Ea)%get_message_Ok Hca].
    destruct (Hin b ltac:(by right)) as [(rb & Hrb & Eb)%get_message_Ok Hcb].
    apply (Hu _ _ ra rb Hra Hrb).
    + rewrite Ea in Hca. rewrite Eb in Hcb. simpl in *. congruence.
    + rewrite Ea, Eb in E. done.
Qed.

Lemma create_message_got (db db' : DB) (c : Z) (content : str)
    (order_index : option Z) (summary : option str) (parent : option Z)
    (reply : option str) (m : Message.t) :
  create_message db c content order_index summary parent reply = Ok (m, db') →
  get_message db' (Message.id m) = Ok m
  ∧ messages db !! Message.id m = None
  ∧ (∀ x, x ≠ Message.id m → get_message db' x = get_message db x)
  ∧ Message.content m = content
  ∧ Message.parent_id m = parent.
Proof.
  intros (-> & -> & _)%create_message_Ok.
  cbn [Message.id _row_to_message messages conversations].
  split_and!; try done.
  - unfold get_message. cbn [messages]. by rewrite lookup_insert_eq.
  - apply autoincrement_fresh.
  - intros x Hx. unfold get_message. cbn [messages].
    by rewrite lookup_insert_ne.
Qed.

(** X10. A message [create_message] returns is stored under a row id that
    was free and is above every id in use; it carries the values given and
    the role ["user"]; and no other message and no conversation changes. *)
Theorem create_message_stored (db db' : DB) (c : Z) (content : str)
    (order_index : option Z) (summary : option str) (parent : option Z)
    (reply : option str) (m : Message.t) :
  create_message db c content order_index summary parent reply = Ok (m, db') →
  get_message db' (Message.id m) = Ok m
  ∧ messages db !! Message.id m = None
  ∧ (∀ x, is_Some (messages db !! x) → x < Message.id m)
  ∧ (∀ x, x ≠ Message.id m → get_message db' x = get_message db x)
  ∧ conversations db' = conversations db
  ∧ Message.conversation_id m = c ∧ Message.role m = py "user"
  ∧ Message.content m = content ∧ Message.summary m = summary
  ∧ Message.parent_id m = parent ∧ Message.assistant_reply m = reply
  ∧ Message.created_at m = CURRENT_TIMESTAMP db.
Proof.
  intros (-> & -> & _)%create_message_Ok.
  cbn [Message.id _row_to_message messages conversations].
  split_and!; try done.
  - unfold get_message. cbn [messages]. by rewrite lookup_insert_eq.
  - apply autoincrement_fresh.
  - intros x Hx. by apply autoincrement_above.
  - intros x Hx. unfold get_message. cbn [messages].
    by rewrite lookup_insert_ne.
Qed.

Lemma get_message_path_to_root_acc (db : DB) (p : Z) (m : Message.t) :
  reverse <$> path_loop (S (size (messages db))) db (Some p) [m]
  = (.++ [m]) <$> get_message_path_to_root db p.
Proof.
  unfold get_message_path_to_root. rewrite path_loop_acc.
  destruct (path_loop _ db (Some p) []) as [l|]; [|done]. simpl.
  by rewrite reverse_cons.
Qed.

(** X11. In a store that keeps the foreign keys, the path to the root of a
    message just made under a stored parent is the path of that parent
    followed by the new message; the paths of the messages there before
    are what they were. *)
Theorem create_message_path (db db' : DB) (c : Z) (content : str)
    (order_index : option Z) (summary : option str) (p : Z)
    (reply : option str) (m : Message.t) :
  db_wf db → is_Some (messages db !! p) →
  create_message db c content order_index summary (Some p) reply = Ok (m, db') →
  get_message_path_to_root db' (Message.id m)
  = (.++ [m]) <$> get_message_path_to_root db p
  ∧ ∀ x, x ≠ Message.id m →
         get_message_path_to_root db' x = get_message_path_to_root db x.
Proof.
  intros [_ Hp _] Hstored Hcreate.
  pose proof Hcreate as (Hget & Hfresh & Hothers & _ & Hparent)
    %create_message_got.
  pose proof Hcreate as (_ & Hdb' & _)%create_message_Ok.
  assert (∀ x, is_Some (messages db !! x) →
               messages db' !! x = messages db !! x) as Hsame.
  { intros x Hx. rewrite Hdb'. cbn [messages]. rewrite lookup_insert_ne; [done|].
    intros <-. rewrite autoincrement_fresh in Hx. by destruct Hx. }
  assert (∀ x row q, is_Some (messages db !! x) → messages db !! x = Some row →
                     Row.parent_id row = Some q → is_Some (messages db !! q))
    as Hup by (intros x row q _; apply Hp).
  split.
  - unfold get_message_path_to_root at 1. cbn [path_loop]. rewrite Hget, Hparent.
    cbn [app].
    assert (size (messages db') = S (size (messages db))) as ->.
    { rewrite Hdb'. cbn [messages]. apply map_size_insert_None, autoincrement_fresh. }
    rewrite (path_loop_agree db db' _ Hsame Hup) by done.
    apply get_message_path_to_root_acc.
  - intros x Hx. destruct (messages db !! x) as [row|] eqn:Hrow.
    + apply (get_message_path_to_root_agree _ _ _ _ Hsame Hup). eauto.
    + unfold get_message_path_to_root. cbn [path_loop].
      rewrite (Hothers x Hx). unfold get_message. by rewrite Hrow.
Qed.

(** X12. Parent references that point to smaller ids stay so: under
    [create_message] with no parent or a stored one, under an
    [update_message] that leaves [parent_id] alone, and under
    [delete_message]. Such a store has no cycle, so every walk to the root
    ends. *)
Theorem parents_below_kept (db : DB) :
  parents_below db = true →
  (∀ c content order_index summary parent reply m db',
     (∀ p, parent = Some p → is_Some (messages db !! p)) →
     create_message db c content order_index summary parent reply = Ok (m, db') →
     parents_below db' = true)
  ∧ (∀ id content order_index summary reply m db',
       update_message db id content order_index summary None reply = Ok (m, db') →
       parents_below db' = true)
  ∧ (∀ id db', delete_message db id = Deleted db' → parents_below db' = true)
  ∧ ∀ id, is_Some (get_message_path_to_root db id).
Proof.
  intros Hbelow. split_and!.
  - intros c content order_index summary parent reply m db' Hparent
      (_ & -> & _)%create_message_Ok.
    rewrite parents_below_spec in Hbelow |- *.
    intros a b (row & Hrow & Hp). cbn [messages] in Hrow.
    rewrite lookup_insert in Hrow. case_decide as Ha.
    + injection Hrow as <-. cbn [Row.parent_id] in Hp. subst a.
      by apply autoincrement_above, Hparent.
    + apply Hbelow. by exists row.
  - intros id content order_index summary reply m db'
      (row & Hrow & _ & -> & _)%update_message_Ok.
    rewrite parents_below_spec in Hbelow |- *.
    intros a b (row' & Hrow' & Hp). cbn [messages] in Hrow'.
    rewrite lookup_insert in Hrow'. case_decide as Ha.
    + injection Hrow' as <-. subst a. apply Hbelow. by exists row.
    + apply Hbelow. by exists row'.
  - intros id db' (t' & (Hsub & _)%delete_rows_Some & ->)%delete_message_Deleted.
    rewrite parents_below_spec in Hbelow |- *.
    intros a b (row & Hrow & Hp). apply Hbelow. exists row. split; [|done].
    by eapply lookup_weaken.
  - intros id.
    by apply get_message_path_to_root_terminates, parents_below_acyclic.
Qed.


(** * The client *)

Lemma _normalize_messages_acc (messages acc : list ChatMessage.t) :
  foldl (fun normalized message =>
           normalized ← normalized;
           let role := ChatMessage.role message in
           let content := ChatMessage.content message in
           if negb (nonempty role) || negb (nonempty content) then
             Raise (ValueError (py "Each message must contain 'role' and 'content'"))
           else Ok (normalized ++ [ChatMessage.mk role content]))
        (Ok acc) messages
  = if forallb (fun message => nonempty (ChatMessage.role message)
                               && nonempty (ChatMessage.content message))
               messages
    then Ok (acc ++ messages)
    else Raise (ValueError (py "Each message must contain 'role' and 'content'")).
Proof.
  revert acc. induction messages as [|[role content] messages IH]; intros acc.
  - simpl. by rewrite app_nil_r.
  - cbn [foldl forallb ChatMessage.role ChatMessage.content mbind res_bind].
    destruct (nonempty role); [destruct (nonempty content)|]; cbn [negb orb andb].
    + rewrite IH. by rewrite <- app_assoc.
    + clear IH. by induction messages.
    + clear IH. by induction messages.
Qed.

(** X14. [_normalize_messages] returns the prompt as it is when every entry
    has a role and a content that are not empty, and raises [ValueError]
    otherwise. *)
Theorem normalize_messages_spec (messages : list ChatMessage.t) :
  _normalize_messages messages
  = if forallb (fun message => nonempty (ChatMessage.role message)
                               && nonempty (ChatMessage.content message))
               messages
    then Ok messages
    else Raise (ValueError (py "Each message must contain 'role' and 'content'")).
Proof. apply (_normalize_messages_acc messages []). Qed.

Lemma lstrip_char_spec (ch : N) (s : str) :
  ∃ n, s = replicate n ch ++ lstrip_char ch s
       ∧ head (lstrip_char ch s) ≠ Some ch.
Proof.
  induction s as [|c s (n & Hs & Hhead)]; [by exists 0%nat|].
  simpl. destruct (c =? ch)%N eqn:E.
  - apply N.eqb_eq in E as ->. exists (S n). simpl. split; [by f_equal|done].
  - exists 0%nat. split; [done|]. simpl. intros [= ->].
    by rewrite N.eqb_refl in E.
Qed.

Lemma rstrip_char_spec (ch : N) (s : str) :
  ∃ n, s = rstrip_char ch s ++ replicate n ch
       ∧ last (rstrip_char ch s) ≠ Some ch.
Proof.
  unfold rstrip_char.
  destruct (lstrip_char_spec ch (reverse s)) as (n & Hs & Hhead).
  exists n. split; [|by rewrite last_reverse].
  apply (f_equal reverse) in Hs.
  by rewrite reverse_involutive, reverse_app, reverse_replicate in Hs.
Qed.

Lemma new_OpenAICompatibleLLM_Ok (key : option str) (model : str)
    (base : option str) (wait : option spec_float) :
  model ≠ [] → ∃ self, new_OpenAICompatibleLLM key model base wait = Ok self.
Proof.
  intros Hmodel. unfold new_OpenAICompatibleLLM.
  destruct model; [done|]. cbn [nonempty negb]. eauto.
Qed.

(** X15. [OpenAICompatibleLLM(...)] raises [ValueError] for an empty model
    name and for no other argument; the client made keeps the key and the
    model name, its [api_base] is the address given without the slashes at
    its end, and the default address when none or an empty one is given. *)
Theorem new_OpenAICompatibleLLM_spec (key : option str) (model : str)
    (base : option str) (wait : option spec_float) :
  (model = [] →
   new_OpenAICompatibleLLM key model base wait
   = Raise (ValueError (py "model_name is required")))
  ∧ (model ≠ [] →
     ∃ self,
       new_OpenAICompatibleLLM key model base wait = Ok self
       ∧ api_key self = key
       ∧ model_name self = model
       ∧ timeout self = wait
       ∧ last (api_base self) ≠ Some 47%N
       ∧ (∀ b, base = Some b → b ≠ [] →
               ∃ n, b = api_base self ++ replicate n 47%N)
       ∧ (base = None ∨ base = Some [] → api_base self = DEFAULT_API_BASE)).
Proof.
  unfold new_OpenAICompatibleLLM. split.
  - by intros ->.
  - intros Hmodel. destruct model as [|c model]; [done|].
    cbn [nonempty negb]. eexists. split; [done|].
    cbn [api_key model_name api_base timeout].
    split_and!; try done.
    + by destruct (rstrip_char_spec 47%N
                     match base with
                     | Some b => if nonempty b then b else DEFAULT_API_BASE
                     | None => DEFAULT_API_BASE
                     end) as (n & _ & Hlast).
    + intros b -> Hb. destruct b as [|b0 b]; [done|]. cbn [nonempty].
      destruct (rstrip_char_spec 47%N (b0 :: b)) as (n & Hs & _). by exists n.
    + intros [-> | ->]; by vm_compute.
Qed.

Section MoreClientProperties.
Variable json_loads : str -> option json.
Variable network : Network.

Lemma sse_line_Emit (line : str) (piece : json) :
  sse_line json_loads line = Emit piece → truthy piece = true.
Proof.
  unfold sse_line.
  repeat (match goal with
          | |- context [if ?b then _ else _] => destruct b eqn:?
          | |- context [match ?x with _ => _ end] => destruct x eqn:?
          end; try done).
  congruence.
Qed.

Lemma _iter_sse_truthy (lines : list str) (read_error : option str)
    (piece : json) :
  piece ∈ items (_iter_sse json_loads lines read_error) → truthy piece = true.
Proof.
  induction lines as [|line lines IH]; simpl; [by intros ?%elem_of_nil|].
  destruct (sse_line json_loads line) as [| |p|e] eqn:Hline; simpl;
    try done; try (by intros ?%elem_of_nil).
  intros [->|Hin]%elem_of_cons; [by eapply sse_line_Emit|by apply IH].
Qed.

(** X16. [stream] never yields an empty piece: whatever the provider sends,
    every value the generator yields is truthy, a string among them has at
    least one character. *)
Theorem stream_pieces_truthy (self : OpenAICompatibleLLM)
    (messages : list ChatMessage.t) (temperature : spec_float) (piece : json) :
  piece ∈ items (stream json_loads network self messages temperature) →
  truthy piece = true ∧ piece ≠ JStr [].
Proof.
  intros Hin. assert (truthy piece = true) as Htruthy; [|by split; [|intros ->]].
  revert Hin. unfold stream, _post_stream.
  destruct (_build_payload _ _ _ _) as [payload|e]; [|by intros ?%elem_of_nil].
  cbn [items].
  destruct (stream_open_error _); [by intros ?%elem_of_nil|].
  destruct (raise_for_status _); [|by intros ?%elem_of_nil].
  apply _iter_sse_truthy.
Qed.

(** X17. Nothing after the [data: [DONE]] line counts: [_iter_sse] returns
    there, so neither later lines nor a failure of the connection after it
    change what the generator yields or how it ends. *)
Theorem iter_sse_after_DONE (lines rest : list str) (line : str)
    (read_error : option str) :
  data_line line = true → strip (drop 5 line) = py "[DONE]" →
  _iter_sse json_loads (lines ++ line :: rest) read_error
  = _iter_sse json_loads (lines ++ [line]) None.
Proof.
  intros Hdata Hdone.
  pose proof (sse_line_sentinel json_loads line Hdata Hdone) as Hstop.
  induction lines as [|l lines IH]; simpl; [by rewrite Hstop|].
  rewrite IH. done.
Qed.

(** X18. How [complete] fails: a request that cannot be made, and an answer
    with an error status, are raised as [LLMClientError], the second with
    the status and the body in the message; an answer that is not JSON is
    raised as [json.JSONDecodeError]; an answer without choices as
    [LLMClientError]. *)
Theorem complete_failures (self : OpenAICompatibleLLM)
    (messages : list ChatMessage.t) (temperature : spec_float)
    (payload : ChatPayload) :
  _build_payload self messages temperature false = Ok payload →
  let exchange := http_post network self payload in
  let result := complete json_loads network self messages temperature in
  (∀ msg, post_error exchange = Some msg →
          result = Raise (LLMClientError
                            (py "LLM provider request failed: " ++ msg)))
  ∧ (post_error exchange = None → ¬ (200 ≤ post_status exchange ≤ 299) →
     result = Raise (LLMClientError
                       (py "LLM provider returned "
                          ++ str_of_Z (post_status exchange)
                          ++ py ": " ++ post_body exchange)))
  ∧ (post_error exchange = None → 200 ≤ post_status exchange ≤ 299 →
     (json_loads (post_body exchange) = None → result = Raise JSONDecodeError)
     ∧ (∀ top, json_loads (post_body exchange) = Some (JObj top) →
               dict_get top (py "choices") = None
               ∨ dict_get top (py "choices") = Some JNull
               ∨ dict_get top (py "choices") = Some (JArr []) →
               result = Raise (LLMClientError
                                 (py "LLM provider returned no choices")))).
Proof.
  intros Hpayload exchange result. subst result. unfold complete.
  rewrite Hpayload. cbn [mbind res_bind]. split_and!.
  - intros msg Herr. unfold _post. fold exchange. by rewrite Herr.
  - intros Herr Hstatus.
    by rewrite (_post_error_status json_loads network self payload Herr Hstatus).
  - intros Herr Hstatus. unfold _post. fold exchange. rewrite Herr.
    unfold raise_for_status. cbn [status_code].
    rewrite (proj2 (Z.leb_le _ _) (proj1 Hstatus)),
            (proj2 (Z.leb_le _ _) (proj2 Hstatus)).
    cbn. split.
    + by intros ->.
    + intros top -> Hchoices. unfold _parse_completion. cbn.
      by destruct Hchoices as [-> | [-> | ->]].
Qed.

(** X19. What [complete] returns: for an answer with a success status whose
    body is a JSON object with a list of choices that starts with an
    object, the result carries the content of the message of that first
    choice, the empty string when the message has none, and the answer
    itself as [raw]. *)
Theorem complete_returns (self : OpenAICompatibleLLM)
    (messages : list ChatMessage.t) (temperature : spec_float)
    (payload : ChatPayload) (top first message : list (str * json))
    (more : list json) :
  _build_payload self messages temperature false = Ok payload →
  let exchange := http_post network self payload in
  post_error exchange = None → 200 ≤ post_status exchange ≤ 299 →
  json_loads (post_body exchange) = Some (JObj top) →
  dict_get top (py "choices") = Some (JArr (JObj first :: more)) →
  dict_get first (py "message") = Some (JObj message) →
  ∃ result,
    complete json_loads network self messages temperature = Ok result
    ∧ ChatCompletionChoice.content (ChatCompletionResult.choice result)
      = default (JStr []) (dict_get message (py "content"))
    ∧ ChatCompletionChoice.finish_reason (ChatCompletionResult.choice result)
      = default JNull (dict_get first (py "finish_reason"))
    ∧ ChatCompletionChoice.index (ChatCompletionResult.choice result)
      = default (JInt 0) (dict_get first (py "index"))
    ∧ ChatCompletionResult.usage result
      = default JNull (dict_get top (py "usage"))
    ∧ ChatCompletionResult.raw result = JObj top.
Proof.
  intros Hpayload exchange Herr Hstatus Hparsed Hchoices Hmessage.
  unfold complete. rewrite Hpayload. cbn [mbind res_bind].
  unfold _post. fold exchange. rewrite Herr.
  unfold raise_for_status. cbn [status_code].
  rewrite (proj2 (Z.leb_le _ _) (proj1 Hstatus)),
          (proj2 (Z.leb_le _ _) (proj2 Hstatus)).
  cbn. rewrite Hparsed. unfold _parse_completion. cbn.
  rewrite Hchoices. cbn. rewrite Hmessage. cbn.
  assert (py_or (JObj message) (JObj []) = JObj message) as ->
    by (by destruct message).
  cbn. eexists. split; [done|]. done.
Qed.
End MoreClientProperties.

(** * The endpoints *)

Lemma update_message_missing (db : DB) (id : Z) content order_index summary
    parent_id assistant_reply :
  messages db !! id = None →
  no_field content order_index summary parent_id assistant_reply = false →
  update_message db id content order_index summary parent_id assistant_reply
  = Raise (not_found (py "Message") id).
Proof.
  intros Hnone Hgiven. rewrite update_message_eq, Hgiven.
  unfold update_message_row, get_message. rewrite Hnone. cbn. by rewrite Hnone.
Qed.

(** X20. [PATCH /messages/{id}] for an id that names no message answers 404
    "Message <id> not found" and leaves the database as it is, when the
    id and the fields given are values that can be bound to the
    [UPDATE]. *)
Theorem api_update_message_missing (db : DB) (id : Z) (payload : MessageUpdate.t) :
  int64 id →
  (∀ o, MessageUpdate.order_index payload = Some o → int64 o) →
  encodable_opt (MessageUpdate.content payload)
  && encodable_opt (MessageUpdate.summary payload) = true →
  messages db !! id = None →
  no_field (MessageUpdate.content payload) (MessageUpdate.order_index payload)
    (MessageUpdate.summary payload) None None = false →
  api_update_message db id payload
  = (HTTPException 404 (py "Message" ++ py " " ++ str_of_Z id ++ py " not found"),
     db).
Proof.
  intros _ _ _ Hnone Hgiven. unfold api_update_message.
  rewrite (update_message_missing _ _ _ _ _ _ _ Hnone Hgiven).
  destruct payload as [[c|] [o|] [s|]]; try done.
Qed.


(** X22. A [PATCH /messages/{id}] that succeeds changes the content, the
    [order_index] and the summary it is given and nothing else: the parent,
    the reply, the conversation and the creation time of the message stay,
    no other message changes, and what the schema promises still holds. *)
Theorem api_update_message_fields (db db' : DB) (id : Z)
    (payload : MessageUpdate.t) (out : MessageOut.t) :
  api_update_message db id payload = (Returned out, db') →
  ∃ row,
    messages db !! id = Some row
    ∧ get_message db' id
      = Ok (_row_to_message id
              (set_fields row (MessageUpdate.content payload)
                 (MessageUpdate.order_index payload)
                 (MessageUpdate.summary payload) None None))
    ∧ MessageOut.id out = id
    ∧ MessageOut.content out
      = default (Row.content row) (MessageUpdate.content payload)
    ∧ MessageOut.order_index out
      = default (Row.order_index row) (MessageUpdate.order_index payload)
    ∧ MessageOut.summary out
      = from_option Some (Row.summary row) (MessageUpdate.summary payload)
    ∧ MessageOut.parent_id out = Row.parent_id row
    ∧ MessageOut.assistant_reply out = Row.assistant_reply row
    ∧ MessageOut.conversation_id out = Row.conversation_id row
    ∧ MessageOut.created_at out = Row.created_at row
    ∧ (∀ x, x ≠ id → messages db' !! x = messages db !! x)
    ∧ conversations db' = conversations db
    ∧ (db_wf db → db_wf db').
Proof.
  unfold api_update_message. intros H.
  destruct (update_message db id (MessageUpdate.content payload)
              (MessageUpdate.order_index payload)
              (MessageUpdate.summary payload) None None)
    as [[m db'']|e] eqn:Hupd.
  - assert (out = MessageOut.from_model m ∧ db' = db'') as [-> ->].
    { destruct (MessageUpdate.content payload), (MessageUpdate.order_index payload),
        (MessageUpdate.summary payload); by simplify_eq. }
    pose proof (fun Hwf => update_message_wf _ _ _ _ _ _ _ _ _ Hwf Hupd) as Hwf.
    apply update_message_Ok in Hupd as (row & Hrow & -> & -> & _).
    exists row. split_and!; try done.
    + unfold get_message. cbn [messages]. by rewrite lookup_insert_eq.
    + cbn. by destruct (MessageUpdate.summary payload).
    + intros x Hx. cbn [messages]. by rewrite lookup_insert_ne.
  - exfalso. unfold http_error in H.
    destruct (MessageUpdate.content payload), (MessageUpdate.order_index payload),
      (MessageUpdate.summary payload), (is_ValueError e); done.
Qed.

(** X23. [GET /conversations/{id}/messages], for an id that can be bound,
    answers 404 when the id names no conversation; otherwise it returns
    the messages of the conversation by ascending [order_index], each
    with the fields stored but the role. *)
Theorem api_get_messages_spec (db : DB) (conversation_id : Z) :
  int64 conversation_id →
  (conversations db !! conversation_id = None →
   api_get_messages db conversation_id
   = HTTPException 404
       (py "Conversation" ++ py " " ++ str_of_Z conversation_id
          ++ py " not found"))
  ∧ (is_Some (conversations db !! conversation_id) →
     ∃ messages,
       api_get_messages db conversation_id
       = Returned (MessageOut.from_model <$> messages)
       ∧ (∀ m, m ∈ messages ↔
               get_message db (Message.id m) = Ok m
               ∧ Message.conversation_id m = conversation_id)
       ∧ NoDup (Message.id <$> messages)
       ∧ StronglySorted
           (fun a b => Message.order_index a ≤ Message.order_index b) messages).
Proof.
  intros _. unfold api_get_messages, get_conversation. split.
  - by intros ->.
  - intros [row ->]. eexists. split; [done|].
    split_and!.
    + apply elem_of_get_messages_for_conversation.
    + apply get_messages_for_conversation_NoDup.
    + apply get_messages_for_conversation_ordered.
Qed.

(** X24. [PATCH /conversations/{id}], for an id and a title that can be
    bound to the [UPDATE]: without a title the answer is 400 and for an id
    that names no conversation 404, the database untouched in both cases;
    otherwise the title is replaced, the creation time kept, and no
    message and no other conversation changes. *)
Theorem api_update_conversation_spec (db : DB) (conversation_id : Z)
    (payload : ConversationUpdate.t) :
  int64 conversation_id →
  encodable_opt (ConversationUpdate.title payload) = true →
  api_update_conversation db conversation_id payload
  = match ConversationUpdate.title payload, conversations db !! conversation_id with
    | None, _ =>
        (HTTPException 400 (py "At least one field must be provided"), db)
    | Some _, None =>
        (HTTPException 404
           (py "Conversation" ++ py " " ++ str_of_Z conversation_id
              ++ py " not found"), db)
    | Some title, Some row =>
        (Returned (ConversationOut.mk conversation_id title
                     (ConversationRow.created_at row)),
         with_title db conversation_id title)
    end.
Proof.
  intros _ _.
  unfold api_update_conversation, update_conversation, get_conversation.
  destruct (ConversationUpdate.title payload) as [title|]; [|done].
  cbn [conversations]. rewrite lookup_alter, decide_True by done.
  by destruct (conversations db !! conversation_id).
Qed.

(** * The reply generator *)

Lemma match_here_word (w : str) (s : str) :
  startswith s w = true → match_here (lit w ++ [AnyStar]) s = true.
Proof.
  revert s. induction w as [|c w IH]; intros s.
  - intros _. by destruct s.
  - destruct s as [|x s]; [done|]. cbn [startswith lit fmap list_fmap app match_here].
    intros [Hc Hw]%andb_true_iff. apply N.eqb_eq in Hc as ->.
    rewrite N.eqb_refl. by apply IH.
Qed.

Lemma re_search_word (pattern : list atom) (w s : str) :
  (∀ t, startswith t w = true → match_here pattern t = true) →
  contains w s = true → re_search pattern s = true.
Proof.
  intros Hmatch. induction s as [|x s IH].
  - change (contains w []) with (startswith [] w || false).
    change (re_search pattern []) with (match_here pattern [] || false).
    rewrite !orb_false_r. apply Hmatch.
  - change (contains w (x :: s)) with (startswith (x :: s) w || contains w s).
    change (re_search pattern (x :: s))
      with (match_here pattern (x :: s) || re_search pattern s).
    intros [H|H]%orb_true_iff; [by rewrite (Hmatch _ H)|].
    rewrite (IH H). apply orb_true_r.
Qed.

Lemma judgment_word_pattern (w : str) :
  w ∈ judgment_words → lit w ++ [AnyStar] ∈ judgment_patterns.
Proof.
  unfold judgment_words, judgment_patterns. intros H.
  repeat (apply elem_of_cons in H as [->|H]);
    [do 4 apply list_elem_of_further| do 5 apply list_elem_of_further
    | do 6 apply list_elem_of_further| do 7 apply list_elem_of_further
    | by apply elem_of_nil in H]; apply list_elem_of_here.
Qed.

Lemma not_text_relay (fragments : list str) (piece : json) (rest : list json)
    (assistant_content : str) (db : DB) :
  (∀ s, piece ≠ JStr s) →
  relay ((JStr <$> fragments) ++ piece :: rest) assistant_content db
  = ((fun d => Yield (FrameDelta d)) <$> fragments, db, Crashed TypeError).
Proof.
  intros Hpiece. revert assistant_content.
  induction fragments as [|d fragments IH]; intros assistant_content.
  - simpl. destruct piece; try done. by destruct (Hpiece s).
  - cbn [fmap list_fmap app relay].
    erewrite bind_Done_eq; [|reflexivity|apply IH]. reflexivity.
Qed.

Lemma reply_frame_refl (id c : Z) (db : DB) : reply_frame id c db db.
Proof.
  split; try done.
  - by destruct (messages db !! id); constructor.
  - by destruct (conversations db !! c); constructor.
Qed.

Lemma reply_frame_trans (id c : Z) (db1 db2 db3 : DB) :
  reply_frame id c db1 db2 → reply_frame id c db2 db3 → reply_frame id c db1 db3.
Proof.
  intros [A1 A2 A3 A4 A5 A6 A7 A8] [B1 B2 B3 B4 B5 B6 B7 B8].
  split; try congruence.
  - intros x Hx. by rewrite B5, A5.
  - destruct B6 as [r3 r2 H32|]; inversion A6 as [r2' r1 H21|]; subst;
      constructor.
    unfold same_message in *. intuition congruence.
  - intros x Hx. by rewrite B7, A7.
  - destruct B8 as [r3 r2 H32|]; inversion A8 as [r2' r1 H21|]; subst;
      constructor. congruence.
Qed.

Lemma confined_unchanged (id c : Z) {A} (m : M A) (Q : A → Prop) :
  (∀ db, db_of (m db) = db ∧ ∀ a, outcome_of (m db) = Done a → Q a) →
  confined id c m Q.
Proof.
  intros H db. destruct (H db) as [-> HQ]. split; [apply reply_frame_refl|done].
Qed.

Lemma confined_weaken (id c : Z) {A} (m : M A) (Q Q' : A → Prop) :
  confined id c m Q → (∀ a, Q a → Q' a) → confined id c m Q'.
Proof. intros H HQ db. destruct (H db) as [? ?]. split; eauto. Qed.

Lemma confined_ret (id c : Z) {A} (a : A) (Q : A → Prop) :
  Q a → confined id c (mret a) Q.
Proof.
  intros HQ. apply confined_unchanged. intros db. split; [done|].
  by intros a' [= <-].
Qed.

Lemma confined_trace (id c : Z) (ev : Event) (Q : unit → Prop) :
  Q tt → confined id c (trace ev) Q.
Proof.
  intros HQ. apply confined_unchanged. intros db. split; [done|].
  by intros [] _.
Qed.

Lemma confined_raise (id c : Z) {A} (e : exn) (Q : A → Prop) :
  confined id c (raise e) Q.
Proof. apply confined_unchanged. intros db. by split. Qed.

Lemma confined_pure_res (id c : Z) {A} (r : res A) :
  confined id c (pure_res r) (fun _ => True).
Proof. apply confined_unchanged. intros db. by destruct r. Qed.

Lemma confined_bind (id c : Z) {A B} (m : M A) (f : A → M B)
    (Q : A → Prop) (Q' : B → Prop) :
  confined id c m Q → (∀ a, Q a → confined id c (f a) Q') →
  confined id c (m ≫= f) Q'.
Proof.
  intros Hm Hf db. destruct (Hm db) as [Hframe HQ].
  unfold mbind, M_bind.
  destruct (m db) as [[events db1] [a|e|]]; [|by split..].
  destruct (Hf a (HQ a eq_refl) db1) as [Hframe' HQ'].
  destruct (f a db1) as [[events' db2] r]. split.
  - eapply reply_frame_trans; [exact Hframe|exact Hframe'].
  - exact HQ'.
Qed.

Lemma confined_try (id c : Z) {A} (body : M A) (handler : exn → M A)
    (Q : A → Prop) :
  confined id c body Q → (∀ e, confined id c (handler e) Q) →
  confined id c (try_except body handler) Q.
Proof.
  intros Hbody Hhandler db. destruct (Hbody db) as [Hframe HQ].
  unfold try_except.
  destruct (body db) as [[events db1] [a|e|]]; [by split| |by split].
  destruct (Hhandler e db1) as [Hframe' HQ'].
  destruct (handler e db1) as [[events' db2] r]. split.
  - eapply reply_frame_trans; [exact Hframe|exact Hframe'].
  - exact HQ'.
Qed.

Lemma confined_for_each (id c : Z) {A} (l : list A) (body : A → M unit) :
  (∀ x, confined id c (body x) (fun _ => True)) →
  confined id c (for_each l body) (fun _ => True).
Proof.
  intros Hbody. induction l as [|x l IH]; simpl.
  - by apply confined_ret.
  - eapply (confined_bind _ _ _ _ (fun _ => True)); [apply Hbody|]. by intros _ _.
Qed.

Lemma confined_relay (id c : Z) (deltas : list json) (assistant_content : str) :
  confined id c (relay deltas assistant_content) (fun _ => True).
Proof.
  revert assistant_content. induction deltas as [|delta deltas IH];
    intros assistant_content; simpl.
  - by apply confined_ret.
  - destruct delta; try apply confined_raise.
    eapply (confined_bind _ _ _ _ (fun _ => True)); [by apply confined_trace|]. by intros _ _.
Qed.

Lemma confined_update_message (id c : Z) (summary assistant_reply : option str) :
  confined id c (call_update_message id None None summary None assistant_reply)
    (fun message => Message.id message = id).
Proof.
  intros db. unfold call_update_message, mbind, M_bind, trace, crud.
  destruct (update_message db id None None summary None assistant_reply)
    as [[m db']|e] eqn:Hupd; cbn [db_of outcome_of fst snd].
  - apply update_message_Ok in Hupd as (row & Hrow & -> & -> & _). split.
    + split; cbn [conversations_seq messages_seq configs CURRENT_TIMESTAMP
                  messages conversations]; try done.
      * intros x Hx. by rewrite lookup_insert_ne.
      * rewrite lookup_insert_eq, Hrow. by constructor.
      * by destruct (conversations db !! c); constructor.
    + by intros a [= <-].
  - split; [apply reply_frame_refl|done].
Qed.

Lemma confined_update_conversation (id c : Z) (title : option str) :
  confined id c (call_update_conversation c title) (fun _ => True).
Proof.
  intros db. unfold call_update_conversation, mbind, M_bind, trace, crud.
  destruct (update_conversation db c title) as [[conv db']|e] eqn:Hupd;
    cbn [db_of outcome_of fst snd]; [|split; [apply reply_frame_refl|done]].
  split; [|done]. unfold update_conversation in Hupd.
  destruct title as [title|]; [|done].
  destruct (get_conversation _ c) as [conv'|]; [|done]. cbn in Hupd.
  injection Hupd as _ <-.
  split; cbn [conversations_seq messages_seq configs CURRENT_TIMESTAMP
              messages conversations]; try done.
  - by destruct (messages db !! id); constructor.
  - intros x Hx. by rewrite lookup_alter_ne.
  - rewrite lookup_alter_eq. by destruct (conversations db !! c); constructor.
Qed.

Lemma confined_path (id c x : Z) :
  confined id c (call_get_message_path_to_root x) (fun _ => True).
Proof.
  apply confined_unchanged. intros db. unfold call_get_message_path_to_root.
  by destruct (get_message_path_to_root db x).
Qed.

Section MoreAppProperties.
Variable lower : str -> str.
Variable json_loads : str -> option json.
Variable network : Network.

(** X25. A question that contains one of the keywords, or one of the words
    是不是, 是否, 能否, 会不会, anywhere, in any case of its letters, is
    taken for a question about the model, whatever else it asks. *)
Theorem is_model_related_question_words (content word : str) :
  word ∈ model_keywords ++ judgment_words →
  contains word (strip (lower content)) = true →
  is_model_related_question lower content = true.
Proof.
  intros [Hword|Hword]%elem_of_app Hin; unfold is_model_related_question;
    apply orb_true_iff; [left|right]; apply existsb_exists.
  - exists word. split; [by apply list_elem_of_In|done].
  - exists (lit word ++ [AnyStar]). split.
    + by apply list_elem_of_In, judgment_word_pattern.
    + eapply re_search_word; [|exact Hin]. apply match_here_word.
Qed.

Lemma empty_content_stream (llm_client : OpenAICompatibleLLM)
    (history : list Message.t) (msg : Message.t) (temperature : spec_float) :
  msg ∈ history → Message.role msg = py "user" → Message.content msg = [] →
  stream json_loads network llm_client (build_llm_messages history) temperature
  = mkGen [] (Some (ValueError
                      (py "Each message must contain 'role' and 'content'"))).
Proof.
  intros Hin Hrole Hcontent. unfold stream, _build_payload, _normalize_messages.
  rewrite _normalize_messages_acc.
  destruct (forallb _ (build_llm_messages history)) eqn:Hall; [|done].
  exfalso. rewrite forallb_forall in Hall.
  specialize (Hall (ChatMessage.mk (py "user") [])). cbn in Hall.
  rewrite andb_false_r in Hall. enough (false = true) by done. apply Hall.
  unfold build_llm_messages. right. apply in_concat.
  exists (history_turns msg). split.
  - apply list_elem_of_In, list_elem_of_fmap. eauto.
  - unfold history_turns. rewrite Hrole, Hcontent, bool_decide_eq_true_2 by done.
    by left.
Qed.

Lemma relay_stream_raises (config : Config.t) (llm_client : OpenAICompatibleLLM)
    (llm_messages : list ChatMessage.t) (exc : exn) (db : DB) :
  stream json_loads network llm_client llm_messages (Config.temperature config)
  = mkGen [] (Some exc) →
  (∀ msg, exc ≠ LLMClientError msg) →
  relay_stream json_loads network config llm_client llm_messages db
  = ([CallStream llm_messages (Config.temperature config)], db, Crashed exc).
Proof.
  intros Hstream Hexc. unfold relay_stream.
  erewrite try_except_Crashed.
  2:{ eapply bind_Done_eq; [reflexivity|].
      rewrite Hstream. cbn [items finish].
      eapply bind_Done_eq; reflexivity. }
  destruct exc; try reflexivity. by destruct (Hexc msg).
Qed.

Lemma relay_stream_not_text (config : Config.t) (llm_client : OpenAICompatibleLLM)
    (llm_messages : list ChatMessage.t) (fragments : list str) (piece : json)
    (rest : list json) (fin : option exn) (db : DB) :
  stream json_loads network llm_client llm_messages (Config.temperature config)
  = mkGen ((JStr <$> fragments) ++ piece :: rest) fin →
  (∀ s, piece ≠ JStr s) →
  relay_stream json_loads network config llm_client llm_messages db
  = (CallStream llm_messages (Config.temperature config)
       :: ((fun d => Yield (FrameDelta d)) <$> fragments),
     db, Crashed TypeError).
Proof.
  intros Hstream Hpiece. unfold relay_stream.
  erewrite try_except_Crashed.
  2:{ eapply bind_Done_eq; [reflexivity|].
      rewrite Hstream. cbn [items finish].
      apply bind_Crashed. by apply not_text_relay. }
  cbv beta iota. unfold raise.
  rewrite events_of_run, db_of_run, outcome_of_run. cbn [app].
  by rewrite app_nil_r.
Qed.

(** X26. A reply cannot be made under a message with empty content: the
    prompt built from the path to the root then has an entry without
    content, [stream] raises [ValueError] when first advanced, which
    [_stream_llm_reply] does not catch; the response breaks off after the
    [message_id] frame, with no error frame, and the database is left as
    it is. *)
Theorem reply_empty_content (conversation_id : Z) (payload : LLMReplyRequest.t)
    (conversation : Conversation.t) (config : Config.t)
    (llm_client : OpenAICompatibleLLM) (user_message : Message.t) (db : DB)
    (history : list Message.t) (msg : Message.t) :
  is_model_related_question lower (LLMReplyRequest.content payload) = false →
  get_message_path_to_root db (Message.id user_message) = Some history →
  msg ∈ history → Message.role msg = py "user" → Message.content msg = [] →
  _stream_llm_reply lower json_loads network conversation_id payload
    conversation config llm_client user_message db
  = ([ Yield (FrameMessageId (Message.id user_message));
       CallStream (build_llm_messages history) (Config.temperature config) ],
     db,
     Crashed (ValueError (py "Each message must contain 'role' and 'content'"))).
Proof.
  intros Hcanned Hhistory Hin Hrole Hcontent.
  etransitivity.
  { unfold _stream_llm_reply. rewrite Hcanned.
    eapply bind_Done_eq; [reflexivity|].
    eapply bind_Done_eq;
      [unfold call_get_message_path_to_root; rewrite Hhistory; reflexivity|].
    apply bind_Crashed.
    apply relay_stream_raises;
      [by apply (empty_content_stream _ _ msg)|intros ?; discriminate]. }
  reflexivity.
Qed.

(** X27. A piece that is not text breaks the reply: when the provider sends
    a chunk whose content is a number, a list or an object,
    [assistant_content += delta] raises [TypeError], which is not caught;
    the response breaks off after the deltas before it, with neither an
    error frame nor the [done] frame, and nothing is stored. *)
Theorem reply_piece_not_text (conversation_id : Z) (payload : LLMReplyRequest.t)
    (conversation : Conversation.t) (config : Config.t)
    (llm_client : OpenAICompatibleLLM) (user_message : Message.t) (db : DB)
    (history : list Message.t) (fragments : list str) (piece : json)
    (rest : list json) (finish : option exn) :
  is_model_related_question lower (LLMReplyRequest.content payload) = false →
  get_message_path_to_root db (Message.id user_message) = Some history →
  stream json_loads network llm_client (build_llm_messages history)
    (Config.temperature config)
  = mkGen ((JStr <$> fragments) ++ piece :: rest) finish →
  (∀ s, piece ≠ JStr s) →
  _stream_llm_reply lower json_loads network conversation_id payload
    conversation config llm_client user_message db
  = ([ Yield (FrameMessageId (Message.id user_message));
       CallStream (build_llm_messages history) (Config.temperature config) ]
     ++ ((fun d => Yield (FrameDelta d)) <$> fragments),
     db, Crashed TypeError).
Proof.
  intros Hcanned Hhistory Hstream Hpiece.
  etransitivity.
  { unfold _stream_llm_reply. rewrite Hcanned.
    eapply bind_Done_eq; [reflexivity|].
    eapply bind_Done_eq;
      [unfold call_get_message_path_to_root; rewrite Hhistory; reflexivity|].
    apply bind_Crashed. by eapply relay_stream_not_text. }
  reflexivity.
Qed.

Lemma confined_relay_stream (id c : Z) (config : Config.t)
    (llm_client : OpenAICompatibleLLM) (llm_messages : list ChatMessage.t) :
  confined id c (relay_stream json_loads network config llm_client llm_messages)
    (fun _ => True).
Proof.
  unfold relay_stream. apply confined_try.
  - eapply (confined_bind _ _ _ _ (fun _ => True)); [by apply confined_trace|]. intros _ _.
    eapply (confined_bind _ _ _ _ (fun _ => True)); [apply confined_relay|]. intros content _.
    destruct (finish _); [apply confined_raise|by apply confined_ret].
  - intros [] ; try apply confined_raise.
    eapply (confined_bind _ _ _ _ (fun _ => True)); [by apply confined_trace|]. intros _ _.
    by apply confined_ret.
Qed.

Lemma confined_derive_summary (c : Z) (payload : LLMReplyRequest.t)
    (llm_client : OpenAICompatibleLLM) (user_message : Message.t) :
  confined (Message.id user_message) c
    (derive_summary json_loads network payload llm_client user_message)
    (fun _ => True).
Proof.
  unfold derive_summary.
  eapply (confined_bind _ _ _ _ (fun _ => True)).
  - apply confined_try.
    + eapply (confined_bind _ _ _ _ (fun _ => True)); [by apply confined_trace|]. intros _ _.
      eapply (confined_bind _ _ _ _ (fun _ => True)); [apply confined_pure_res|]. intros completion _.
      destruct (ChatCompletionChoice.content _); try apply confined_raise.
      by apply confined_ret.
    + intros []; try apply confined_raise. by apply confined_ret.
  - intros [s|] _; [|by apply confined_ret].
    destruct (nonempty s); [|by apply confined_ret].
    eapply confined_bind; [apply confined_update_message|].
    intros m _. by apply confined_ret.
Qed.

Lemma confined_derive_title (id c : Z) (payload : LLMReplyRequest.t)
    (conversation : Conversation.t) (summary_text : option str)
    (user_message : Message.t) :
  confined id c
    (derive_title c payload conversation summary_text user_message)
    (fun _ => True).
Proof.
  unfold derive_title.
  destruct (_ && _); [|by apply confined_ret].
  destruct (nonempty _); [|by apply confined_ret].
  eapply (confined_bind _ _ _ _ (fun _ => True)); [apply confined_update_conversation|].
  intros _ _. by apply confined_ret.
Qed.

(** X28. Whatever the provider does and however the run ends,
    [_stream_llm_reply] writes nothing but the reply and the summary of
    the message it answers and the title of its conversation: every other
    message and conversation, the other columns of these two rows, the
    configuration and the sequences are after the run what they were
    before it, and no row is made or removed. *)
Theorem reply_confined (conversation_id : Z) (payload : LLMReplyRequest.t)
    (conversation : Conversation.t) (config : Config.t)
    (llm_client : OpenAICompatibleLLM) (user_message : Message.t) (db : DB) :
  reply_frame (Message.id user_message) conversation_id db
    (db_of (_stream_llm_reply lower json_loads network conversation_id
              payload conversation config llm_client user_message db)).
Proof.
  enough (confined (Message.id user_message) conversation_id
            (_stream_llm_reply lower json_loads network conversation_id
               payload conversation config llm_client user_message)
            (fun _ => True)) as H by apply H.
  unfold _stream_llm_reply.
  eapply (confined_bind _ _ _ _ (fun _ => True)); [by apply confined_trace|]. intros _ _.
  destruct (is_model_related_question _ _).
  - eapply (confined_bind _ _ _ _ (fun _ => True)).
    { apply confined_for_each. intros x. by apply confined_trace. }
    intros _ _. eapply (confined_bind _ _ _ _ (fun _ => True)); [by apply confined_trace|]. intros _ _.
    eapply confined_bind; [apply confined_update_message|].
    intros m _. by apply confined_ret.
  - eapply (confined_bind _ _ _ _ (fun _ => True)); [apply confined_path|]. intros history _.
    eapply (confined_bind _ _ _ _ (fun _ => True)); [apply confined_relay_stream|].
    intros [content|] _; [|by apply confined_ret].
    eapply (confined_bind _ _ _ _ (fun _ => True)); [by apply confined_trace|]. intros _ _.
    eapply confined_bind; [apply confined_update_message|].
    intros m Hm. cbv beta in Hm.
    eapply (confined_bind _ _ _ _ (fun _ => True)).
    + rewrite <- Hm. apply confined_derive_summary.
    + intros [summary_text m'] _. apply confined_derive_title.
Qed.
End MoreAppProperties.

(** ** [api_conversation_llm_reply] *)

Lemma last_get_messages_for_conversation (db : DB) (c : Z) :
  match last (get_messages_for_conversation db c) with
  | Some m =>
      ∃ row, messages db !! Message.id m = Some row
             ∧ Row.conversation_id row = c
             ∧ ∀ x r, messages db !! x = Some r → Row.conversation_id r = c →
                      Row.order_index r ≤ Row.order_index row
  | None => no_messages db c
  end.
Proof.
  pose proof (elem_of_get_messages_for_conversation db c) as Hin.
  pose proof (get_messages_for_conversation_ordered db c) as Hsorted.
  destruct (last _) as [m|] eqn:Hlast.
  - pose proof Hlast as (l' & Hl)%last_Some.
    destruct (proj1 (Hin m) (last_Some_elem_of _ _ Hlast))
      as [(row & Hrow & Hm)%get_message_Ok Hc].
    exists row. split_and!; [done|by rewrite Hm in Hc|].
    intros x r Hr Hcr.
    assert (_row_to_message x r ∈ get_messages_for_conversation db c) as Hx.
    { apply Hin. split; [|done]. apply get_message_Ok. eauto. }
    rewrite Hl in Hx, Hsorted. apply elem_of_app in Hx as [Hx|Hx].
    + pose proof (StronglySorted_app_1_elem_of _ _ _ _ m Hsorted Hx
                    ltac:(left)) as Hle.
      rewrite Hm in Hle. done.
    + apply list_elem_of_singleton in Hx. rewrite Hm in Hx.
      apply (f_equal Message.order_index) in Hx. simpl in Hx. lia.
  - apply last_None in Hlast. intros x r Hr Hcr.
    assert (_row_to_message x r ∈ get_messages_for_conversation db c) as Hx.
    { apply Hin. split; [|done]. apply get_message_Ok. eauto. }
    rewrite Hlast in Hx. by apply elem_of_nil in Hx.
Qed.

Section ReplyEndpoint.
Variable lower : str -> str.
Variable json_loads : str -> option json.
Variable network : Network.

(** The run an admitted request starts is for the conversation the
    endpoint has read and the message it has stored, both as the database
    of the run holds them. *)
Lemma api_conversation_llm_reply_Returned (db : DB) (conversation_id : Z)
    (payload : LLMReplyRequest.t) (r : list Event * DB * Outcome unit) :
  api_conversation_llm_reply lower json_loads network db conversation_id
    payload = Returned r →
  ∃ conversation config llm_client user_message db',
    r = _stream_llm_reply lower json_loads network conversation_id payload
          conversation config llm_client user_message db'
    ∧ get_conversation db' conversation_id = Ok conversation
    ∧ get_message db' (Message.id user_message) = Ok user_message
    ∧ get_config db = Some config.
Proof.
  unfold api_conversation_llm_reply.
  destruct (get_conversation db conversation_id) as [conversation|e]
    eqn:Hconv; [|by destruct (is_ValueError e)].
  destruct (get_config db) as [config|]; [|done].
  destruct (new_OpenAICompatibleLLM _ _ _ _) as [llm_client|e]; [|done].
  destruct (create_message _ _ _ _ _ _ _) as [[user_message db']|e]
    eqn:Hcreate; [|done].
  intros [= <-]. exists conversation, config, llm_client, user_message, db'.
  split; [done|].
  pose proof Hcreate as (Hget & _)%create_message_got.
  apply create_message_Ok in Hcreate as (_ & -> & _).
  split_and!; done.
Qed.

(** X29. A request for a reply that names no parent, to a conversation that
    exists and has room for one more message, with a configuration whose
    model name is not empty and a content that can be stored, is always
    admitted: the new message is stored under the message of the
    conversation with the largest [order_index], as a root when the
    conversation has none, with the next [order_index], and the stream
    is the run of [_stream_llm_reply] for it. *)
Theorem api_conversation_llm_reply_appends (db : DB) (conversation_id : Z)
    (payload : LLMReplyRequest.t) (conversation : Conversation.t)
    (config : Config.t) :
  get_conversation db conversation_id = Ok conversation →
  get_config db = Some config →
  Config.model_name config ≠ [] →
  LLMReplyRequest.parent_id payload = None →
  encodable (LLMReplyRequest.content payload) = true →
  room db conversation_id 1 →
  ∃ llm_client user_message db',
    api_conversation_llm_reply lower json_loads network db conversation_id
      payload
    = Returned (_stream_llm_reply lower json_loads network conversation_id
                  payload conversation config llm_client user_message db')
    ∧ get_message db' (Message.id user_message) = Ok user_message
    ∧ messages db !! Message.id user_message = None
    ∧ Message.content user_message = LLMReplyRequest.content payload
    ∧ Message.order_index user_message = _next_order_index db conversation_id
    ∧ match Message.parent_id user_message with
      | Some p =>
          ∃ row, messages db !! p = Some row
                 ∧ Row.conversation_id row = conversation_id
                 ∧ ∀ x r, messages db !! x = Some r →
                          Row.conversation_id r = conversation_id →
                          Row.order_index r ≤ Row.order_index row
      | None => no_messages db conversation_id
      end.
Proof.
  intros Hconv Hconfig Hmodel Hparent _ _. unfold api_conversation_llm_reply.
  rewrite Hconv, Hconfig, Hparent.
  destruct (new_OpenAICompatibleLLM_Ok (Config.api_key config)
              (Config.model_name config) (Config.base_url config)
              (Some client_timeout) Hmodel) as (llm_client & ->).
  pose proof (last_get_messages_for_conversation db conversation_id) as Hlast.
  destruct (create_message_succeeds db conversation_id
              (LLMReplyRequest.content payload) None
              (Message.id <$> last (get_messages_for_conversation db conversation_id))
              None) as (m & db' & Hcreate).
  { unfold get_conversation in Hconv.
    destruct (conversations db !! conversation_id); [eauto|done]. }
  { intros p Hp. left.
    destruct (last _) as [m|]; [|done]. injection Hp as <-.
    destruct Hlast as (row & -> & _). eauto. }
  rewrite Hcreate. exists llm_client, m, db'. split; [done|].
  pose proof Hcreate as (Hget & Hfresh & _ & Hc & Hp)%create_message_got.
  pose proof Hcreate as (_ & Ho & _)%create_message_next_same.
  split_and!; try done.
  rewrite Hp. by destruct (last _).
Qed.

End ReplyEndpoint.

(** * The further statements on the sample data *)

Lemma descendsb_descends (table : gmap Z Row.t) (p : Z) (chain : list Z) :
  descendsb table p chain = true → descends table p chain.
Proof.
  revert p. induction chain as [|c chain IH]; intros p; [done|]. simpl.
  destruct (table !! c) as [row|] eqn:Hrow; [|done].
  intros [Hp Hrest]%andb_true_iff. apply bool_decide_eq_true in Hp.
  split; [by exists row|by apply IH].
Qed.

Lemma replies_NoDup (n : nat) : NoDup (1 :: Cases.replies n).
Proof.
  change (1 :: Cases.replies n) with (Z.of_nat <$> (1%nat :: seq 2 (n - 1))).
  apply NoDup_fmap; [apply _|]. apply (NoDup_seq 1 (S (n - 1))).
Qed.

(** Deleting the first message of the sample thread of two removes both. *)
Lemma delete_message_subtree_witness :
  delete_message Sample.db3 1
  = Deleted Cases.db3_emptied
  ∧ (∀ x, under Sample.db3 x 1 →
          messages Cases.db3_emptied !! x
          = None)
  ∧ (∀ x, ¬ under Sample.db3 x 1 →
          messages Cases.db3_emptied !! x
          = messages Sample.db3 !! x).
Proof.
  assert (delete_message Sample.db3 1
          = Deleted Cases.db3_emptied)
    as Hdelete by evaluated.
  split; [exact Hdelete|].
  destruct (delete_message_subtree Sample.db3 Cases.db3_emptied 1) as (H1 & H2 & _);
    [by eexists|exact Hdelete|].
  split; [exact H1|exact H2].
Defined.

Lemma delete_message_wf_witness :
  db_wf Cases.db3_cut.
Proof.
  apply (delete_message_wf Sample.db3 Cases.db3_cut 2).
  - apply (create_message_wf Sample.db2 Sample.db3 1 (py "and then?") None
             None (Some 1) None Sample.m2); [apply sample_db2_wf|exact sample_db3].
  - evaluated.
Defined.

Lemma delete_message_ends_witness :
  ∃ db', delete_message Sample.db3 7 = Deleted db'
         ∧ (messages Sample.db3 !! 7 = None → db' = Sample.db3).
Proof.
  apply (delete_message_ends Sample.db3 7); [unfold int64; lia|].
  left. vm_compute. lia.
Defined.

Lemma delete_message_paths_witness :
  get_message_path_to_root
    Cases.db3_cut 1
  = get_message_path_to_root Sample.db3 1.
Proof.
  apply (delete_message_paths Sample.db3 Cases.db3_cut 2 1); [evaluated|].
  intros [Heq|(y & (row & Hrow & Hp) & _)]%rtc_inv; [done|].
  vm_compute in Hrow. injection Hrow as <-. done.
Defined.

(** Deleting the first conversation takes the reply kept in the second
    with it. *)
Lemma delete_conversation_cascade_witness :
  delete_conversation Cases.db_two 1 = Deleted Cases.db_two_left
  ∧ conversations Cases.db_two_left = delete 1 (conversations Cases.db_two)
  ∧ (∀ x, under_conversation Cases.db_two x 1 →
          messages Cases.db_two_left !! x = None)
  ∧ (∀ x, ¬ under_conversation Cases.db_two x 1 →
          messages Cases.db_two_left !! x = messages Cases.db_two !! x).
Proof.
  assert (delete_conversation Cases.db_two 1 = Deleted Cases.db_two_left)
    as Hdelete by evaluated.
  split; [exact Hdelete|].
  destruct (delete_conversation_cascade Cases.db_two Cases.db_two_left 1) as (H1 & H2 & H3 & _);
    [by eexists|exact Hdelete|].
  split; [exact H1|]. split; [exact H2|exact H3].
Defined.

(** The reply kept in the second conversation is below the first. *)
Example under_conversation_across :
  under_conversation Cases.db_two 2 1 ∧ messages Cases.db_two_left !! 2 = None.
Proof.
  split; [|done]. exists 1, Sample.row1. split_and!; [done..|].
  apply rtc_once. by exists Cases.row_across.
Qed.

Lemma delete_message_too_deep_witness :
  delete_message (Cases.thread 1001) 1 = TooManyLevels.
Proof.
  apply (delete_message_too_deep (Cases.thread 1001) 1 (Cases.replies 1001)).
  - eexists. evaluated.
  - apply descendsb_descends. evaluated.
  - apply replies_NoDup.
  - vm_compute. lia.
Defined.

(** A thread of a thousand messages can still be deleted from its root. *)
Example delete_message_deepest :
  delete_message (Cases.thread 1000) 1
  = Deleted (mkDB (conversations Sample.db1) 1 ∅ 1000 None Sample.now).
Proof. evaluated. Qed.

Lemma delete_conversation_too_deep_witness :
  delete_conversation (Cases.thread 1000) 1 = TooManyLevels.
Proof.
  apply (delete_conversation_too_deep (Cases.thread 1000) 1 1
           (Cases.thread_row 1).2 (Cases.replies 1000)).
  - evaluated.
  - eexists. evaluated.
  - evaluated.
  - evaluated.
  - evaluated.
  - apply descendsb_descends. evaluated.
  - vm_compute. lia.
Defined.

(** A conversation of 999 messages in one thread can still be deleted. *)
Example delete_conversation_deepest :
  delete_conversation (Cases.thread 999) 1
  = Deleted (mkDB ∅ 1 ∅ 999 None Sample.now).
Proof. evaluated. Qed.

Lemma judgment_words_third : py "能否" ∈ judgment_words.
Proof. unfold judgment_words. do 2 apply list_elem_of_further. apply list_elem_of_here. Qed.

Lemma sample_ids_issued : ids_issued Sample.db3.
Proof.
  apply (create_message_issued Sample.db2 Sample.db3 1 (py "and then?") None
           None (Some 1) None Sample.m2 sample_db3).
  apply (create_message_issued Sample.db1 Sample.db2 1 (py "hello") None None
           None None Sample.m1 sample_db2).
  by intros x [r Hr].
Qed.

Lemma create_message_after_delete_witness :
  (∀ x, is_Some (messages Sample.db3 !! x) →
        x < Message.id (_row_to_message 3 Cases.row_again))
  ∧ ids_issued Cases.db3_again.
Proof.
  apply (create_message_after_delete Sample.db3 Cases.db3_cut Cases.db3_again
           2 1 (py "again") None None (Some 1) None
           (_row_to_message 3 Cases.row_again)).
  - exact sample_ids_issued.
  - evaluated.
  - evaluated.
Defined.

Lemma create_message_stored_witness :
  get_message Sample.db3 (Message.id Sample.m2) = Ok Sample.m2
  ∧ messages Sample.db2 !! Message.id Sample.m2 = None
  ∧ (∀ x, is_Some (messages Sample.db2 !! x) → x < Message.id Sample.m2)
  ∧ (∀ x, x ≠ Message.id Sample.m2 →
          get_message Sample.db3 x = get_message Sample.db2 x).
Proof.
  destruct (create_message_stored Sample.db2 Sample.db3 1 (py "and then?")
              None None (Some 1) None Sample.m2)
    as (H1 & H2 & H3 & H4 & _); [evaluated|].
  split; [exact H1|]. split; [exact H2|]. split; [exact H3|exact H4].
Defined.

Lemma create_message_path_witness :
  get_message_path_to_root Sample.db3 (Message.id Sample.m2)
  = (.++ [Sample.m2]) <$> get_message_path_to_root Sample.db2 1
  ∧ ∀ x, x ≠ Message.id Sample.m2 →
         get_message_path_to_root Sample.db3 x
         = get_message_path_to_root Sample.db2 x.
Proof.
  apply (create_message_path Sample.db2 Sample.db3 1 (py "and then?") None
           None 1 None Sample.m2).
  - exact sample_db2_wf.
  - by eexists.
  - evaluated.
Defined.

(** The path of the second message of the sample thread. *)
Example path_of_second :
  get_message_path_to_root Sample.db3 2 = Some [Sample.m1; Sample.m2].
Proof. evaluated. Qed.

Lemma parents_below_kept_witness :
  (∀ id db', delete_message Sample.db3 id = Deleted db' →
             parents_below db' = true)
  ∧ ∀ id, is_Some (get_message_path_to_root Sample.db3 id).
Proof.
  destruct (parents_below_kept Sample.db3) as (_ & _ & H3 & H4); [evaluated|].
  split; [exact H3|exact H4].
Defined.

Lemma stream_pieces_truthy_witness :
  truthy (JStr Sample.A) = true ∧ JStr Sample.A ≠ JStr [].
Proof.
  apply (stream_pieces_truthy Sample.json_loads Sample.network
           Sample.llm_client (build_llm_messages [Sample.m1]) Sample.one).
  assert (stream Sample.json_loads Sample.network Sample.llm_client
            (build_llm_messages [Sample.m1]) Sample.one
          = mkGen [JStr Sample.A; JStr Sample.B; JStr Sample.C] None) as ->
    by evaluated.
  left.
Defined.

Lemma iter_sse_after_DONE_witness :
  _iter_sse Sample.json_loads
    ([Sample.chunk_line Sample.A] ++ py "data: [DONE]"
       :: [Sample.chunk_line Sample.B])
    (Some (py "peer closed connection"))
  = _iter_sse Sample.json_loads
      ([Sample.chunk_line Sample.A] ++ [py "data: [DONE]"]) None.
Proof.
  apply (iter_sse_after_DONE Sample.json_loads [Sample.chunk_line Sample.A]
           [Sample.chunk_line Sample.B] (py "data: [DONE]")
           (Some (py "peer closed connection"))); evaluated.
Defined.

Lemma complete_failures_witness :
  complete Sample.json_loads Sample.network_no_summary Sample.llm_client
    (summary_prompt Sample.hello) summary_temperature
  = Raise (LLMClientError
             (py "LLM provider returned " ++ str_of_Z 503 ++ py ": "
                ++ py "overloaded")).
Proof.
  destruct (complete_failures Sample.json_loads Sample.network_no_summary
              Sample.llm_client (summary_prompt Sample.hello)
              summary_temperature Cases.summary_payload) as (_ & H & _);
    [evaluated|].
  apply H; [evaluated|]. vm_compute. intros [_ H']. apply H'. reflexivity.
Defined.

Lemma complete_returns_witness :
  ∃ result,
    complete Sample.json_loads Sample.network Sample.llm_client
      (summary_prompt Sample.hello) summary_temperature = Ok result
    ∧ ChatCompletionChoice.content (ChatCompletionResult.choice result)
      = JStr Sample.gist.
Proof.
  destruct (complete_returns Sample.json_loads Sample.network
              Sample.llm_client (summary_prompt Sample.hello)
              summary_temperature Cases.summary_payload
              [(py "choices",
                JArr [JObj [(py "message",
                             JObj [(py "content", JStr Sample.gist)])]])]
              [(py "message", JObj [(py "content", JStr Sample.gist)])]
              [(py "content", JStr Sample.gist)] [])
    as (result & Hresult & Hcontent & _);
    [evaluated| evaluated | vm_compute; split; discriminate
    | evaluated | evaluated | evaluated |].
  exists result. split; [exact Hresult|]. rewrite Hcontent. evaluated.
Defined.

Lemma api_update_message_missing_witness :
  api_update_message Sample.db3 7 (MessageUpdate.mk (Some (py "changed")) None None)
  = (HTTPException 404 (py "Message" ++ py " " ++ str_of_Z 7 ++ py " not found"),
     Sample.db3).
Proof.
  apply (api_update_message_missing Sample.db3 7
           (MessageUpdate.mk (Some (py "changed")) None None));
    [unfold int64; lia|intros o Ho; discriminate Ho|evaluated..].
Defined.


Lemma api_update_message_fields_witness :
  ∃ row,
    messages Sample.db3 !! 2 = Some row
    ∧ get_message Cases.db3_changed 2
      = Ok (_row_to_message 2
              (set_fields row (Some (py "changed")) None None None None))
    ∧ MessageOut.parent_id
        (MessageOut.from_model (_row_to_message 2 Cases.row2_changed))
      = Row.parent_id row
    ∧ (∀ x, x ≠ 2 → messages Cases.db3_changed !! x = messages Sample.db3 !! x).
Proof.
  destruct (api_update_message_fields Sample.db3 Cases.db3_changed 2
              (MessageUpdate.mk (Some (py "changed")) None None)
              (MessageOut.from_model (_row_to_message 2 Cases.row2_changed)))
    as (row & H1 & H2 & _ & _ & _ & _ & H7 & _ & _ & _ & H11 & _);
    [evaluated|].
  exists row. split; [exact H1|]. split; [exact H2|]. split; [exact H7|exact H11].
Defined.

Lemma api_get_messages_spec_witness :
  api_get_messages Sample.db3 7
  = HTTPException 404
      (py "Conversation" ++ py " " ++ str_of_Z 7 ++ py " not found")
  ∧ ∃ messages,
      api_get_messages Sample.db3 1
      = Returned (MessageOut.from_model <$> messages)
      ∧ StronglySorted
          (fun a b => Message.order_index a ≤ Message.order_index b) messages.
Proof.
  split.
  - apply (api_get_messages_spec Sample.db3 7); [unfold int64; lia|evaluated].
  - destruct (api_get_messages_spec Sample.db3 1) as [_ Hstored];
      [unfold int64; lia|].
    destruct Hstored as (messages & Hanswer & _ & _ & Hsorted); [by eexists|].
    exists messages. split; [exact Hanswer|exact Hsorted].
Defined.

(** The messages of the sample thread as the endpoint returns them. *)
Example api_get_messages_sample :
  api_get_messages Sample.db3 1
  = Returned (MessageOut.from_model <$> [Sample.m1; Sample.m2]).
Proof. evaluated. Qed.

Lemma api_update_conversation_spec_witness :
  api_update_conversation Sample.db3 1
    (ConversationUpdate.mk (Some (py "renamed")))
  = (Returned (ConversationOut.mk 1 (py "renamed") Sample.now),
     with_title Sample.db3 1 (py "renamed"))
  ∧ api_update_conversation Sample.db3 7
      (ConversationUpdate.mk (Some (py "renamed")))
    = (HTTPException 404
         (py "Conversation" ++ py " " ++ str_of_Z 7 ++ py " not found"),
       Sample.db3).
Proof.
  split.
  - apply (api_update_conversation_spec Sample.db3 1
             (ConversationUpdate.mk (Some (py "renamed"))));
      [unfold int64; lia|evaluated].
  - apply (api_update_conversation_spec Sample.db3 7
             (ConversationUpdate.mk (Some (py "renamed"))));
      [unfold int64; lia|evaluated].
Defined.

(** The sample database after that request. *)
Example api_update_conversation_sample :
  with_title Sample.db3 1 (py "renamed") = Cases.db3_titled.
Proof. evaluated. Qed.

Lemma is_model_related_question_words_witness :
  is_model_related_question Sample.lower (py "能否帮我写一段代码") = true.
Proof.
  apply (is_model_related_question_words Sample.lower (py "能否帮我写一段代码")
           (py "能否")).
  - apply elem_of_app. right. apply judgment_words_third.
  - evaluated.
Defined.

Lemma reply_empty_content_witness :
  _stream_llm_reply Sample.lower Sample.json_loads Sample.network 1
    Sample.hello Sample.conversation Sample.config Sample.llm_client
    (_row_to_message 2 Cases.row_under_blank) Cases.db_blank
  = ([ Yield (FrameMessageId 2);
       CallStream
         (build_llm_messages
            [_row_to_message 1 Cases.row_blank;
             _row_to_message 2 Cases.row_under_blank])
         Sample.one ],
     Cases.db_blank,
     Crashed (ValueError (py "Each message must contain 'role' and 'content'"))).
Proof.
  apply (reply_empty_content Sample.lower Sample.json_loads Sample.network 1
           Sample.hello Sample.conversation Sample.config Sample.llm_client
           (_row_to_message 2 Cases.row_under_blank) Cases.db_blank
           [_row_to_message 1 Cases.row_blank;
            _row_to_message 2 Cases.row_under_blank]
           (_row_to_message 1 Cases.row_blank)); try evaluated.
  left.
Defined.

Lemma reply_piece_not_text_witness :
  _stream_llm_reply Sample.lower Cases.json_loads_number Cases.network_number 1
    Sample.hello Sample.conversation Sample.config Sample.llm_client
    Sample.m1 Sample.db2
  = ([ Yield (FrameMessageId 1);
       CallStream (build_llm_messages [Sample.m1]) Sample.one ]
     ++ ((fun d => Yield (FrameDelta d)) <$> [Sample.A]),
     Sample.db2, Crashed TypeError).
Proof.
  apply (reply_piece_not_text Sample.lower Cases.json_loads_number
           Cases.network_number 1 Sample.hello Sample.conversation
           Sample.config Sample.llm_client Sample.m1 Sample.db2 [Sample.m1]
           [Sample.A] (JInt 5) [JStr Sample.B] None); try evaluated.
  discriminate.
Defined.

Lemma api_conversation_llm_reply_appends_witness :
  ∃ llm_client user_message db',
    api_conversation_llm_reply Sample.lower Sample.json_loads Sample.network
      Cases.db_ready 1 Sample.hello
    = Returned (_stream_llm_reply Sample.lower Sample.json_loads
                  Sample.network 1 Sample.hello Sample.conversation
                  (_row_to_config Cases.config_row) llm_client user_message db')
    ∧ get_message db' (Message.id user_message) = Ok user_message
    ∧ Message.order_index user_message = _next_order_index Cases.db_ready 1.
Proof.
  destruct (api_conversation_llm_reply_appends Sample.lower Sample.json_loads
              Sample.network Cases.db_ready 1 Sample.hello Sample.conversation
              (_row_to_config Cases.config_row))
    as (llm_client & user_message & db' & H1 & H2 & _ & _ & H5 & _);
    [evaluated|evaluated|discriminate|evaluated|evaluated
    |split; vm_compute; discriminate|].
  exists llm_client, user_message, db'.
  split; [exact H1|]. split; [exact H2|exact H5].
Defined.

(** The message made for the request is the third of the thread. *)
Example api_conversation_llm_reply_sample :
  create_message Cases.db_ready 1 (py "hello") None None (Some 2) None
  = Ok (_row_to_message 3 Cases.row3, Cases.db_asked).
Proof. evaluated. Qed.

